(** * classifier-HO: single-layer Hebbian / Hebb-decay / Oja classifiers

    A shallow embedding of the learning engine of [classifier-HO.py]
    (the [Layer] class, the three learning rules, [runTest] and
    [trainNewNetworksAndTest]), of the readers of its data files and of
    [computeAccPerLabel], together with the properties its specification
    states about it and further properties of the code.

    Numbers.  The program computes with numpy [float64] arrays.  Here a
    float is an exact real number or one of the IEEE special values
    (not-a-number, plus and minus infinity): finite arithmetic neither
    rounds nor overflows, and the special values follow the IEEE rules
    the program relies on ([0/0] is not-a-number, not-a-number compares
    unequal to everything).  Signed zeros are not distinguished.

    Arrays.  A 1-D array is a list, a 2-D array the list of its rows.
    numpy's broadcasting and its shape errors are written out.  An array
    without rows carries no column count in this representation. *)

From Stdlib Require Import Reals Lra Lia ZArith List Bool Arith Permutation Sorted.
From Stdlib.Strings Require Byte.
Import ListNotations.

Set Implicit Arguments.

(* ================================================================= *)
(** ** Exceptions and fallible computations *)

Inductive exn : Type :=
| AssertionError
| ValueError
| OverflowError
| IndexError
| ZeroDivisionError.

Inductive result (A : Type) : Type :=
| Ok (a : A)
| Raise (e : exn).

Arguments Ok {A} a.
Arguments Raise {A} e.

Definition bind {A B : Type} (m : result A) (k : A -> result B) : result B :=
  match m with
  | Ok a => k a
  | Raise e => Raise e
  end.

Notation "x <- m ;; k" := (bind m (fun x => k))
  (at level 61, m at next level, right associativity).

(** [mapM f l] runs [f] over [l] from left to right and stops at the
    first exception. *)
Fixpoint mapM {A B : Type} (f : A -> result B) (l : list A) : result (list B) :=
  match l with
  | [] => Ok []
  | a :: l' => b <- f a ;; bs <- mapM f l' ;; Ok (b :: bs)
  end.

(* ================================================================= *)
(** ** Floats: exact reals with the IEEE special values *)

Open Scope R_scope.

Inductive num : Type :=
| Fin (r : R)
| PInf
| NInf
| NaN.

Definition isnan (a : num) : bool :=
  match a with NaN => true | _ => false end.

Definition finite (a : num) : Prop :=
  match a with Fin _ => True | _ => False end.

(** Sign of a real, as the special-value rules need it. *)
Inductive sign : Type := Neg | Zero | Pos.

Definition Rsign (r : R) : sign :=
  if Req_dec_T r 0 then Zero else if Rlt_dec r 0 then Neg else Pos.

Definition nopp (a : num) : num :=
  match a with
  | Fin r => Fin (- r)
  | PInf => NInf
  | NInf => PInf
  | NaN => NaN
  end.

Definition nadd (a b : num) : num :=
  match a, b with
  | NaN, _ | _, NaN => NaN
  | Fin x, Fin y => Fin (x + y)
  | PInf, NInf | NInf, PInf => NaN
  | PInf, _ | _, PInf => PInf
  | NInf, _ | _, NInf => NInf
  end.

Definition nsub (a b : num) : num := nadd a (nopp b).

(** An infinity with the sign of [s]; [0 * inf] is not-a-number. *)
Definition inf_signed (s : sign) (positive : bool) : num :=
  match s with
  | Zero => NaN
  | Pos => if positive then PInf else NInf
  | Neg => if positive then NInf else PInf
  end.

Definition nmul (a b : num) : num :=
  match a, b with
  | NaN, _ | _, NaN => NaN
  | Fin x, Fin y => Fin (x * y)
  | Fin x, PInf | PInf, Fin x => inf_signed (Rsign x) true
  | Fin x, NInf | NInf, Fin x => inf_signed (Rsign x) false
  | PInf, PInf | NInf, NInf => PInf
  | PInf, NInf | NInf, PInf => NInf
  end.

Definition ndiv (a b : num) : num :=
  match a, b with
  | NaN, _ | _, NaN => NaN
  | Fin x, Fin y =>
      if Req_dec_T y 0 then inf_signed (Rsign x) true else Fin (x / y)
  | Fin _, (PInf | NInf) => Fin 0
  | PInf, Fin y => if Rlt_dec y 0 then NInf else PInf
  | NInf, Fin y => if Rlt_dec y 0 then PInf else NInf
  | (PInf | NInf), (PInf | NInf) => NaN
  end.

Definition nsqrt (a : num) : num :=
  match a with
  | Fin x => if Rlt_dec x 0 then NaN else Fin (sqrt x)
  | PInf => PInf
  | NInf | NaN => NaN
  end.

Definition nexp (a : num) : num :=
  match a with
  | Fin x => Fin (exp x)
  | PInf => PInf
  | NInf => Fin 0
  | NaN => NaN
  end.

(** Comparisons: every comparison with not-a-number is false. *)
Definition neqb (a b : num) : bool :=
  match a, b with
  | Fin x, Fin y => if Req_dec_T x y then true else false
  | PInf, PInf | NInf, NInf => true
  | _, _ => false
  end.

Definition nltb (a b : num) : bool :=
  match a, b with
  | NaN, _ | _, NaN => false
  | Fin x, Fin y => if Rlt_dec x y then true else false
  | NInf, (Fin _ | PInf) => true
  | Fin _, PInf => true
  | _, _ => false
  end.

Definition nleb (a b : num) : bool := nltb a b || neqb a b.

(** A Python [int] as a float. *)
Definition of_nat (n : nat) : num := Fin (INR n).

(** Python's [int( f )]: truncation toward zero; the special values raise. *)
Definition Rtrunc (r : R) : Z :=
  if Rle_dec 0 r then Int_part r else (- Int_part (- r))%Z.

Definition int_of_num (a : num) : result Z :=
  match a with
  | Fin r => Ok (Rtrunc r)
  | PInf | NInf => Raise OverflowError
  | NaN => Raise ValueError
  end.

(* ================================================================= *)
(** ** numpy arrays and the operations the program uses *)

Definition vector : Type := list num.
Definition matrix : Type := list vector.

(** [W.shape == (m, n)]. *)
Definition has_shape (m n : nat) (W : matrix) : Prop :=
  length W = m /\ Forall (fun row => length row = n) W.

(** Elementwise combination of two sequences under numpy's broadcasting
    rule for one axis: equal lengths pair up, a length-1 side is
    repeated, anything else is a shape error. *)
Definition bcast {A B C : Type} (f : A -> B -> result C)
    (u : list A) (v : list B) : result (list C) :=
  if (length u =? length v)%nat then mapM (fun ab => f (fst ab) (snd ab)) (combine u v)
  else
    match u, v with
    | [a], _ => mapM (f a) v
    | _, [b] => mapM (fun a => f a b) u
    | _, _ => Raise ValueError
    end.

Definition bvec (f : num -> num -> num) (u v : vector) : result vector :=
  bcast (fun a b => Ok (f a b)) u v.

(** A binary arithmetic operator between two 2-D arrays. *)
Definition bmat (f : num -> num -> num) (A B : matrix) : result matrix :=
  bcast (bvec f) A B.

(** [np.zeros( (m, n) )]; numpy rejects negative dimensions. *)
Definition np_zeros (shape : Z * Z) : result matrix :=
  let '(m, n) := shape in
  if ((m <? 0) || (n <? 0))%Z then Raise ValueError
  else Ok (repeat (repeat (Fin 0) (Z.to_nat n)) (Z.to_nat m)).

(** [np.outer( y, x )]. *)
Definition np_outer (y x : vector) : matrix :=
  map (fun yi => map (fun xj => nmul yi xj) x) y.

(** [eta * M] for a scalar [eta]. *)
Definition scale (eta : num) (M : matrix) : matrix :=
  map (map (nmul eta)) M.

(** [y[ :, None ]]: a 1-D array as a column. *)
Definition column (y : vector) : matrix := map (fun yi => [yi]) y.

(** [np.sum( v )]. *)
Definition np_sum (v : vector) : num := fold_left nadd v (Fin 0).

Fixpoint map2 {A B C : Type} (f : A -> B -> C) (u : list A) (v : list B) : list C :=
  match u, v with
  | a :: u', b :: v' => f a b :: map2 f u' v'
  | _, _ => []
  end.

(** [np.dot( W, x )] for a 2-D [W] and a 1-D [x]: no broadcasting, the
    row length must be the length of [x]. *)
Definition np_dot (W : matrix) (x : vector) : result vector :=
  mapM (fun row =>
          if (length row =? length x)%nat then Ok (np_sum (map2 nmul row x))
          else Raise ValueError) W.

(** [np.max( v )]: not-a-number propagates; empty input is an error. *)
Definition nmax (a b : num) : num :=
  if isnan a then a else if isnan b then b else if nltb a b then b else a.

Definition np_max (v : vector) : result num :=
  match v with
  | [] => Raise ValueError
  | a :: v' => Ok (fold_left nmax v' a)
  end.

(** [np.argmax( v )]: the first index of the maximum; a not-a-number
    entry counts as the maximum and stops the scan. *)
Fixpoint argmax_loop (mp : num) (best i : nat) (l : vector) : nat :=
  match l with
  | [] => best
  | a :: l' =>
      if nleb a mp then argmax_loop mp best (S i) l'
      else if isnan a then i
      else argmax_loop a i (S i) l'
  end.

Definition np_argmax (v : vector) : result nat :=
  match v with
  | [] => Raise ValueError
  | a :: v' => if isnan a then Ok 0%nat else Ok (argmax_loop a 0 1 v')
  end.

(** [np.linalg.norm( x, axis=1 )]: the Euclidean norm of every row. *)
Definition row_norm (row : vector) : num :=
  nsqrt (np_sum (map (fun a => nmul a a) row)).

Definition np_linalg_norm_axis1 (x : matrix) : vector := map row_norm x.

(** [M[ np.isnan( M ) ] = 0]. *)
Definition nan_to_zero (M : matrix) : matrix :=
  map (map (fun a => if isnan a then Fin 0 else a)) M.

(* ----------------------------------------------------------------- *)
(** *** Functions used in classes (source lines 94-106) *)

Definition normalizeRows (x : matrix) : result matrix :=
  bmat ndiv x (column (np_linalg_norm_axis1 x)).

Definition softmax (x : vector) : result vector :=
  mx <- np_max x ;;
  let xrel := map (fun a => nsub a mx) x in
  let e := map nexp xrel in
  Ok (map (fun a => ndiv a (np_sum e)) e).

(** [asDigits]: [np.argmax( labels, axis=1 )]. *)
Definition asDigits (labels : matrix) : result (list nat) :=
  mapM np_argmax labels.

(* ----------------------------------------------------------------- *)
(** *** The learning rules (source lines 741-743) *)

Definition rule : Type := matrix -> vector -> vector -> num -> result matrix.

Definition r_hebb : rule := fun W x y eta =>
  bmat nadd W (scale eta (np_outer y x)).

Definition r_decay : rule := fun W x y eta =>
  d <- bmat nsub [x] W ;;
  p <- bmat nmul d (column y) ;;
  bmat nadd W (scale eta p).

Definition r_ojas : rule := fun W x y eta =>
  wy <- bmat nmul W (column y) ;;
  d <- bmat nsub [x] wy ;;
  p <- bmat nmul d (column y) ;;
  bmat nadd W (scale eta p).

(* ================================================================= *)
(** ** The process-wide pseudo-random generator

    [np.random] is global mutable state.  Its algorithm is not part of
    the program; the program relies on three operations and on what
    they return: seeding, a uniform permutation of [range( n )], and a
    matrix of uniform draws from [[-1, 1)]. *)

Class RandomGen : Type := {
  rng : Type;
  seed : Z -> rng;
  permutation : rng -> nat -> list nat * rng;
  uniform : rng -> nat -> nat -> matrix * rng;
  permutation_perm : forall g n, Permutation (fst (permutation g n)) (seq 0 n);
  uniform_shape : forall g m n, has_shape m n (fst (uniform g m n));
}.

(** [np.random.seed( s )] accepts seeds in [[0, 2^32)]. *)
Definition np_random_seed `{RandomGen} (s : Z) : result rng :=
  if ((0 <=? s) && (s <? 2 ^ 32))%Z then Ok (seed s) else Raise ValueError.

(** [np.random.uniform( low=-1, high=1, size=shape )]. *)
Definition np_random_uniform `{RandomGen} (g : rng) (shape : Z * Z)
  : result matrix * rng :=
  let '(m, n) := shape in
  if ((m <? 0) || (n <? 0))%Z then (Raise ValueError, g)
  else let '(M, g') := uniform g (Z.to_nat m) (Z.to_nat n) in (Ok M, g').

(* ================================================================= *)
(** ** Evaluation: [runTest] (source lines 109-138)

    [network] is any object with a [compute] method; it enters as that
    method.  The call form modelled is the three-argument one (no
    [convertedy]), which is the one [Layer.train] and
    [trainNewNetworksAndTest] use.  [preds] is a float array: a class
    index is stored as a float and [None] as not-a-number. *)

Definition predict (compute : vector -> result vector) (x : vector) : result num :=
  predvec <- compute x ;;
  if neqb (np_sum predvec) (Fin 0) then Ok NaN
  else
    s <- softmax predvec ;;
    k <- np_argmax s ;;
    Ok (of_nat k).

(** [np.where( comp == False )]: the positions of [false], ascending. *)
Fixpoint where_false (i : nat) (comp : list bool) : list nat :=
  match comp with
  | [] => []
  | c :: comp' => if c then where_false (S i) comp' else i :: where_false (S i) comp'
  end.

Definition count_true (comp : list bool) : nat :=
  fold_left (fun s (c : bool) => if c then S s else s) comp 0%nat.

Definition runTest (X y : matrix) (compute : vector -> result vector)
  : result (num * list nat) :=
  if negb (length X =? length y)%nat then Raise AssertionError
  else
    yd <- asDigits y ;;
    preds <- mapM (predict compute) X ;;
    let comp := map2 (fun p d => neqb p (of_nat d)) preds yd in
    if (length yd =? 0)%nat then Raise ZeroDivisionError
    else
      let correct := ndiv (of_nat (count_true comp)) (of_nat (length yd)) in
      let indexWrong := where_false 0 comp in
      Ok (correct, indexWrong).

(* ================================================================= *)
(** ** The [Layer] class (source lines 143-272) *)

Record Layer : Type := mkLayer {
  layerShape : Z * Z;
  aF : vector -> result vector;
  learning : rule;
  normalize : bool;
  weights : matrix;
}.

Definition set_weights (self : Layer) (W : matrix) : Layer :=
  {| layerShape := layerShape self; aF := aF self; learning := learning self;
     normalize := normalize self; weights := W |}.

(** The default [activationFunction], [lambda x: x]. *)
Definition linear : vector -> result vector := fun x => Ok x.

Definition getWeights (self : Layer) : matrix := weights self.

(** [compute]: [self.aF( np.dot( self.weights, x ) )]. *)
Definition compute (self : Layer) (x : vector) : result vector :=
  v <- np_dot (weights self) x ;; aF self v.

(** [learn] assigns [self.weights] once after the rule and once more
    after normalising; the layer it returns is the object as the call
    left it, also when the call raised. *)
Definition learn (self : Layer) (x y : vector) (eta : num) : Layer * result unit :=
  match learning self (weights self) x y eta with
  | Raise e => (self, Raise e)
  | Ok W =>
      let self1 := set_weights self W in
      if normalize self1 then
        match normalizeRows (weights self1) with
        | Raise e => (self1, Raise e)
        | Ok Wn => (set_weights self1 (nan_to_zero Wn), Ok tt)
        end
      else (self1, Ok tt)
  end.

(** [compulearn]: the output is computed with the weights the layer has
    on entry and returned after learning; with [y = None] the layer
    learns that output as its own target. *)
Definition compulearn (self : Layer) (x : vector) (y : option vector) (eta : num)
  : Layer * result vector :=
  match compute self x with
  | Raise e => (self, Raise e)
  | Ok res =>
      let '(self', r) :=
        learn self x (match y with None => res | Some y' => y' end) eta in
      (self', match r with Ok _ => Ok res | Raise e => Raise e end)
  end.

Section WithRandomGen.

Context `{RG : RandomGen}.

(** [Layer.__init__].  The default [learning] is the same lambda as
    [r_hebb], the default [activationFunction] is [linear]. *)
Definition Layer_init (nInputs nNeurons : Z) (activationFunction : vector -> result vector)
    (learning : rule) (random normalize : bool) (g : rng) : result Layer * rng :=
  let layerShape := (nNeurons, nInputs) in
  if random then
    let '(r, g') := np_random_uniform g layerShape in
    (M <- r ;; W <- normalizeRows M ;;
     Ok (mkLayer layerShape activationFunction learning normalize W), g')
  else
    (W <- np_zeros layerShape ;;
     Ok (mkLayer layerShape activationFunction learning normalize W), g).

(** The state of a [train] call: the layer, the global generator, and
    the locals [eta] and [hist].  [t_orders] keeps the value the local
    [permutation] had in each epoch started so far. *)
Record tstate : Type := mkT {
  t_self : Layer;
  t_rng : rng;
  t_eta : num;
  t_hist : list num;
  t_orders : list (list nat);
}.

(** The loop [for i, idx in enumerate( permutation )] from position [i]. *)
Fixpoint sample_loop (Xt yt : matrix) (idxDec : Z) (decay : num)
    (perm : list nat) (i : nat) (self : Layer) (eta : num)
  : Layer * num * result unit :=
  match perm with
  | [] => (self, eta, Ok tt)
  | idx :: rest =>
      match nth_error Xt idx, nth_error yt idx with
      | Some x, Some y =>
          match learn self x y eta with
          | (self', Raise e) => (self', eta, Raise e)
          | (self', Ok _) =>
              if (idxDec =? 0)%Z then (self', eta, Raise ZeroDivisionError)
              else
                sample_loop Xt yt idxDec decay rest (S i) self'
                  (if (Z.of_nat (S i) mod idxDec =? 0)%Z then nmul eta decay else eta)
          end
      | _, _ => (self, eta, Raise IndexError)
      end
  end.

(** The loop [for x in range( epochs )]. *)
Fixpoint epoch_loop (Xt yt X_val y_val : matrix) (permute : bool) (idxDec : Z)
    (decay : num) (epochs : nat) (st : tstate) : tstate * result unit :=
  match epochs with
  | O => (st, Ok tt)
  | S epochs' =>
      let n := length Xt in
      let '(perm, g') :=
        if permute then permutation (t_rng st) n else (seq 0 n, t_rng st) in
      let '(self', eta', r) :=
        sample_loop Xt yt idxDec decay perm 0 (t_self st) (t_eta st) in
      let st1 := mkT self' g' eta' (t_hist st) (t_orders st ++ [perm]) in
      match r with
      | Raise e => (st1, Raise e)
      | Ok _ =>
          match runTest X_val y_val (compute self') with
          | Raise e => (st1, Raise e)
          | Ok (correct, _) =>
              epoch_loop Xt yt X_val y_val permute idxDec decay epochs'
                (mkT self' g' (nmul eta' decay) (t_hist st ++ [correct])
                     (t_orders st ++ [perm]))
          end
      end
  end.

(** [Layer.train].  The result pairs the state in which the call ended
    with what it returned or raised ([verbose] only prints). *)
Definition train (self : Layer) (Xt yt X_val y_val : matrix) (epochs : nat)
    (eta : num) (permute : bool) (decay decayAfter : num) (g : rng)
  : tstate * result (list num) :=
  let st0 := mkT self g eta [] [] in
  if negb (length Xt =? length yt)%nat then (st0, Raise AssertionError)
  else if negb (length X_val =? length y_val)%nat then (st0, Raise AssertionError)
  else if negb (nleb decayAfter (Fin 1) && nltb (Fin 0) decayAfter)
  then (st0, Raise AssertionError)
  else
    match int_of_num (nmul (of_nat (length Xt)) decayAfter) with
    | Raise e => (st0, Raise e)
    | Ok idxDec =>
        let '(st, r) := epoch_loop Xt yt X_val y_val permute idxDec decay epochs st0 in
        (st, match r with Ok _ => Ok (t_hist st) | Raise e => Raise e end)
    end.

(* ----------------------------------------------------------------- *)
(** *** The experiment driver (source lines 355-439)

    Code that reads and writes the global generator and may raise. *)

Definition G (A : Type) : Type := rng -> result A * rng.

Definition retG {A : Type} (a : A) : G A := fun g => (Ok a, g).

Definition bindG {A B : Type} (m : G A) (k : A -> G B) : G B :=
  fun g =>
    match m g with
    | (Ok a, g') => k a g'
    | (Raise e, g') => (Raise e, g')
    end.

Definition liftG {A : Type} (r : result A) : G A := fun g => (r, g).

Notation "x <~ m ;; k" := (bindG m (fun x => k))
  (at level 61, m at next level, right associativity).

(** [np.random.seed( s )] as an action on the global generator. *)
Definition seedG (s : Z) : G unit :=
  fun g =>
    match np_random_seed s with
    | Ok g' => (Ok tt, g')
    | Raise e => (Raise e, g)
    end.

(** A [train] call as an action: its final state when it returned. *)
Definition trainG (self : Layer) (Xt yt X_val y_val : matrix) (epochs : nat)
    (eta : num) (permute : bool) (decay decayAfter : num) : G tstate :=
  fun g =>
    let '(st, r) := train self Xt yt X_val y_val epochs eta permute decay decayAfter g in
    (match r with Ok _ => Ok st | Raise e => Raise e end, t_rng st).

(** A dictionary with the keys ['hebb'], ['deca'], ['ojas']. *)
Record per_rule (A : Type) : Type := mkPR { hebb : A; deca : A; ojas : A }.

Definition append3 {A : Type} (d : per_rule (list A)) (a b c : A) : per_rule (list A) :=
  mkPR (hebb d ++ [a]) (deca d ++ [b]) (ojas d ++ [c]).

Definition empty3 {A : Type} : per_rule (list A) := mkPR [] [] [].

(** What the driver returns; [visited] keeps, per rule and run, the
    orders in which that rule's [train] call visited the samples. *)
Record experiment : Type := mkE {
  accuracies : per_rule (list num);
  wrongIndices : per_rule (list (list nat));
  valHistory : per_rule (list (list num));
  networks : option (per_rule (list Layer));
  visited : per_rule (list (list (list nat)));
}.

Section Driver.

Variables (X_train y_train X_val y_val X_test y_test : matrix).
Variables (epochs : nat) (learningRules : rule * rule * rule).
Variables (decayAfter decay : num) (permute : bool).
Variables (N_INPUT N_OUTPUT : Z) (eta : num).

(** The body of [for run in range( runs )]. *)
Definition one_run (run : nat) (acc : experiment) : G experiment :=
  let '(r_hebb, r_decay, r_ojas) := learningRules in
  hebb0 <~ Layer_init N_INPUT N_OUTPUT linear r_hebb false false ;;
  deca0 <~ Layer_init N_INPUT N_OUTPUT linear r_decay false false ;;
  ojas0 <~ Layer_init N_INPUT N_OUTPUT linear r_ojas false true ;;
  _ <~ seedG (Z.of_nat run) ;;
  sH <~ trainG hebb0 X_train y_train X_val y_val epochs eta permute decay decayAfter ;;
  _ <~ seedG (Z.of_nat run) ;;
  sD <~ trainG deca0 X_train y_train X_val y_val epochs eta permute decay decayAfter ;;
  _ <~ seedG (Z.of_nat run) ;;
  sO <~ trainG ojas0 X_train y_train X_val y_val epochs eta permute decay decayAfter ;;
  tH <~ liftG (runTest X_test y_test (compute (t_self sH))) ;;
  tD <~ liftG (runTest X_test y_test (compute (t_self sD))) ;;
  tO <~ liftG (runTest X_test y_test (compute (t_self sO))) ;;
  retG (mkE (append3 (accuracies acc) (fst tH) (fst tD) (fst tO))
            (append3 (wrongIndices acc) (snd tH) (snd tD) (snd tO))
            (append3 (valHistory acc) (t_hist sH) (t_hist sD) (t_hist sO))
            (option_map (fun n => append3 n (t_self sH) (t_self sD) (t_self sO))
                        (networks acc))
            (append3 (visited acc) (t_orders sH) (t_orders sD) (t_orders sO))).

Fixpoint run_loop (runs : list nat) (acc : experiment) : G experiment :=
  match runs with
  | [] => retG acc
  | run :: rest => acc' <~ one_run run acc ;; run_loop rest acc'
  end.

Definition trainNewNetworksAndTest (runs : nat) (retNetworks : bool) : G experiment :=
  run_loop (seq 0 runs)
    (mkE empty3 empty3 empty3 (if retNetworks then Some empty3 else None) empty3).

End Driver.

End WithRandomGen.

(* ================================================================= *)
(** ** Reading the data (source lines 442-473 and 775-790)

    A file opened with [gzip.open] enters as its decompressed content:
    [f.read( k )] hands out the next [k] bytes, or as many as are left.
    Integers are unbounded, as Python's; the limits of the machine
    (memory, index width) are not modelled: where Python refuses a read
    of [k] bytes as too large ([OverflowError], [MemoryError]), [read]
    goes on with the bytes that are left. *)

Definition file : Type := list Byte.byte.

Definition read (k : Z) (f : file) : list Byte.byte * file :=
  (firstn (Z.to_nat k) f, skipn (Z.to_nat k) f).

(** [int.from_bytes( b, "big" )]. *)
Definition from_bytes_big (b : list Byte.byte) : Z :=
  fold_left (fun acc c => (256 * acc + Z.of_N (Byte.to_N c))%Z) b 0%Z.

(** [np.frombuffer( buf, dtype=np.uint8 ).astype( np.int64 )]. *)
Definition frombuffer_uint8 (buf : list Byte.byte) : list Z :=
  map (fun c => Z.of_N (Byte.to_N c)) buf.

(** [data.reshape( rows, cols )] of a 1-D array, for non-negative
    dimensions: the sizes must agree. *)
Fixpoint rows_of (rows cols : nat) (data : list Z) : list (list Z) :=
  match rows with
  | O => []
  | S rows' => firstn cols data :: rows_of rows' cols (skipn cols data)
  end.

Definition reshape (rows cols : Z) (data : list Z) : result (list (list Z)) :=
  if (Z.of_nat (length data) =? rows * cols)%Z
  then Ok (rows_of (Z.to_nat rows) (Z.to_nat cols) data)
  else Raise ValueError.

Definition readImages (f : file) : result (list (list Z)) :=
  let '(_, f) := read 4 f in
  let '(b, f) := read 4 f in
  let nImages := from_bytes_big b in
  let '(b, f) := read 4 f in
  let x := from_bytes_big b in
  let '(b, f) := read 4 f in
  let y := from_bytes_big b in
  let '(buf, _) := read (x * y * nImages) f in
  let data := frombuffer_uint8 buf in
  reshape nImages (x * y) data.

Definition readLabels (f : file) : list Z :=
  let '(_, f) := read 4 f in
  let '(b, f) := read 4 f in
  let nLabels := from_bytes_big b in
  let '(buf, _) := read nLabels f in
  frombuffer_uint8 buf.

(** [readImages( path ) / 255]: an integer array divided by a scalar is
    a float array. *)
Definition div_255 (M : list (list Z)) : matrix :=
  map (map (fun v => ndiv (Fin (IZR v)) (Fin 255))) M.

(** The one-hot row of a label,
    [[ 1 if x == label else 0 for x in range(10) ]]. *)
Definition one_hot (label : Z) : vector :=
  map (fun x => if (Z.of_nat x =? label)%Z then Fin 1 else Fin 0) (seq 0 10).

(* ================================================================= *)
(** ** Accuracy per label: [computeAccPerLabel] (source lines 580-592) *)

(** [np.histogram( v, bins )[0]] for integer data and ascending integer
    edges: a bin holds the values from its left edge up to, and not
    including, its right edge; the last bin includes its right edge. *)
Fixpoint np_histogram (v : list nat) (bins : list nat) : list nat :=
  match bins with
  | [] => []
  | lo :: bins' =>
      match bins' with
      | [] => []
      | hi :: rest =>
          length (filter (fun a => (lo <=? a)%nat
                                   && (match rest with
                                       | [] => (a <=? hi)%nat
                                       | _ :: _ => (a <? hi)%nat
                                       end)) v)
          :: np_histogram v bins'
      end
  end.

(** [y[ idx ]] for an array [idx] of non-negative indices. *)
Definition take {A : Type} (y : list A) (idx : list nat) : result (list A) :=
  mapM (fun i => match nth_error y i with
                 | Some a => Ok a
                 | None => Raise IndexError
                 end) idx.

Definition computeAccPerLabel (y : matrix) (wrongIndices : list nat) : result vector :=
  y <- asDigits y ;;
  let bins := seq 0 11 in
  let distr := np_histogram y bins in
  wrongIndiceLabels <- take y wrongIndices ;;
  let wrongs := np_histogram wrongIndiceLabels bins in
  Ok (map2 (fun d w => ndiv (Fin (IZR (Z.of_nat d - Z.of_nat w))) (of_nat d))
        distr wrongs).

(* ================================================================= *)
(** ** A concrete generator for examples

    The state is a counter; an even state hands out [range( n )] in
    order, an odd one in reverse, and every draw advances the counter.
    [uniform] returns the constant [1/2]. *)

#[export, refine] Instance CounterGen : RandomGen := {
  rng := nat;
  seed := fun s => Z.to_nat s;
  permutation := fun g n => (if Nat.even g then seq 0 n else rev (seq 0 n), S g);
  uniform := fun g m n => (repeat (repeat (Fin (1 / 2)) n) m, S g);
}.
Proof.
  - intros g n; simpl. destruct (Nat.even g).
    + apply Permutation_refl.
    + apply Permutation_sym, Permutation_rev.
  - intros g m n; simpl. split.
    + apply repeat_length.
    + apply Forall_forall. intros row Hrow.
      apply repeat_spec in Hrow. subst row. apply repeat_length.
Defined.

(* ================================================================= *)
(** * Vocabulary of the properties *)

Unset Implicit Arguments.

(** ** Configuration *)

(** The [assert] on [decayAfter] passes exactly on [(0, 1]]. *)
Definition in_unit_interval (d : num) : Prop :=
  exists r, d = Fin r /\ 0 < r <= 1.

(** Data and layer fit together: the layer is [m] neurons by [n]
    inputs with one of the three rules and an activation that returns;
    samples have [n] features, labels [m >= 1] classes; the validation
    set is not empty. *)
Record trainable (m n : nat) (self : Layer) (Xt yt X_val y_val : matrix) : Prop := {
  tr_weights : has_shape m n (weights self);
  tr_rule : In (learning self) [r_hebb; r_decay; r_ojas];
  tr_aF : forall v, length v = m -> exists v', aF self v = Ok v';
  tr_Xt : has_shape (length Xt) n Xt;
  tr_yt : has_shape (length Xt) m yt;
  tr_Xv : has_shape (length X_val) n X_val;
  tr_yv : has_shape (length X_val) m y_val;
  tr_classes : (0 < m)%nat;
  tr_val : X_val <> [];
}.

(** What a layer keeps through learning: configuration and shape. *)
Definition same_config (m n : nat) (self self' : Layer) : Prop :=
  has_shape m n (weights self')
  /\ learning self' = learning self
  /\ normalize self' = normalize self
  /\ aF self' = aF self.

(** ** The rules and [learn] in closed form *)

(** Division of every row by its own norm; never a shape error. *)
Definition normalized_row (row : vector) : vector :=
  map (fun a => ndiv a (row_norm row)) row.

(** Row [i] scaled entrywise by [c[i]]: [M * c[ :, None ]]. *)
Definition times_column (M : matrix) (c : vector) : matrix :=
  map2 (fun row ci => map (fun a => nmul a ci) row) M c.

(** The three rules on operands of matching shape, without the shape
    checks. *)
Definition hebb_update (W : matrix) (x y : vector) (eta : num) : matrix :=
  map2 (map2 nadd) W (scale eta (np_outer y x)).

Definition decay_update (W : matrix) (x y : vector) (eta : num) : matrix :=
  map2 (map2 nadd) W (scale eta (times_column (map (map2 nsub x) W) y)).

Definition ojas_update (W : matrix) (x y : vector) (eta : num) : matrix :=
  map2 (map2 nadd) W
    (scale eta (times_column (map (map2 nsub x) (times_column W y)) y)).

(** The weights a [learn] call leaves behind when the rule returned [W']. *)
Definition after_rule (self : Layer) (W' : matrix) : Layer :=
  if normalize self
  then set_weights (set_weights self W') (nan_to_zero (map normalized_row W'))
  else set_weights self W'.

(** A client that calls [learn] with the given arguments, one call
    after the other, until the list ends or a call raises. *)
Fixpoint learn_all (self : Layer) (calls : list (vector * vector * num))
  : Layer * result unit :=
  match calls with
  | [] => (self, Ok tt)
  | (x, y, eta) :: rest =>
      match learn self x y eta with
      | (self', Ok _) => learn_all self' rest
      | (self', Raise e) => (self', Raise e)
      end
  end.

(** The weights after Hebbian updates with the samples at [perm], in
    that order, all at the learning rate [eta]. *)
Definition hebb_fold (Xt yt : matrix) (eta : num) (perm : list nat) (W : matrix) : matrix :=
  fold_left (fun W idx => hebb_update W (nth idx Xt []) (nth idx yt []) eta) perm W.

(** The entry-wise repair [w[ np.isnan( w ) ] = 0]. *)
Definition fix_nan (a : num) : num := if isnan a then Fin 0 else a.

(** What [learn] makes of one row when [normalize] is set. *)
Definition renormalized (row : vector) : vector := map fix_nan (normalized_row row).

(** The sum of the squares of a row of reals. *)
Definition sum_squares (rs : list R) : R := fold_right (fun r acc => r * r + acc) 0 rs.

(** The value of a sum that met an infinity or a not-a-number. *)
Definition overflowed (a : num) : Prop := a = PInf \/ a = NaN.

(** ** The schedule of a [train] call *)

(** The learning rate after [k] more samples of an epoch, [i] samples
    into it: the schedule of the sample loop, without the learning. *)
Fixpoint eta_schedule (idxDec : Z) (decay : num) (k i : nat) (eta : num) : num :=
  match k with
  | O => eta
  | S k' =>
      eta_schedule idxDec decay k' (S i)
        (if (Z.of_nat (S i) mod idxDec =? 0)%Z then nmul eta decay else eta)
  end.

(** The learning rate after one whole epoch of [n] samples. *)
Definition epoch_eta (idxDec : Z) (decay : num) (n : nat) (eta : num) : num :=
  nmul (eta_schedule idxDec decay n 0 eta) decay.

(** The order in which an epoch visits the samples of [Xt], and the
    generator state after drawing it. *)
Definition epoch_order `{RandomGen} (Xt : matrix) (permute : bool) (g : rng)
  : list nat * rng :=
  if permute then permutation g (length Xt) else (seq 0 (length Xt), g).

(** The orders [epochs] epochs over [n] samples draw from generator
    state [g], and the state they leave. *)
Fixpoint draw_orders `{RandomGen} (permute : bool) (n epochs : nat) (g : rng)
  : list (list nat) * rng :=
  match epochs with
  | O => ([], g)
  | S epochs' =>
      let '(perm, g') := if permute then permutation g n else (seq 0 n, g) in
      let '(rest, g'') := draw_orders permute n epochs' g' in
      (perm :: rest, g'')
  end.

(** The orders every [train] call of run [run] visits: those drawn
    from the generator seeded with the run index. *)
Definition run_orders `{RandomGen} (permute : bool) (n epochs run : nat)
  : list (list nat) :=
  fst (draw_orders permute n epochs (seed (Z.of_nat run))).

(** ** Evaluation *)

(** [comp = preds == y]. *)
Definition compare_preds (preds : list num) (yd : list nat) : list bool :=
  map2 (fun p d => neqb p (of_nat d)) preds yd.

(** An accuracy: a finite number between 0 and 1. *)
Definition is_accuracy (c : num) : Prop := exists r, c = Fin r /\ 0 <= r <= 1.

(** ** The rules, row by row *)

(** Row [i] of what each rule returns, from row [w] of the weights and
    the entry [yi] of the target. *)
Definition hebb_row (w x : vector) (yi eta : num) : vector :=
  map2 nadd w (map (nmul eta) (map (fun xj => nmul yi xj) x)).

Definition decay_row (w x : vector) (yi eta : num) : vector :=
  map2 nadd w (map (nmul eta) (map (fun a => nmul a yi) (map2 nsub x w))).

Definition ojas_row (w x : vector) (yi eta : num) : vector :=
  map2 nadd w
    (map (nmul eta)
       (map (fun a => nmul a yi) (map2 nsub x (map (fun a => nmul a yi) w)))).

(** A number between 0 and 1. *)
Definition in_01 (a : num) : Prop := exists r, a = Fin r /\ 0 <= r <= 1.

(** ** What the driver collects *)

(** Each of the three lists of a dictionary has [k] entries. *)
Definition each_length {A : Type} (k : nat) (d : per_rule (list A)) : Prop :=
  length (hebb d) = k /\ length (deca d) = k /\ length (ojas d) = k.

(** Every entry of the three lists satisfies [P]. *)
Definition each_of {A : Type} (P : A -> Prop) (d : per_rule (list A)) : Prop :=
  Forall P (hebb d) /\ Forall P (deca d) /\ Forall P (ojas d).

(** What holds of the dictionaries after [k] runs of [epochs] epochs. *)
Definition collected (k epochs : nat) (retNetworks : bool) (e : experiment) : Prop :=
  each_length k (accuracies e)
  /\ each_length k (wrongIndices e)
  /\ each_length k (valHistory e)
  /\ each_of is_accuracy (accuracies e)
  /\ each_of (fun h => length h = epochs /\ Forall is_accuracy h) (valHistory e)
  /\ match networks e with
     | None => retNetworks = false
     | Some nets => retNetworks = true /\ each_length k nets
     end.

(** ** Accuracy per label *)

(** Bin [d] of the edges [0, 1, ..., 10]: the value [d], and for the
    last bin also the right edge 10. *)
Definition in_bin (d a : nat) : bool :=
  (d <=? a)%nat && (if (d =? 9)%nat then (a <=? S d)%nat else (a <? S d)%nat).

(** The entries of [yd] at the positions where [comp] is false. *)
Fixpoint pick (yd : list nat) (comp : list bool) : list nat :=
  match yd, comp with
  | a :: yd', c :: comp' => if c then pick yd' comp' else a :: pick yd' comp'
  | _, _ => []
  end.

(** ** Layers and data for the examples *)

(** A one-input, one-neuron Hebbian layer as [Layer( 1, 1 )] builds it,
    and [k] copies of the sample [[1.0]] (also used as labels). *)
Definition unit_hebb : Layer := mkLayer (1%Z, 1%Z) linear r_hebb false [[Fin 0]].
Definition ones (k : nat) : matrix := repeat [Fin 1] k.

(** Two samples, [[1.0]] and [[2.0]], both labelled with the one class. *)
Definition two_samples : matrix := [[Fin 1]; [Fin 2]].

(** A three-neuron layer whose output on [[1.0]] is [[1, -1, 0]]: not
    all zero, with its single maximum at the true class 0. *)
Definition signed_layer : Layer :=
  mkLayer (3%Z, 1%Z) linear r_hebb false [[Fin 1]; [Fin (-1)]; [Fin 0]].

(** The one-neuron layer [Layer( 1, 1, activationFunction=softmax )]. *)
Definition softmax_layer : Layer := mkLayer (1%Z, 1%Z) softmax r_hebb false [[Fin 0]].

(** A one-input, one-neuron layer in the Oja configuration, holding the
    weight [w]. *)
Definition oja_unit (w : R) : Layer := mkLayer (1%Z, 1%Z) linear r_ojas true [[Fin w]].

(* ================================================================= *)
(** * Properties *)

(** ** Arithmetic of the float model *)

Ltac real_cases :=
  repeat match goal with
         | |- context [Req_dec_T ?a ?b] => destruct (Req_dec_T a b)
         | |- context [Rlt_dec ?a ?b] => destruct (Rlt_dec a b)
         | |- context [Rle_dec ?a ?b] => destruct (Rle_dec a b)
         end.

Ltac real_solve := real_cases; solve [reflexivity | lra | congruence | f_equal; lra].

Lemma nadd_comm (a b : num) : nadd a b = nadd b a.
Proof. destruct a, b; simpl; try reflexivity. f_equal; lra. Qed.

Lemma nadd_assoc (a b c : num) : nadd (nadd a b) c = nadd a (nadd b c).
Proof. destruct a, b, c; simpl; try reflexivity. f_equal; lra. Qed.

Lemma nmul_1_r (a : num) : nmul a (Fin 1) = a.
Proof.
  destruct a; simpl; unfold Rsign; real_solve.
Qed.

Lemma neqb_refl_fin (r : R) : neqb (Fin r) (Fin r) = true.
Proof. simpl. real_solve. Qed.

Lemma neqb_fin_false (a b : R) : a <> b -> neqb (Fin a) (Fin b) = false.
Proof. intros H. simpl. destruct (Req_dec_T a b); [contradiction | reflexivity]. Qed.

Lemma Rtrunc_IZR (z : Z) : Rtrunc (IZR z) = z.
Proof.
  unfold Rtrunc. destruct (Rle_dec 0 (IZR z)).
  - symmetry. apply Int_part_spec. lra.
  - rewrite <- opp_IZR.
    replace (Int_part (IZR (- z))) with (- z)%Z; [lia|].
    apply Int_part_spec. lra.
Qed.

Lemma Rtrunc_small (r : R) : 0 <= r < 1 -> Rtrunc r = 0%Z.
Proof.
  intros Hr. unfold Rtrunc. destruct (Rle_dec 0 r); [|lra].
  symmetry. apply Int_part_spec. simpl. lra.
Qed.

Lemma decayAfter_check (d : num) :
  nleb d (Fin 1) && nltb (Fin 0) d = true <-> in_unit_interval d.
Proof.
  unfold in_unit_interval, nleb. split.
  - destruct d; simpl; try discriminate.
    intros H. exists r. split; [reflexivity|].
    revert H. real_cases; simpl; try discriminate; intros _; lra.
  - intros [r [-> Hr]]. simpl. real_cases; simpl; try reflexivity; lra.
Qed.

(* ----------------------------------------------------------------- *)
(** ** Configuration checks *)

Section Configuration.

Context `{RG : RandomGen}.

(** C6.  A [train] call whose [decayAfter] lies outside (0, 1] (for
    instance 0 or 1.5) raises [AssertionError] before any learning step:
    the layer, the generator and [eta] are as they were passed in, no
    epoch was started and no sample was visited. *)
Theorem train_rejects_decayAfter_outside_unit_interval
    (self : Layer) (Xt yt X_val y_val : matrix) (epochs : nat) (eta : num)
    (permute : bool) (decay decayAfter : num) (g : rng) :
  ~ in_unit_interval decayAfter ->
  train self Xt yt X_val y_val epochs eta permute decay decayAfter g
  = (mkT self g eta [] [], Raise AssertionError).
Proof.
  intros Hout. unfold train.
  destruct (negb (length Xt =? length yt)%nat); [reflexivity|].
  destruct (negb (length X_val =? length y_val)%nat); [reflexivity|].
  destruct (nleb decayAfter (Fin 1) && nltb (Fin 0) decayAfter) eqn:Hchk.
  - apply decayAfter_check in Hchk. contradiction.
  - reflexivity.
Qed.

End Configuration.

(* ----------------------------------------------------------------- *)
(** ** Broadcasting on well-shaped arrays *)

Lemma mapM_pure {A B : Type} (f : A -> result B) (h : A -> B) (l : list A) :
  (forall a, In a l -> f a = Ok (h a)) -> mapM f l = Ok (map h l).
Proof.
  induction l as [|a l IH]; intros Hf; simpl; [reflexivity|].
  rewrite (Hf a (or_introl eq_refl)). simpl.
  rewrite IH by (intros b Hb; apply Hf; right; exact Hb).
  reflexivity.
Qed.

Lemma map2_combine {A B C : Type} (f : A -> B -> C) (u : list A) (v : list B) :
  map (fun ab => f (fst ab) (snd ab)) (combine u v) = map2 f u v.
Proof.
  revert v. induction u as [|a u IH]; intros [|b v]; simpl; try reflexivity.
  now rewrite IH.
Qed.

Lemma map2_length {A B C : Type} (f : A -> B -> C) (u : list A) (v : list B) :
  length u = length v -> length (map2 f u v) = length u.
Proof.
  revert v. induction u as [|a u IH]; intros [|b v]; simpl; intros H;
    try reflexivity; try discriminate.
  f_equal. apply IH. lia.
Qed.

Lemma map2_map_r {A B C D : Type} (f : A -> C -> D) (h : B -> C) (u : list A) (v : list B) :
  map2 f u (map h v) = map2 (fun a b => f a (h b)) u v.
Proof.
  revert v. induction u as [|a u IH]; intros [|b v]; simpl; try reflexivity.
  now rewrite IH.
Qed.

Lemma map2_In {A B C : Type} (f : A -> B -> C) (u : list A) (v : list B) (c : C) :
  In c (map2 f u v) -> exists a b, In a u /\ In b v /\ c = f a b.
Proof.
  revert v. induction u as [|a u IH]; intros [|b v]; simpl; try contradiction.
  intros [<- | Hin].
  - exists a, b. auto.
  - destruct (IH v Hin) as (a' & b' & Ha & Hb & ->). exists a', b'. auto.
Qed.

Lemma bcast_same {A B C : Type} (f : A -> B -> result C) (h : A -> B -> C)
    (u : list A) (v : list B) :
  length u = length v ->
  (forall a b, In a u -> In b v -> f a b = Ok (h a b)) ->
  bcast f u v = Ok (map2 h u v).
Proof.
  intros Hlen Hf. unfold bcast.
  rewrite (proj2 (Nat.eqb_eq _ _) Hlen).
  rewrite <- map2_combine. apply mapM_pure.
  intros [a b] Hin. simpl.
  apply Hf; [eapply in_combine_l | eapply in_combine_r]; exact Hin.
Qed.

Lemma bcast_one_r {A B C : Type} (f : A -> B -> result C) (h : A -> B -> C)
    (u : list A) (b : B) :
  (forall a, In a u -> f a b = Ok (h a b)) ->
  bcast f u [b] = Ok (map (fun a => h a b) u).
Proof.
  intros Hf. unfold bcast.
  destruct u as [|a [|a' u]]; simpl.
  - reflexivity.
  - rewrite Hf by (left; reflexivity). reflexivity.
  - rewrite Hf by (left; reflexivity). simpl.
    rewrite Hf by (right; left; reflexivity). simpl.
    rewrite (mapM_pure (fun a0 => f a0 b) (fun a0 => h a0 b))
      by (intros a0 Ha0; apply Hf; right; right; exact Ha0).
    reflexivity.
Qed.

Lemma bcast_one_l {A B C : Type} (f : A -> B -> result C) (h : A -> B -> C)
    (a : A) (v : list B) :
  (forall b, In b v -> f a b = Ok (h a b)) ->
  bcast f [a] v = Ok (map (h a) v).
Proof.
  intros Hf. unfold bcast.
  destruct v as [|b [|b' v]]; simpl.
  - reflexivity.
  - rewrite Hf by (left; reflexivity). reflexivity.
  - rewrite Hf by (left; reflexivity). simpl.
    rewrite Hf by (right; left; reflexivity). simpl.
    rewrite (mapM_pure (f a) (h a))
      by (intros b0 Hb0; apply Hf; right; right; exact Hb0).
    reflexivity.
Qed.

Lemma bvec_same (f : num -> num -> num) (u v : vector) :
  length u = length v -> bvec f u v = Ok (map2 f u v).
Proof. intros H. apply bcast_same; auto. Qed.

Lemma bvec_one_r (f : num -> num -> num) (u : vector) (b : num) :
  bvec f u [b] = Ok (map (fun a => f a b) u).
Proof. apply (bcast_one_r (fun a b => Ok (f a b)) f). auto. Qed.

Section Shapes.

Variables (m n : nat).

Lemma has_shape_row {W : matrix} {row : vector} :
  has_shape m n W -> In row W -> length row = n.
Proof. intros [_ HW] Hin. rewrite Forall_forall in HW. auto. Qed.

(** Same-shape operands: the operator acts entry by entry. *)
Lemma bmat_same (f : num -> num -> num) (A B : matrix) :
  has_shape m n A -> has_shape m n B ->
  bmat f A B = Ok (map2 (map2 f) A B).
Proof.
  intros HA HB. apply bcast_same.
  - destruct HA, HB. congruence.
  - intros a b Ha Hb. apply bvec_same.
    rewrite (has_shape_row HA Ha), (has_shape_row HB Hb). reflexivity.
Qed.

(** A matrix against a column [c[ :, None ]]: row [i] meets [c[i]]. *)
Lemma bmat_column (f : num -> num -> num) (A : matrix) (c : vector) :
  has_shape m n A -> length c = m ->
  bmat f A (column c) = Ok (map2 (fun row ci => map (fun a => f a ci) row) A c).
Proof.
  intros HA Hc. unfold bmat, column.
  rewrite (bcast_same (bvec f) (fun row r1 => map (fun a => f a (hd NaN r1)) row)).
  - rewrite map2_map_r. reflexivity.
  - rewrite length_map. destruct HA. congruence.
  - intros a b _ Hb. apply in_map_iff in Hb. destruct Hb as [ci [<- _]].
    apply bvec_one_r.
Qed.

(** A 1-D array against a matrix: the array meets every row. *)
Lemma bmat_row_l (f : num -> num -> num) (x : vector) (W : matrix) :
  has_shape m n W -> length x = n ->
  bmat f [x] W = Ok (map (map2 f x) W).
Proof.
  intros HW Hx. unfold bmat.
  destruct W as [|w [|w' W]].
  - reflexivity.
  - unfold bcast. simpl. rewrite bvec_same; [reflexivity|].
    rewrite (has_shape_row HW (or_introl eq_refl)). exact Hx.
  - apply (bcast_one_l (bvec f) (map2 f)).
    intros b Hb. apply bvec_same. rewrite (has_shape_row HW Hb). exact Hx.
Qed.

Lemma has_shape_map2 (f : vector -> vector -> vector) (A B : matrix) :
  has_shape m n A -> has_shape m n B ->
  (forall a b, length a = n -> length b = n -> length (f a b) = n) ->
  has_shape m n (map2 f A B).
Proof.
  intros HA HB Hf. split.
  - rewrite map2_length; destruct HA, HB; congruence.
  - apply Forall_forall. intros c Hc.
    apply map2_In in Hc. destruct Hc as (a & b & Ha & Hb & ->).
    apply Hf; [exact (has_shape_row HA Ha) | exact (has_shape_row HB Hb)].
Qed.

Lemma has_shape_map (f : vector -> vector) (A : matrix) :
  has_shape m n A ->
  (forall a, length a = n -> length (f a) = n) ->
  has_shape m n (map f A).
Proof.
  intros HA Hf. split.
  - rewrite length_map. apply HA.
  - apply Forall_forall. intros c Hc.
    apply in_map_iff in Hc. destruct Hc as (a & <- & Ha).
    apply Hf. exact (has_shape_row HA Ha).
Qed.

Lemma has_shape_map2_col (f : vector -> num -> vector) (A : matrix) (c : vector) :
  has_shape m n A -> length c = m ->
  (forall a ci, length a = n -> length (f a ci) = n) ->
  has_shape m n (map2 f A c).
Proof.
  intros HA Hc Hf. split.
  - rewrite map2_length; destruct HA; congruence.
  - apply Forall_forall. intros r Hr.
    apply map2_In in Hr. destruct Hr as (a & ci & Ha & _ & ->).
    apply Hf. exact (has_shape_row HA Ha).
Qed.

Lemma has_shape_outer (y x : vector) :
  length y = m -> length x = n -> has_shape m n (np_outer y x).
Proof.
  intros Hy Hx. split.
  - unfold np_outer. rewrite length_map. exact Hy.
  - apply Forall_forall. intros r Hr.
    apply in_map_iff in Hr. destruct Hr as (yi & <- & _).
    rewrite length_map. exact Hx.
Qed.

Lemma has_shape_scale (eta : num) (M : matrix) :
  has_shape m n M -> has_shape m n (scale eta M).
Proof. intros HM. apply has_shape_map; [exact HM|]. intros a Ha. now rewrite length_map. Qed.

Lemma has_shape_nan_to_zero (M : matrix) :
  has_shape m n M -> has_shape m n (nan_to_zero M).
Proof. intros HM. apply has_shape_map; [exact HM|]. intros a Ha. now rewrite length_map. Qed.

End Shapes.

(* ----------------------------------------------------------------- *)
(** ** The rules and [learn] on well-shaped operands *)

Lemma map2_map_self {A B C : Type} (f : A -> B -> C) (h : A -> B) (l : list A) :
  map2 f l (map h l) = map (fun a => f a (h a)) l.
Proof. induction l as [|a l IH]; simpl; [reflexivity | now rewrite IH]. Qed.

Lemma normalizeRows_eq (x : matrix) :
  normalizeRows x = Ok (map normalized_row x).
Proof.
  unfold normalizeRows, bmat, column, np_linalg_norm_axis1.
  rewrite (bcast_same (bvec ndiv) (fun row r1 => map (fun a => ndiv a (hd NaN r1)) row)).
  - rewrite map2_map_r, map2_map_self. reflexivity.
  - now rewrite !length_map.
  - intros a b _ Hb. apply in_map_iff in Hb. destruct Hb as [ci [<- _]].
    apply bvec_one_r.
Qed.

Section RuleShapes.

Variables (m n : nat) (W : matrix) (x y : vector) (eta : num).
Hypothesis HW : has_shape m n W.
Hypothesis Hx : length x = n.
Hypothesis Hy : length y = m.

Lemma has_shape_times_column (M : matrix) :
  has_shape m n M -> has_shape m n (times_column M y).
Proof.
  intros HM. apply has_shape_map2_col; auto.
  intros a ci Ha. now rewrite length_map.
Qed.

Lemma has_shape_x_minus (M : matrix) :
  has_shape m n M -> has_shape m n (map (map2 nsub x) M).
Proof.
  intros HM. apply has_shape_map; auto.
  intros a Ha. rewrite map2_length; congruence.
Qed.

Lemma has_shape_add (A B : matrix) :
  has_shape m n A -> has_shape m n B -> has_shape m n (map2 (map2 nadd) A B).
Proof.
  intros HA HB. apply has_shape_map2; auto.
  intros a b Ha Hb. rewrite map2_length; congruence.
Qed.

Lemma r_hebb_eq : r_hebb W x y eta = Ok (hebb_update W x y eta).
Proof.
  unfold r_hebb, hebb_update.
  apply (bmat_same m n); auto using has_shape_scale, has_shape_outer.
Qed.

Lemma r_decay_eq : r_decay W x y eta = Ok (decay_update W x y eta).
Proof.
  unfold r_decay, decay_update.
  rewrite (bmat_row_l m n nsub x _ HW Hx). simpl.
  rewrite (bmat_column m n nmul _ y (has_shape_x_minus _ HW) Hy). simpl.
  apply (bmat_same m n); auto.
  apply has_shape_scale, has_shape_times_column, has_shape_x_minus, HW.
Qed.

Lemma r_ojas_eq : r_ojas W x y eta = Ok (ojas_update W x y eta).
Proof.
  unfold r_ojas, ojas_update.
  rewrite (bmat_column m n nmul _ y HW Hy). simpl.
  fold (times_column W y).
  rewrite (bmat_row_l m n nsub x _ (has_shape_times_column _ HW) Hx). simpl.
  rewrite (bmat_column m n nmul _ y (has_shape_x_minus _ (has_shape_times_column _ HW)) Hy). simpl.
  apply (bmat_same m n); auto.
  apply has_shape_scale, has_shape_times_column, has_shape_x_minus,
    has_shape_times_column, HW.
Qed.

Lemma has_shape_hebb_update : has_shape m n (hebb_update W x y eta).
Proof. apply has_shape_add; auto using has_shape_scale, has_shape_outer. Qed.

Lemma has_shape_decay_update : has_shape m n (decay_update W x y eta).
Proof.
  apply has_shape_add; auto.
  apply has_shape_scale, has_shape_times_column, has_shape_x_minus, HW.
Qed.

Lemma has_shape_ojas_update : has_shape m n (ojas_update W x y eta).
Proof.
  apply has_shape_add; auto.
  apply has_shape_scale, has_shape_times_column, has_shape_x_minus,
    has_shape_times_column, HW.
Qed.

(** Each of the three rules returns, and returns the shape it was given. *)
Lemma rule_keeps_shape (r : rule) :
  In r [r_hebb; r_decay; r_ojas] ->
  exists W', r W x y eta = Ok W' /\ has_shape m n W'.
Proof.
  intros [<- | [<- | [<- | []]]].
  - exists (hebb_update W x y eta). split; [apply r_hebb_eq | apply has_shape_hebb_update].
  - exists (decay_update W x y eta). split; [apply r_decay_eq | apply has_shape_decay_update].
  - exists (ojas_update W x y eta). split; [apply r_ojas_eq | apply has_shape_ojas_update].
Qed.

End RuleShapes.

Lemma has_shape_normalized (m n : nat) (M : matrix) :
  has_shape m n M -> has_shape m n (map normalized_row M).
Proof.
  intros HM. apply has_shape_map; [exact HM|].
  intros a Ha. unfold normalized_row. now rewrite length_map.
Qed.

Lemma learn_eq (self : Layer) (x y : vector) (eta : num) (W' : matrix) :
  learning self (weights self) x y eta = Ok W' ->
  learn self x y eta = (after_rule self W', Ok tt).
Proof.
  intros HW'. unfold learn, after_rule. rewrite HW'. simpl.
  destruct (normalize self); [|reflexivity].
  rewrite normalizeRows_eq. reflexivity.
Qed.

Lemma learn_keeps_shape (m n : nat) (self : Layer) (x y : vector) (eta : num) :
  has_shape m n (weights self) ->
  In (learning self) [r_hebb; r_decay; r_ojas] ->
  length x = n -> length y = m ->
  exists self',
    learn self x y eta = (self', Ok tt)
    /\ has_shape m n (weights self')
    /\ learning self' = learning self
    /\ normalize self' = normalize self
    /\ aF self' = aF self.
Proof.
  intros HW Hr Hx Hy.
  destruct (@rule_keeps_shape m n (weights self) x y eta HW Hx Hy _ Hr)
    as (W' & HW' & Hshape).
  exists (after_rule self W'). split; [apply learn_eq, HW'|].
  unfold after_rule. destruct (normalize self) eqn:Hn; simpl; rewrite ?Hn; auto.
  split; auto. apply has_shape_nan_to_zero, has_shape_normalized, Hshape.
Qed.

(* ----------------------------------------------------------------- *)
(** ** Construction and the shape of the weights *)

Lemma has_shape_zeros (m n : nat) : has_shape m n (repeat (repeat (Fin 0) n) m).
Proof.
  split; [apply repeat_length|].
  apply Forall_forall. intros row Hrow.
  apply repeat_spec in Hrow. subst row. apply repeat_length.
Qed.

Lemma learn_all_keeps_shape (m n : nat) (calls : list (vector * vector * num)) :
  forall self,
    has_shape m n (weights self) ->
    In (learning self) [r_hebb; r_decay; r_ojas] ->
    Forall (fun c => length (fst (fst c)) = n /\ length (snd (fst c)) = m) calls ->
    exists self',
      learn_all self calls = (self', Ok tt) /\ has_shape m n (weights self').
Proof.
  induction calls as [|[[x y] eta] calls IH]; intros self HW Hr Hc; simpl.
  - exists self. auto.
  - inversion Hc as [|c cs Hhd Hrest]; subst.
    destruct Hhd as [Hx Hy]. simpl in Hx, Hy.
    destruct (@learn_keeps_shape m n self x y eta HW Hr Hx Hy)
      as (self1 & -> & HW1 & Hr1 & _).
    apply IH; [exact HW1 | rewrite Hr1; exact Hr | exact Hrest].
Qed.

Section Construction.

Context `{RG : RandomGen}.

Lemma Layer_init_ok (nInputs nNeurons : Z) (activationFunction : vector -> result vector)
    (lr : rule) (random nrm : bool) (g : rng) :
  (0 <= nInputs)%Z -> (0 <= nNeurons)%Z ->
  exists self,
    fst (Layer_init nInputs nNeurons activationFunction lr random nrm g) = Ok self
    /\ has_shape (Z.to_nat nNeurons) (Z.to_nat nInputs) (weights self)
    /\ learning self = lr /\ normalize self = nrm /\ aF self = activationFunction
    /\ layerShape self = (nNeurons, nInputs).
Proof.
  intros Hi Hn. unfold Layer_init, np_random_uniform, np_zeros.
  assert (Hneg : ((nNeurons <? 0) || (nInputs <? 0))%Z = false).
  { apply orb_false_iff. split; apply Z.ltb_ge; assumption. }
  rewrite Hneg. destruct random.
  - pose proof (uniform_shape g (Z.to_nat nNeurons) (Z.to_nat nInputs)) as HU.
    destruct (uniform g (Z.to_nat nNeurons) (Z.to_nat nInputs)) as [M g'].
    simpl in *. rewrite normalizeRows_eq. simpl.
    eexists. split; [reflexivity|]. simpl.
    split; [apply (has_shape_normalized _ _ _ HU) | repeat split; reflexivity].
  - simpl. eexists. split; [reflexivity|]. simpl.
    split; [apply has_shape_zeros | repeat split; reflexivity].
Qed.

(** C5.  A layer constructed with positive [nInputs] and [nNeurons] and
    one of the three rules is constructed without error, and after any
    finite sequence of [learn] calls whose inputs have the declared
    lengths every call has returned and [getWeights()] has the shape
    [(nNeurons, nInputs)]. *)
Theorem getWeights_shape_invariant
    (nInputs nNeurons : Z) (activationFunction : vector -> result vector)
    (lr : rule) (random nrm : bool) (g : rng) :
  (0 < nInputs)%Z -> (0 < nNeurons)%Z ->
  In lr [r_hebb; r_decay; r_ojas] ->
  exists self,
    fst (Layer_init nInputs nNeurons activationFunction lr random nrm g) = Ok self
    /\ forall calls : list (vector * vector * num),
        Forall (fun c => length (fst (fst c)) = Z.to_nat nInputs
                         /\ length (snd (fst c)) = Z.to_nat nNeurons) calls ->
        exists self',
          learn_all self calls = (self', Ok tt)
          /\ has_shape (Z.to_nat nNeurons) (Z.to_nat nInputs) (getWeights self').
Proof.
  intros Hi Hn Hlr.
  destruct (Layer_init_ok nInputs nNeurons activationFunction lr random nrm g)
    as (self & Hinit & HW & Hr & _); [lia | lia |].
  exists self. split; [exact Hinit|].
  intros calls Hcalls. unfold getWeights.
  apply learn_all_keeps_shape; [exact HW | rewrite Hr; exact Hlr | exact Hcalls].
Qed.

(** C7, as the code has it.  Construction fails only on a negative
    dimension: numpy's allocation raises [ValueError], inside the
    constructor and so before any training.  With both dimensions
    non-negative, zero included, the constructor returns a layer whose
    weight matrix has [nNeurons] rows of [nInputs] entries. *)
Theorem Layer_init_rejects_only_negative_dimensions
    (nInputs nNeurons : Z) (activationFunction : vector -> result vector)
    (lr : rule) (random nrm : bool) (g : rng) :
  ((nInputs < 0 \/ nNeurons < 0)%Z ->
     fst (Layer_init nInputs nNeurons activationFunction lr random nrm g)
     = Raise ValueError)
  /\ ((0 <= nInputs /\ 0 <= nNeurons)%Z ->
     exists self,
       fst (Layer_init nInputs nNeurons activationFunction lr random nrm g) = Ok self
       /\ has_shape (Z.to_nat nNeurons) (Z.to_nat nInputs) (weights self)).
Proof.
  split.
  - intros Hneg. unfold Layer_init, np_random_uniform, np_zeros.
    assert (H : ((nNeurons <? 0) || (nInputs <? 0))%Z = true).
    { apply orb_true_iff. destruct Hneg; [right | left]; apply Z.ltb_lt; assumption. }
    rewrite H. destruct random; reflexivity.
  - intros [Hi Hn].
    destruct (Layer_init_ok nInputs nNeurons activationFunction lr random nrm g Hi Hn)
      as (self & Hinit & HW & _).
    exists self. auto.
Qed.

End Construction.

(** C7 as stated fails: [Layer( 0, 0 )] is constructed without any
    error, here with the default activation and rule. *)
Lemma Layer_init_accepts_zero_dimensions :
  Layer_init 0 0 linear r_hebb false false (seed 0)
  = (Ok (mkLayer (0%Z, 0%Z) linear r_hebb false []), seed 0).
Proof. reflexivity. Qed.

(* ----------------------------------------------------------------- *)
(** ** When evaluation returns *)

Lemma mapM_returns {A B : Type} (f : A -> result B) (l : list A) :
  (forall a, In a l -> exists b, f a = Ok b) ->
  exists l', mapM f l = Ok l' /\ length l' = length l.
Proof.
  induction l as [|a l IH]; intros Hf; simpl.
  - exists []. auto.
  - destruct (Hf a (or_introl eq_refl)) as [b ->]. simpl.
    destruct IH as (l' & -> & Hlen); [intros c Hc; apply Hf; right; exact Hc|].
    simpl. exists (b :: l'). simpl. auto.
Qed.

Lemma mapM_length {A B : Type} (f : A -> result B) (l : list A) (l' : list B) :
  mapM f l = Ok l' -> length l' = length l.
Proof.
  revert l'. induction l as [|a l IH]; intros l' H; simpl in H.
  - inversion H. reflexivity.
  - destruct (f a) as [b|e]; simpl in H; [|discriminate].
    destruct (mapM f l) as [bs|e]; simpl in H; [|discriminate].
    inversion H. simpl. f_equal. apply IH. reflexivity.
Qed.

Lemma np_dot_eq (m n : nat) (W : matrix) (x : vector) :
  has_shape m n W -> length x = n ->
  np_dot W x = Ok (map (fun row => np_sum (map2 nmul row x)) W).
Proof.
  intros HW Hx. unfold np_dot. apply mapM_pure.
  intros row Hrow. rewrite (has_shape_row m n HW Hrow), Hx, Nat.eqb_refl.
  reflexivity.
Qed.

Lemma np_argmax_returns (v : vector) :
  v <> [] -> exists k, np_argmax v = Ok k.
Proof.
  destruct v as [|a v]; [congruence|]. intros _. simpl.
  destruct (isnan a); eexists; reflexivity.
Qed.

Lemma softmax_returns (v : vector) :
  v <> [] -> exists s, softmax v = Ok s /\ s <> [].
Proof.
  destruct v as [|a v]; [congruence|]. intros _.
  unfold softmax. simpl. eexists. split; [reflexivity | discriminate].
Qed.

(** A prediction is made whenever [compute] returns: an empty output
    sums to zero, any other has a softmax and an argmax. *)
Lemma predict_returns (cmp : vector -> result vector) (x : vector) :
  (exists v, cmp x = Ok v) -> exists p, predict cmp x = Ok p.
Proof.
  intros [v Hv]. unfold predict. rewrite Hv. simpl.
  destruct (neqb (np_sum v) (Fin 0)) eqn:Hsum; [eexists; reflexivity|].
  assert (Hne : v <> []).
  { intros ->. change (neqb (Fin 0) (Fin 0) = false) in Hsum.
    rewrite neqb_refl_fin in Hsum. discriminate. }
  destruct (softmax_returns v Hne) as (s & -> & Hs). simpl.
  destruct (np_argmax_returns s Hs) as [k ->]. simpl.
  eexists; reflexivity.
Qed.

Lemma asDigits_returns (y : matrix) :
  Forall (fun row => row <> []) y ->
  exists yd, asDigits y = Ok yd /\ length yd = length y.
Proof.
  intros Hy. apply mapM_returns. intros row Hrow.
  rewrite Forall_forall in Hy. apply np_argmax_returns. auto.
Qed.

Lemma runTest_returns (X y : matrix) (cmp : vector -> result vector) :
  length X = length y -> y <> [] ->
  Forall (fun row => row <> []) y ->
  (forall x, In x X -> exists v, cmp x = Ok v) ->
  exists correct indexWrong, runTest X y cmp = Ok (correct, indexWrong).
Proof.
  intros Hlen Hne Hy Hc. unfold runTest.
  rewrite (proj2 (Nat.eqb_eq _ _) Hlen). simpl.
  destruct (asDigits_returns y Hy) as (yd & -> & Hyd). simpl.
  destruct (mapM_returns (predict cmp) X) as (preds & -> & _).
  { intros x Hx. apply predict_returns. auto. }
  simpl. destruct (length yd =? 0)%nat eqn:H0.
  - apply Nat.eqb_eq in H0. destruct y; [congruence | simpl in *; lia].
  - eexists. eexists. reflexivity.
Qed.

Lemma compute_returns (m n : nat) (self : Layer) (x : vector) :
  has_shape m n (weights self) -> length x = n ->
  (forall v, length v = m -> exists v', aF self v = Ok v') ->
  exists v, compute self x = Ok v.
Proof.
  intros HW Hx Haf. unfold compute.
  rewrite (np_dot_eq m n _ _ HW Hx). simpl.
  apply Haf. rewrite length_map. apply HW.
Qed.

(* ----------------------------------------------------------------- *)
(** ** The training loop on well-shaped data *)

Lemma has_shape_nth (k m : nat) (X : matrix) (idx : nat) :
  has_shape k m X -> (idx < k)%nat ->
  exists x, nth_error X idx = Some x /\ length x = m.
Proof.
  intros [Hlen HX] Hidx.
  destruct (nth_error X idx) as [x|] eqn:Hnth.
  - exists x. split; [reflexivity|].
    rewrite Forall_forall in HX. apply HX. eapply nth_error_In. exact Hnth.
  - apply nth_error_None in Hnth. lia.
Qed.

Section TrainingLoop.

Context `{RG : RandomGen}.

Variables (m n : nat) (Xt yt X_val y_val : matrix) (idxDec : Z) (decay : num).
Hypothesis HXt : has_shape (length Xt) n Xt.
Hypothesis Hyt : has_shape (length Xt) m yt.

Lemma sample_loop_returns (perm : list nat) :
  forall (i : nat) (self : Layer) (eta : num),
    has_shape m n (weights self) ->
    In (learning self) [r_hebb; r_decay; r_ojas] ->
    (forall idx, In idx perm -> (idx < length Xt)%nat) ->
    idxDec <> 0%Z \/ perm = [] ->
    exists self',
      sample_loop Xt yt idxDec decay perm i self eta
      = (self', eta_schedule idxDec decay (length perm) i eta, Ok tt)
      /\ same_config m n self self'.
Proof.
  induction perm as [|idx perm IH]; intros i self eta HW Hr Hidx Hdec;
    cbn [sample_loop length eta_schedule].
  - exists self. unfold same_config. auto.
  - destruct Hdec as [Hdec | Hnil]; [|discriminate].
    destruct (has_shape_nth _ _ _ idx HXt (Hidx idx (or_introl eq_refl)))
      as (x & -> & Hx).
    destruct (has_shape_nth _ _ _ idx Hyt (Hidx idx (or_introl eq_refl)))
      as (y & -> & Hy).
    destruct (learn_keeps_shape m n self x y eta HW Hr Hx Hy)
      as (self1 & -> & HW1 & Hr1 & Hn1 & Ha1).
    rewrite (proj2 (Z.eqb_neq _ _) Hdec).
    destruct (IH (S i) self1
                (if (Z.of_nat (S i) mod idxDec =? 0)%Z then nmul eta decay else eta)
                HW1) as (self' & -> & HW' & Hr' & Hn' & Ha').
    + rewrite Hr1. exact Hr.
    + intros j Hj. apply Hidx. right. exact Hj.
    + left. exact Hdec.
    + exists self'. split; [reflexivity|].
      unfold same_config. split; [exact HW'|]. repeat split; congruence.
Qed.

Hypothesis HXv : has_shape (length X_val) n X_val.
Hypothesis Hyv : has_shape (length X_val) m y_val.
Hypothesis Hm : (0 < m)%nat.
Hypothesis Hval : X_val <> [].

Lemma validation_returns (self : Layer) :
  has_shape m n (weights self) ->
  (forall v, length v = m -> exists v', aF self v = Ok v') ->
  exists correct indexWrong,
    runTest X_val y_val (compute self) = Ok (correct, indexWrong).
Proof.
  intros HW Haf. apply runTest_returns.
  - destruct Hyv. congruence.
  - destruct Hyv as [Hl _]. destruct y_val; [|discriminate].
    destruct X_val; [congruence | discriminate].
  - destruct Hyv as [_ Hrows]. eapply Forall_impl; [|exact Hrows].
    intros row Hrow ->. simpl in Hrow. lia.
  - intros x Hx. apply (compute_returns m n); auto.
    apply (has_shape_row _ _ HXv Hx).
Qed.

Lemma epoch_order_perm (permute : bool) (g : rng) :
  Permutation (fst (epoch_order Xt permute g)) (seq 0 (length Xt)).
Proof.
  unfold epoch_order. destruct permute; [apply permutation_perm | apply Permutation_refl].
Qed.

Lemma epoch_order_bound (permute : bool) (g : rng) (idx : nat) :
  In idx (fst (epoch_order Xt permute g)) -> (idx < length Xt)%nat.
Proof.
  intros Hin.
  apply (Permutation_in _ (epoch_order_perm permute g)) in Hin.
  apply in_seq in Hin. simpl in Hin. apply Hin.
Qed.

Lemma epoch_order_length (permute : bool) (g : rng) :
  length (fst (epoch_order Xt permute g)) = length Xt.
Proof.
  rewrite (Permutation_length (epoch_order_perm permute g)). apply length_seq.
Qed.

Lemma epoch_loop_returns (permute : bool) (epochs : nat) :
  forall st : tstate,
    has_shape m n (weights (t_self st)) ->
    In (learning (t_self st)) [r_hebb; r_decay; r_ojas] ->
    (forall v, length v = m -> exists v', aF (t_self st) v = Ok v') ->
    idxDec <> 0%Z \/ Xt = [] ->
    exists st',
      epoch_loop Xt yt X_val y_val permute idxDec decay epochs st = (st', Ok tt)
      /\ same_config m n (t_self st) (t_self st')
      /\ t_eta st' = Nat.iter epochs (epoch_eta idxDec decay (length Xt)) (t_eta st)
      /\ length (t_hist st') = (length (t_hist st) + epochs)%nat
      /\ length (t_orders st') = (length (t_orders st) + epochs)%nat.
Proof.
  induction epochs as [|epochs IH]; intros st HW Hr Haf Hdec.
  - exists st. simpl. unfold same_config.
    split; [reflexivity|]. split; [split; [exact HW | auto]|].
    repeat split; lia.
  - cbn [epoch_loop].
    fold (epoch_order Xt permute (t_rng st)).
    pose proof (epoch_order_bound permute (t_rng st)) as Hb.
    pose proof (epoch_order_length permute (t_rng st)) as Hl.
    destruct (epoch_order Xt permute (t_rng st)) as [perm g']. simpl in Hb, Hl.
    destruct (sample_loop_returns perm 0 (t_self st) (t_eta st) HW Hr Hb)
      as (self' & -> & HW' & Hr' & Hn' & Ha').
    { destruct Hdec as [Hdec | ->]; [left; exact Hdec|].
      right. destruct perm; [reflexivity | discriminate]. }
    destruct (validation_returns self' HW') as (correct & iw & ->).
    { rewrite Ha'. exact Haf. }
    destruct (IH (mkT self' g' (nmul (eta_schedule idxDec decay (length perm) 0 (t_eta st)) decay)
                      (t_hist st ++ [correct]) (t_orders st ++ [perm])))
      as (st' & -> & (HW2 & Hr2 & Hn2 & Ha2) & Heta & Hh & Ho); simpl.
    + exact HW'.
    + rewrite Hr'. exact Hr.
    + rewrite Ha'. exact Haf.
    + exact Hdec.
    + exists st'. split; [reflexivity|].
      simpl in HW2, Hr2, Hn2, Ha2.
      split; [unfold same_config; split; [exact HW2|]; repeat split; congruence|].
      simpl in Heta, Hh, Ho. rewrite length_app in Hh, Ho. simpl in Hh, Ho.
      split; [|split; lia].
      rewrite Heta, Hl. symmetry.
      exact (Nat.iter_succ_r epochs _ (epoch_eta idxDec decay (length Xt)) (t_eta st)).
Qed.

End TrainingLoop.

Section Training.

Context `{RG : RandomGen}.

(** A sample loop that ran to its end changed [eta] by the schedule,
    whatever it learned. *)
Lemma sample_loop_eta (Xt yt : matrix) (idxDec : Z) (decay : num) (perm : list nat) :
  forall (i : nat) (self self' : Layer) (eta eta' : num),
    sample_loop Xt yt idxDec decay perm i self eta = (self', eta', Ok tt) ->
    eta' = eta_schedule idxDec decay (length perm) i eta.
Proof.
  induction perm as [|idx perm IH]; intros i self self' eta eta';
    cbn [sample_loop length eta_schedule]; intros H.
  - inversion H. reflexivity.
  - destruct (nth_error Xt idx) as [x|]; [|discriminate].
    destruct (nth_error yt idx) as [y|]; [|discriminate].
    destruct (learn self x y eta) as [self1 [[]|e]]; [|discriminate].
    destruct (idxDec =? 0)%Z; [discriminate|].
    eapply IH. exact H.
Qed.

(** The checks at the head of [train] pass and [idxDec] is computed. *)
Lemma train_enter (self : Layer) (Xt yt X_val y_val : matrix) (epochs : nat)
    (eta : num) (permute : bool) (decay : num) (r : R) (g : rng) :
  length Xt = length yt -> length X_val = length y_val -> 0 < r <= 1 ->
  train self Xt yt X_val y_val epochs eta permute decay (Fin r) g
  = let '(st, res) :=
      epoch_loop Xt yt X_val y_val permute (Rtrunc (INR (length Xt) * r)) decay epochs
        (mkT self g eta [] []) in
    (st, match res with Ok _ => Ok (t_hist st) | Raise e => Raise e end).
Proof.
  intros Ht Hv Hr. unfold train.
  rewrite (proj2 (Nat.eqb_eq _ _) Ht), (proj2 (Nat.eqb_eq _ _) Hv). simpl negb at 1 2.
  cbv iota.
  rewrite (proj2 (decayAfter_check (Fin r))) by (exists r; auto).
  reflexivity.
Qed.

(** On data that fits the layer, with a non-zero [idxDec], [train]
    returns the history, one entry per epoch. *)
Lemma train_returns (m n : nat) (self : Layer) (Xt yt X_val y_val : matrix)
    (epochs : nat) (eta : num) (permute : bool) (decay : num) (r : R) (g : rng) :
  trainable m n self Xt yt X_val y_val -> 0 < r <= 1 ->
  Rtrunc (INR (length Xt) * r) <> 0%Z \/ Xt = [] ->
  exists st,
    train self Xt yt X_val y_val epochs eta permute decay (Fin r) g = (st, Ok (t_hist st))
    /\ same_config m n self (t_self st)
    /\ t_eta st
       = Nat.iter epochs (epoch_eta (Rtrunc (INR (length Xt) * r)) decay (length Xt)) eta
    /\ length (t_hist st) = epochs
    /\ length (t_orders st) = epochs.
Proof.
  intros [HW Hr Haf HXt Hyt HXv Hyv Hm Hval] Hr01 Hdec.
  rewrite train_enter; [| destruct Hyt; congruence | destruct Hyv; congruence | exact Hr01].
  destruct (epoch_loop_returns m n Xt yt X_val y_val (Rtrunc (INR (length Xt) * r)) decay
              HXt Hyt HXv Hyv Hm Hval permute epochs (mkT self g eta [] []) HW Hr Haf Hdec)
    as (st & -> & Hcfg & Heta & Hh & Ho).
  exists st. auto.
Qed.

End Training.

(* ----------------------------------------------------------------- *)
(** ** The decay schedule *)

Lemma has_shape_ones (k : nat) : has_shape k 1 (ones k).
Proof.
  split; [apply repeat_length|].
  apply Forall_forall. intros row Hrow. apply repeat_spec in Hrow. now subst.
Qed.

Lemma linear_returns (m : nat) (v : vector) : length v = m -> exists v', linear v = Ok v'.
Proof. intros _. exists v. reflexivity. Qed.

Lemma trainable_ones (self : Layer) (k : nat) :
  has_shape 1 1 (weights self) ->
  In (learning self) [r_hebb; r_decay; r_ojas] ->
  aF self = linear ->
  trainable 1 1 self (ones k) (ones k) (ones 1) (ones 1).
Proof.
  intros HW Hr Haf.
  constructor; try exact HW; try exact Hr;
    try (unfold ones at 1; rewrite repeat_length; apply has_shape_ones).
  - rewrite Haf. apply linear_returns.
  - lia.
  - discriminate.
Qed.

Lemma has_shape_unit : has_shape 1 1 [[Fin 0]].
Proof. split; [reflexivity | repeat constructor]. Qed.

Lemma Rtrunc_ten_halves : Rtrunc (INR 10 * (1 / 2)) = 5%Z.
Proof.
  replace (INR 10 * (1 / 2)) with (IZR 5) by (simpl; lra).
  apply Rtrunc_IZR.
Qed.

Lemma epoch_eta_ten_halves :
  epoch_eta 5 (Fin (1 / 2)) 10 (Fin 1) = Fin (1 / 8).
Proof. unfold epoch_eta. simpl. f_equal. lra. Qed.

Section DecaySchedule.

Context `{RG : RandomGen}.

Lemma train_ten_samples_eta (m n : nat) (self : Layer) (Xt yt X_val y_val : matrix)
    (permute : bool) (g : rng) :
  trainable m n self Xt yt X_val y_val -> length Xt = 10%nat ->
  exists st hist,
    train self Xt yt X_val y_val 1 (Fin 1) permute (Fin (1 / 2)) (Fin (1 / 2)) g
    = (st, Ok hist)
    /\ t_eta st = Fin (1 / 8).
Proof.
  intros Htr Hlen.
  destruct (train_returns m n self Xt yt X_val y_val 1 (Fin 1) permute (Fin (1 / 2))
              (1 / 2) g Htr) as (st & Htrain & _ & Heta & _).
  - lra.
  - left. rewrite Hlen, Rtrunc_ten_halves. discriminate.
  - exists st, (t_hist st). split; [exact Htrain|].
    rewrite Heta, Hlen, Rtrunc_ten_halves. apply epoch_eta_ten_halves.
Qed.

(** C1, as the code has it.  With [decayAfter = 0.5], [decay = 0.5],
    [eta = 1.0], ten training samples and one epoch, [train] returns and
    leaves [eta = 0.125]: the sample loop decays [eta] at sample 5 and
    again at sample 10, so it ends the loop at 0.25 (the value in effect
    when validation runs), and the end-of-epoch decay halves it once
    more. *)
Theorem decay_schedule_ten_samples (m n : nat) (self : Layer)
    (Xt yt X_val y_val : matrix) (permute : bool) (g : rng) :
  trainable m n self Xt yt X_val y_val -> length Xt = 10%nat ->
  (exists st hist,
     train self Xt yt X_val y_val 1 (Fin 1) permute (Fin (1 / 2)) (Fin (1 / 2)) g
     = (st, Ok hist)
     /\ t_eta st = Fin (1 / 8))
  /\ (forall perm self0 self' eta',
        length perm = 10%nat ->
        sample_loop Xt yt 5 (Fin (1 / 2)) perm 0 self0 (Fin 1) = (self', eta', Ok tt) ->
        eta' = Fin (1 / 4)).
Proof.
  intros Htr Hlen. split.
  - apply (train_ten_samples_eta m n); assumption.
  - intros perm self0 self' eta' Hperm Hloop.
    apply sample_loop_eta in Hloop. rewrite Hloop, Hperm.
    simpl. f_equal. lra.
Qed.

(** C10.  When [decayAfter] is in (0, 1] but [int( N * decayAfter )] is
    0, a [train] call on a non-empty training set for at least one
    epoch passes its assertions, draws the first epoch's order, performs
    the [learn] call for the first sample of that order, and then raises
    [ZeroDivisionError] at the modulo: the layer is left as that one
    [learn] call made it, [eta] is unchanged and no history exists. *)
Theorem train_zero_idxDec_fails_after_first_learn (m n : nat) (self : Layer)
    (Xt yt X_val y_val : matrix) (epochs : nat) (eta : num) (permute : bool)
    (decay : num) (r : R) (g : rng) :
  trainable m n self Xt yt X_val y_val ->
  0 < r <= 1 ->
  Rtrunc (INR (length Xt) * r) = 0%Z ->
  Xt <> [] -> (0 < epochs)%nat ->
  exists idx rest x y self1,
    fst (epoch_order Xt permute g) = idx :: rest
    /\ nth_error Xt idx = Some x
    /\ nth_error yt idx = Some y
    /\ learn self x y eta = (self1, Ok tt)
    /\ train self Xt yt X_val y_val epochs eta permute decay (Fin r) g
       = (mkT self1 (snd (epoch_order Xt permute g)) eta [] [idx :: rest],
          Raise ZeroDivisionError).
Proof.
  intros [HW Hr Haf HXt Hyt HXv Hyv Hm Hval] Hr01 Hidx Hne Hep.
  pose proof (epoch_order_bound Xt permute g) as Hb.
  pose proof (epoch_order_length Xt permute g) as Hl.
  rewrite train_enter; [| destruct Hyt; congruence | destruct Hyv; congruence | exact Hr01].
  rewrite Hidx. destruct epochs as [|epochs]; [lia|].
  cbn [epoch_loop]. fold (epoch_order Xt permute (t_rng (mkT self g eta [] []))).
  cbn [t_rng t_self t_eta t_hist t_orders].
  destruct (epoch_order Xt permute g) as [perm g']. simpl in Hb, Hl. simpl fst. simpl snd.
  destruct perm as [|idx rest].
  { destruct Xt; [congruence | discriminate]. }
  destruct (has_shape_nth _ _ _ idx HXt (Hb idx (or_introl eq_refl))) as (x & Hx & Hxn).
  destruct (has_shape_nth _ _ _ idx Hyt (Hb idx (or_introl eq_refl))) as (y & Hy & Hym).
  destruct (learn_keeps_shape m n self x y eta HW Hr Hxn Hym) as (self1 & Hlearn & _).
  exists idx, rest, x, y, self1.
  repeat (split; [first [reflexivity | assumption]|]).
  cbn [sample_loop app]. rewrite Hx, Hy, Hlearn. reflexivity.
Qed.

End DecaySchedule.

(** C1 as stated fails: on ten samples the call ends with [eta = 0.125],
    not 0.25. *)
Lemma decay_schedule_eta_is_not_a_quarter :
  exists st hist,
    train unit_hebb (ones 10) (ones 10) (ones 1) (ones 1) 1 (Fin 1) false
      (Fin (1 / 2)) (Fin (1 / 2)) (seed 0)
    = (st, Ok hist)
    /\ t_eta st <> Fin (1 / 4).
Proof.
  destruct (train_ten_samples_eta 1 1 unit_hebb (ones 10) (ones 10) (ones 1) (ones 1)
              false (seed 0)) as (st & hist & Htrain & Heta).
  - apply trainable_ones; [apply has_shape_unit | simpl; auto | reflexivity].
  - reflexivity.
  - exists st, hist. split; [exact Htrain|].
    rewrite Heta. intros H. inversion H. lra.
Qed.

Lemma trainable_unit_hebb (k : nat) :
  trainable 1 1 unit_hebb (ones k) (ones k) (ones 1) (ones 1).
Proof. apply trainable_ones; [apply has_shape_unit | simpl; auto | reflexivity]. Qed.

Lemma Layer_init_rejects_only_negative_witness :
  fst (Layer_init (-1) 3 linear r_hebb false false (seed 0)) = Raise ValueError
  /\ exists self,
       fst (Layer_init 0 3 linear r_hebb false false (seed 0)) = Ok self
       /\ has_shape (Z.to_nat 3) (Z.to_nat 0) (weights self).
Proof.
  split.
  - apply (Layer_init_rejects_only_negative_dimensions (-1) 3 linear r_hebb false false
             (seed 0)).
    left. lia.
  - apply (Layer_init_rejects_only_negative_dimensions 0 3 linear r_hebb false false
             (seed 0)).
    split; lia.
Defined.

Lemma decay_schedule_ten_samples_witness :
  (exists st hist,
     train unit_hebb (ones 10) (ones 10) (ones 1) (ones 1) 1 (Fin 1) false
       (Fin (1 / 2)) (Fin (1 / 2)) (seed 0)
     = (st, Ok hist)
     /\ t_eta st = Fin (1 / 8))
  /\ (forall perm self0 self' eta',
        length perm = 10%nat ->
        sample_loop (ones 10) (ones 10) 5 (Fin (1 / 2)) perm 0 self0 (Fin 1)
        = (self', eta', Ok tt) ->
        eta' = Fin (1 / 4)).
Proof.
  apply (decay_schedule_ten_samples 1 1 unit_hebb (ones 10) (ones 10) (ones 1) (ones 1)
           false (seed 0)).
  - apply trainable_unit_hebb.
  - reflexivity.
Defined.

Lemma train_zero_idxDec_witness :
  exists self1,
    train unit_hebb (ones 10) (ones 10) (ones 1) (ones 1) 1 (Fin 1) false
      (Fin 1) (Fin (1 / 20)) (seed 0)
    = (mkT self1 (seed 0) (Fin 1) [] [seq 0 10], Raise ZeroDivisionError)
    /\ weights self1 = [[Fin (0 + 1 * (1 * 1))]]
    /\ weights unit_hebb = [[Fin 0]].
Proof.
  destruct (train_zero_idxDec_fails_after_first_learn 1 1 unit_hebb
              (ones 10) (ones 10) (ones 1) (ones 1) 1 (Fin 1) false (Fin 1) (1 / 20) (seed 0))
    as (idx & rest & x & y & self1 & Ho & Hx & Hy & Hl & Ht).
  - apply trainable_unit_hebb.
  - lra.
  - apply Rtrunc_small. simpl. lra.
  - discriminate.
  - lia.
  - simpl in Ho. inversion Ho; subst idx rest.
    simpl in Hx, Hy. inversion Hx; inversion Hy; subst x y.
    cbn in Hl. inversion Hl; subst self1.
    exists (set_weights unit_hebb [[Fin (0 + 1 * (1 * 1))]]).
    split; [exact Ht | split; reflexivity].
Defined.

Lemma train_rejects_decayAfter_witness :
  train unit_hebb (ones 10) (ones 10) (ones 1) (ones 1) 1 (Fin 1) false (Fin 1)
    (Fin 0) (seed 0)
  = (mkT unit_hebb (seed 0) (Fin 1) [] [], Raise AssertionError)
  /\ train unit_hebb (ones 10) (ones 10) (ones 1) (ones 1) 1 (Fin 1) false (Fin 1)
       (Fin (3 / 2)) (seed 0)
     = (mkT unit_hebb (seed 0) (Fin 1) [] [], Raise AssertionError).
Proof.
  split; apply train_rejects_decayAfter_outside_unit_interval;
    intros [r [Hr Hin]]; inversion Hr; subst r; lra.
Defined.

Lemma getWeights_shape_invariant_witness :
  exists self,
    fst (Layer_init 2 3 linear r_ojas false true (seed 0)) = Ok self
    /\ forall calls : list (vector * vector * num),
        Forall (fun c => length (fst (fst c)) = Z.to_nat 2
                         /\ length (snd (fst c)) = Z.to_nat 3) calls ->
        exists self',
          learn_all self calls = (self', Ok tt)
          /\ has_shape (Z.to_nat 3) (Z.to_nat 2) (getWeights self').
Proof.
  apply getWeights_shape_invariant; [lia | lia | simpl; auto].
Defined.

(* ----------------------------------------------------------------- *)
(** ** Evaluation and undefined predictions *)

Lemma runTest_inv (X y : matrix) (cmp : vector -> result vector)
    (correct : num) (indexWrong : list nat) :
  runTest X y cmp = Ok (correct, indexWrong) ->
  exists yd preds,
    length X = length y
    /\ asDigits y = Ok yd
    /\ mapM (predict cmp) X = Ok preds
    /\ yd <> []
    /\ correct = ndiv (of_nat (count_true (compare_preds preds yd))) (of_nat (length yd))
    /\ indexWrong = where_false 0 (compare_preds preds yd).
Proof.
  unfold runTest. intros H.
  destruct (length X =? length y)%nat eqn:Hlen; simpl in H; [|discriminate].
  destruct (asDigits y) as [yd|e]; simpl in H; [|discriminate].
  destruct (mapM (predict cmp) X) as [preds|e]; simpl in H; [|discriminate].
  destruct (length yd =? 0)%nat eqn:H0; [discriminate|].
  inversion H; subst. exists yd, preds.
  apply Nat.eqb_eq in Hlen. repeat split; auto.
  intros ->. discriminate.
Qed.

Lemma mapM_nth {A B : Type} (f : A -> result B) (l : list A) (l' : list B) :
  mapM f l = Ok l' ->
  forall i a, nth_error l i = Some a ->
  exists b, f a = Ok b /\ nth_error l' i = Some b.
Proof.
  revert l'. induction l as [|a0 l IH]; intros l' H i a Hi.
  - destruct i; discriminate.
  - simpl in H. destruct (f a0) as [b0|e] eqn:Hf; simpl in H; [|discriminate].
    destruct (mapM f l) as [bs|e]; simpl in H; [|discriminate].
    inversion H; subst. destruct i as [|i]; simpl in *.
    + inversion Hi; subst. exists b0. auto.
    + apply (IH bs eq_refl i a Hi).
Qed.

Lemma map2_nth {A B C : Type} (f : A -> B -> C) (u : list A) (v : list B) :
  forall i a b, nth_error u i = Some a -> nth_error v i = Some b ->
  nth_error (map2 f u v) i = Some (f a b).
Proof.
  revert v. induction u as [|a0 u IH]; intros [|b0 v] [|i] a b Ha Hb;
    simpl in *; try discriminate.
  - congruence.
  - apply IH; assumption.
Qed.

Lemma where_false_In (comp : list bool) :
  forall k j, nth_error comp j = Some false -> In (k + j)%nat (where_false k comp).
Proof.
  induction comp as [|c comp IH]; intros k [|j] Hj; simpl in *; try discriminate.
  - inversion Hj; subst. rewrite Nat.add_0_r. left. reflexivity.
  - replace (k + S j)%nat with (S k + j)%nat by lia.
    destruct c; [|right]; apply IH; exact Hj.
Qed.

(** An output whose sum compares equal to zero is predicted as
    not-a-number, whatever its entries. *)
Lemma predict_zero_sum (cmp : vector -> result vector) (x v : vector) :
  cmp x = Ok v -> neqb (np_sum v) (Fin 0) = true -> predict cmp x = Ok NaN.
Proof. intros Hv Hsum. unfold predict. rewrite Hv. simpl. rewrite Hsum. reflexivity. Qed.

(** What [runTest] counts as correct and what it reports as wrong add
    up to the whole dataset. *)
Lemma count_true_where_false (comp : list bool) :
  forall k s,
    (fold_left (fun s (c : bool) => if c then S s else s) comp s
     + length (where_false k comp) = s + length comp)%nat.
Proof.
  induction comp as [|c comp IH]; intros k s; simpl; [lia|].
  destruct c; simpl; [pose proof (IH (S k) (S s)) | pose proof (IH (S k) s)]; lia.
Qed.

(** The accuracy is the share of samples that are not reported wrong. *)
Lemma runTest_accuracy (X y : matrix) (cmp : vector -> result vector)
    (correct : num) (indexWrong : list nat) :
  runTest X y cmp = Ok (correct, indexWrong) ->
  correct = ndiv (of_nat (length X - length indexWrong)) (of_nat (length X)).
Proof.
  intros Hrun.
  destruct (runTest_inv X y cmp correct indexWrong Hrun)
    as (yd & preds & Hlen & Hyd & Hpreds & _ & -> & ->).
  pose proof (mapM_length _ _ _ Hyd) as Lyd.
  pose proof (mapM_length _ _ _ Hpreds) as Lp.
  pose proof (count_true_where_false (compare_preds preds yd) 0 0) as Hc.
  fold (count_true (compare_preds preds yd)) in Hc.
  assert (Lc : length (compare_preds preds yd) = length X).
  { unfold compare_preds. rewrite map2_length; congruence. }
  rewrite Lc in Hc.
  replace (length yd) with (length X) by congruence.
  f_equal. f_equal. lia.
Qed.

(** C9.  When [runTest] returns, every sample whose output vector sums
    to zero was predicted as not-a-number, which compares unequal to
    every label, and its index is among the misclassified ones, which
    the accuracy leaves out; the entries of the output and where its
    maximum lies play no part. *)
Theorem runTest_zero_sum_is_mismatch (X y : matrix) (cmp : vector -> result vector)
    (correct : num) (indexWrong : list nat) (i : nat) (x v : vector) :
  runTest X y cmp = Ok (correct, indexWrong) ->
  nth_error X i = Some x ->
  cmp x = Ok v ->
  neqb (np_sum v) (Fin 0) = true ->
  predict cmp x = Ok NaN
  /\ (forall label : nat, neqb NaN (of_nat label) = false)
  /\ In i indexWrong
  /\ correct = ndiv (of_nat (length X - length indexWrong)) (of_nat (length X)).
Proof.
  intros Hrun Hx Hv Hsum.
  pose proof (predict_zero_sum cmp x v Hv Hsum) as Hp.
  split; [exact Hp|]. split; [intros label; reflexivity|].
  split; [|exact (runTest_accuracy X y cmp correct indexWrong Hrun)].
  destruct (runTest_inv X y cmp correct indexWrong Hrun)
    as (yd & preds & Hlen & Hyd & Hpreds & _ & _ & ->).
  destruct (mapM_nth _ _ _ Hpreds i x Hx) as (p & Hp' & Hpi).
  rewrite Hp in Hp'. inversion Hp'; subst p.
  assert (Hi : (i < length yd)%nat).
  { rewrite (mapM_length _ _ _ Hyd), <- Hlen. apply nth_error_Some. congruence. }
  destruct (nth_error yd i) as [d|] eqn:Hd; [|apply nth_error_None in Hd; lia].
  apply (where_false_In _ 0 i).
  unfold compare_preds. rewrite (map2_nth _ _ _ i NaN d Hpi Hd). reflexivity.
Qed.

Lemma runTest_zero_sum_witness :
  exists correct indexWrong,
    runTest [[Fin 1]] [[Fin 1; Fin 0; Fin 0]] (compute signed_layer)
    = Ok (correct, indexWrong)
    /\ compute signed_layer [Fin 1] = Ok [Fin (0 + 1 * 1); Fin (0 + -1 * 1); Fin (0 + 0 * 1)]
    /\ predict (compute signed_layer) [Fin 1] = Ok NaN
    /\ (forall label : nat, neqb NaN (of_nat label) = false)
    /\ In 0%nat indexWrong
    /\ correct = ndiv (of_nat (1 - length indexWrong)) (of_nat 1).
Proof.
  destruct (runTest_returns [[Fin 1]] [[Fin 1; Fin 0; Fin 0]] (compute signed_layer))
    as (correct & indexWrong & Hrun).
  - reflexivity.
  - discriminate.
  - repeat constructor. discriminate.
  - intros x [<- | []]. eexists. reflexivity.
  - exists correct, indexWrong. split; [exact Hrun|]. split; [reflexivity|].
    apply (runTest_zero_sum_is_mismatch [[Fin 1]] [[Fin 1; Fin 0; Fin 0]]
             (compute signed_layer) correct indexWrong 0 [Fin 1]
             [Fin (0 + 1 * 1); Fin (0 + -1 * 1); Fin (0 + 0 * 1)] Hrun).
    + reflexivity.
    + reflexivity.
    + unfold np_sum. simpl. destruct (Req_dec_T _ _) as [_ | Hne]; [reflexivity|].
      exfalso. apply Hne. lra.
Defined.

(* ----------------------------------------------------------------- *)
(** ** A layer with all-zero weights *)

Lemma nmul_zero_finite (a : num) : finite a -> nmul (Fin 0) a = Fin 0.
Proof. destruct a; simpl; try contradiction. intros _. f_equal. lra. Qed.

Lemma map2_nmul_zeros (x : vector) :
  Forall finite x -> map2 nmul (repeat (Fin 0) (length x)) x = repeat (Fin 0) (length x).
Proof.
  induction 1 as [|a x Ha _ IH]; cbn [map2 repeat length]; [reflexivity|].
  rewrite nmul_zero_finite by exact Ha. now rewrite IH.
Qed.

Lemma np_sum_zeros (k : nat) : np_sum (repeat (Fin 0) k) = Fin 0.
Proof.
  unfold np_sum. induction k as [|k IH]; simpl; [reflexivity|].
  replace (0 + 0) with 0 by lra. exact IH.
Qed.

Lemma compute_zero_weights (m : nat) (self : Layer) (x : vector) :
  weights self = repeat (repeat (Fin 0) (length x)) m ->
  aF self = linear ->
  Forall finite x ->
  compute self x = Ok (repeat (Fin 0) m).
Proof.
  intros HW Haf Hx. unfold compute.
  rewrite (np_dot_eq m (length x)), Haf; [| rewrite HW; apply has_shape_zeros | reflexivity].
  simpl. unfold linear. f_equal. rewrite HW, map_repeat.
  rewrite map2_nmul_zeros by exact Hx. now rewrite np_sum_zeros.
Qed.

Lemma compare_preds_NaN (X : matrix) (yd : list nat) :
  length X = length yd ->
  compare_preds (map (fun _ => NaN) X) yd = repeat false (length X).
Proof.
  revert yd. induction X as [|x X IH]; intros [|d yd] H; simpl in *; try discriminate.
  - reflexivity.
  - unfold compare_preds in *. simpl. rewrite IH by lia. reflexivity.
Qed.

Lemma count_true_all_false (k : nat) : count_true (repeat false k) = 0%nat.
Proof. unfold count_true. induction k; simpl; auto. Qed.

Lemma where_false_all_false (k : nat) : forall i, where_false i (repeat false k) = seq i k.
Proof. induction k as [|k IH]; intros i; simpl; [reflexivity | now rewrite IH]. Qed.

Lemma ndiv_zero_nat (k : nat) : k <> 0%nat -> ndiv (of_nat 0) (of_nat k) = Fin 0.
Proof.
  intros Hk. unfold of_nat, ndiv.
  destruct (Req_dec_T (INR k) 0) as [H0 | _].
  - exfalso. revert H0. apply not_0_INR. exact Hk.
  - f_equal. simpl. unfold Rdiv. apply Rmult_0_l.
Qed.

(** C2, as the code has it.  A layer with all-zero weights and the
    identity activation (the default), evaluated on a non-empty dataset
    of finite samples of the layer's input length with non-empty label
    rows: every prediction is the not-a-number sentinel, the accuracy is
    0 and every index is reported as misclassified. *)
Theorem zero_weights_identity_all_undefined (m n : nat) (self : Layer) (X y : matrix) :
  weights self = repeat (repeat (Fin 0) n) m ->
  aF self = linear ->
  X <> [] ->
  length X = length y ->
  Forall (fun x => length x = n /\ Forall finite x) X ->
  Forall (fun row => row <> []) y ->
  runTest X y (compute self) = Ok (Fin 0, seq 0 (length X))
  /\ forall x, In x X -> predict (compute self) x = Ok NaN.
Proof.
  intros HW Haf Hne Hlen HX Hy.
  assert (Hpred : forall x, In x X -> predict (compute self) x = Ok NaN).
  { intros x Hx. rewrite Forall_forall in HX. destruct (HX x Hx) as [Hn Hfin].
    apply (predict_zero_sum _ _ (repeat (Fin 0) m)).
    - apply compute_zero_weights; [rewrite Hn; exact HW | exact Haf | exact Hfin].
    - rewrite np_sum_zeros. apply neqb_refl_fin. }
  split; [|exact Hpred].
  unfold runTest. rewrite (proj2 (Nat.eqb_eq _ _) Hlen). cbn [negb].
  destruct (asDigits_returns y Hy) as (yd & -> & Hyd). cbn [bind].
  rewrite (mapM_pure (predict (compute self)) (fun _ => NaN) X Hpred). cbn [bind].
  fold (compare_preds (map (fun _ : vector => NaN) X) yd).
  rewrite compare_preds_NaN by congruence.
  assert (Hk : length yd <> 0%nat).
  { rewrite Hyd, <- Hlen. destruct X; [congruence | discriminate]. }
  rewrite (proj2 (Nat.eqb_neq _ _) Hk).
  rewrite count_true_all_false, where_false_all_false, ndiv_zero_nat by exact Hk.
  reflexivity.
Qed.

Lemma zero_weights_identity_witness :
  runTest [[Fin 1; Fin (1 / 2)]; [Fin 0; Fin 1]] [[Fin 1; Fin 0]; [Fin 0; Fin 1]]
    (compute (mkLayer (2%Z, 2%Z) linear r_hebb false [[Fin 0; Fin 0]; [Fin 0; Fin 0]]))
  = Ok (Fin 0, [0%nat; 1%nat])
  /\ forall x, In x [[Fin 1; Fin (1 / 2)]; [Fin 0; Fin 1]] ->
       predict (compute (mkLayer (2%Z, 2%Z) linear r_hebb false
                           [[Fin 0; Fin 0]; [Fin 0; Fin 0]])) x = Ok NaN.
Proof.
  apply (zero_weights_identity_all_undefined 2 2
           (mkLayer (2%Z, 2%Z) linear r_hebb false [[Fin 0; Fin 0]; [Fin 0; Fin 0]])
           [[Fin 1; Fin (1 / 2)]; [Fin 0; Fin 1]] [[Fin 1; Fin 0]; [Fin 0; Fin 1]]).
  - reflexivity.
  - reflexivity.
  - discriminate.
  - reflexivity.
  - repeat constructor.
  - repeat constructor; discriminate.
Defined.

(** [softmax] of a one-entry vector is [[1.0]]. *)
Lemma softmax_singleton (a : R) : softmax [Fin a] = Ok [Fin 1].
Proof.
  unfold softmax, np_sum. simpl.
  replace (a + - a) with 0 by lra. rewrite exp_0.
  destruct (Req_dec_T (0 + 1) 0) as [H | _]; [exfalso; lra|].
  do 2 f_equal. f_equal. lra.
Qed.

(** C2 as stated fails: a zero-weight layer whose activation is
    [softmax] outputs [[1.0]], is predicted as class 0 and scores
    accuracy 1 with no misclassified index. *)
Lemma zero_weights_softmax_predicts_class_0 :
  weights softmax_layer = [[Fin 0]]
  /\ predict (compute softmax_layer) [Fin 1] = Ok (of_nat 0)
  /\ runTest [[Fin 1]] [[Fin 1]] (compute softmax_layer) = Ok (Fin 1, []).
Proof.
  assert (Hc : compute softmax_layer [Fin 1] = Ok [Fin 1]).
  { unfold compute, np_dot, np_sum. simpl. apply softmax_singleton. }
  assert (Hp : predict (compute softmax_layer) [Fin 1] = Ok (of_nat 0)).
  { unfold predict. rewrite Hc. cbn [bind].
    change (np_sum [Fin 1]) with (Fin (0 + 1)).
    rewrite neqb_fin_false by lra.
    rewrite softmax_singleton. reflexivity. }
  split; [reflexivity|]. split; [exact Hp|].
  unfold runTest. simpl. rewrite Hp. simpl.
  destruct (Req_dec_T 0 0) as [_ | H]; [|exfalso; apply H; reflexivity].
  simpl. destruct (Req_dec_T 1 0) as [H | _]; [exfalso; lra|].
  do 2 f_equal. f_equal. lra.
Qed.

(* ----------------------------------------------------------------- *)
(** ** Plain Hebbian learning and the visiting order *)

Lemma nadd_right_comm (a b c : num) : nadd (nadd a b) c = nadd (nadd a c) b.
Proof. rewrite !nadd_assoc. f_equal. apply nadd_comm. Qed.

Lemma map2_right_comm {A B : Type} (f : A -> B -> A) :
  (forall a b c, f (f a b) c = f (f a c) b) ->
  forall (u : list A) (v w : list B),
    map2 f (map2 f u v) w = map2 f (map2 f u w) v.
Proof.
  intros Hf. induction u as [|a u IH]; intros [|b v] [|c w]; simpl; try reflexivity.
  rewrite Hf, IH. reflexivity.
Qed.

(** The Hebbian increment [eta * np.outer( y, x )] does not read the
    weights, so two updates can be swapped. *)
Lemma hebb_update_swap (W : matrix) (x1 y1 x2 y2 : vector) (eta : num) :
  hebb_update (hebb_update W x1 y1 eta) x2 y2 eta
  = hebb_update (hebb_update W x2 y2 eta) x1 y1 eta.
Proof.
  unfold hebb_update. apply map2_right_comm.
  intros a b c. apply map2_right_comm. apply nadd_right_comm.
Qed.

Lemma hebb_fold_permutation (Xt yt : matrix) (eta : num) (p1 p2 : list nat) :
  Permutation p1 p2 ->
  forall W, hebb_fold Xt yt eta p1 W = hebb_fold Xt yt eta p2 W.
Proof.
  unfold hebb_fold.
  induction 1 as [| idx p1 p2 _ IH | i j p | p1 p2 p3 _ IH1 _ IH2]; intros W; simpl.
  - reflexivity.
  - apply IH.
  - rewrite hebb_update_swap. reflexivity.
  - rewrite IH1. apply IH2.
Qed.

Lemma set_weights_id (self : Layer) : set_weights self (weights self) = self.
Proof. destruct self. reflexivity. Qed.

Lemma set_weights_twice (self : Layer) (W W' : matrix) :
  set_weights (set_weights self W) W' = set_weights self W'.
Proof. reflexivity. Qed.

Section HebbOrder.

Context `{RG : RandomGen}.

Variables (m n : nat) (Xt yt : matrix) (idxDec : Z).
Hypothesis HXt : has_shape (length Xt) n Xt.
Hypothesis Hyt : has_shape (length Xt) m yt.

(** With [decay = 1] the sample loop of a plain Hebbian layer performs
    exactly the updates of [hebb_fold]. *)
Lemma sample_loop_hebb (perm : list nat) :
  forall (i : nat) (self : Layer) (eta : num),
    learning self = r_hebb -> normalize self = false ->
    has_shape m n (weights self) ->
    (forall idx, In idx perm -> (idx < length Xt)%nat) ->
    idxDec <> 0%Z \/ perm = [] ->
    sample_loop Xt yt idxDec (Fin 1) perm i self eta
    = (set_weights self (hebb_fold Xt yt eta perm (weights self)), eta, Ok tt).
Proof.
  induction perm as [|idx perm IH]; intros i self eta Hr Hn HW Hidx Hdec;
    cbn [sample_loop hebb_fold fold_left].
  - rewrite set_weights_id. reflexivity.
  - destruct Hdec as [Hdec | Hnil]; [|discriminate].
    destruct (has_shape_nth _ _ _ idx HXt (Hidx idx (or_introl eq_refl)))
      as (x & Hx & Hxn).
    destruct (has_shape_nth _ _ _ idx Hyt (Hidx idx (or_introl eq_refl)))
      as (y & Hy & Hym).
    rewrite Hx, Hy.
    rewrite (@nth_error_nth vector Xt idx x [] Hx), (@nth_error_nth vector yt idx y [] Hy).
    rewrite (learn_eq self x y eta (hebb_update (weights self) x y eta))
      by (rewrite Hr; apply (r_hebb_eq m n); assumption).
    unfold after_rule. rewrite Hn.
    rewrite (proj2 (Z.eqb_neq _ _) Hdec), nmul_1_r.
    replace (if (Z.of_nat (S i) mod idxDec =? 0)%Z then eta else eta) with eta
      by (destruct (Z.of_nat (S i) mod idxDec =? 0)%Z; reflexivity).
    rewrite IH; auto.
    + apply (has_shape_hebb_update m n); assumption.
    + intros j Hj. apply Hidx. right. exact Hj.
Qed.

(** With any [decay]: as long as no decay is triggered before the last
    sample of the loop, every sample is learned at the rate the loop
    started with, and the loop performs the updates of [hebb_fold]; a
    trigger at the last sample only changes the rate the loop hands
    back. *)
Lemma sample_loop_hebb_rate (decay : num) (perm : list nat) :
  forall (i : nat) (self : Layer) (eta : num),
    learning self = r_hebb -> normalize self = false ->
    has_shape m n (weights self) ->
    (forall idx, In idx perm -> (idx < length Xt)%nat) ->
    idxDec <> 0%Z ->
    (forall j, (i < j < i + length perm)%nat ->
               (Z.of_nat j mod idxDec =? 0)%Z = false) ->
    sample_loop Xt yt idxDec decay perm i self eta
    = (set_weights self (hebb_fold Xt yt eta perm (weights self)),
       match perm with
       | [] => eta
       | _ :: _ =>
           if (Z.of_nat (i + length perm) mod idxDec =? 0)%Z
           then nmul eta decay else eta
       end,
       Ok tt).
Proof.
  induction perm as [|idx perm IH]; intros i self eta Hr Hn HW Hidx Hdec Hno.
  - cbn [sample_loop hebb_fold fold_left]. rewrite set_weights_id. reflexivity.
  - cbn [sample_loop].
    destruct (has_shape_nth _ _ _ idx HXt (Hidx idx (or_introl eq_refl)))
      as (x & Hx & Hxn).
    destruct (has_shape_nth _ _ _ idx Hyt (Hidx idx (or_introl eq_refl)))
      as (y & Hy & Hym).
    rewrite Hx, Hy.
    rewrite (learn_eq self x y eta (hebb_update (weights self) x y eta))
      by (rewrite Hr; apply (r_hebb_eq m n); assumption).
    unfold after_rule. rewrite Hn.
    rewrite (proj2 (Z.eqb_neq _ _) Hdec).
    assert (Hfold : forall rest,
              hebb_fold Xt yt eta (idx :: rest) (weights self)
              = hebb_fold Xt yt eta rest (hebb_update (weights self) x y eta)).
    { intros rest. unfold hebb_fold. cbn [fold_left].
      rewrite (@nth_error_nth vector Xt idx x [] Hx),
              (@nth_error_nth vector yt idx y [] Hy). reflexivity. }
    rewrite Hfold.
    destruct perm as [|idx2 rest].
    + cbn [sample_loop length]. replace (i + 1)%nat with (S i) by lia. reflexivity.
    + rewrite (Hno (S i)) by (cbn [length]; lia).
      rewrite IH.
      * replace (S i + length (idx2 :: rest))%nat
          with (i + length (idx :: idx2 :: rest))%nat by (cbn [length]; lia).
        reflexivity.
      * exact Hr.
      * exact Hn.
      * apply (has_shape_hebb_update m n); assumption.
      * intros j Hj. apply Hidx. right. exact Hj.
      * exact Hdec.
      * intros j Hj. apply Hno. cbn [length] in *. lia.
Qed.

End HebbOrder.

Section OneEpoch.

Context `{RG : RandomGen}.

(** A [train] call for one epoch, in terms of its sample loop. *)
Lemma train_one_epoch (m n : nat) (self : Layer) (Xt yt X_val y_val : matrix)
    (eta : num) (permute : bool) (decay : num) (r : R) (g : rng)
    (idxDec : Z) (self' : Layer) (eta' : num) :
  trainable m n self Xt yt X_val y_val -> 0 < r <= 1 ->
  Rtrunc (INR (length Xt) * r) = idxDec ->
  sample_loop Xt yt idxDec decay (fst (epoch_order Xt permute g)) 0 self eta
  = (self', eta', Ok tt) ->
  exists correct,
    train self Xt yt X_val y_val 1 eta permute decay (Fin r) g
    = (mkT self' (snd (epoch_order Xt permute g)) (nmul eta' decay) [correct]
           [fst (epoch_order Xt permute g)],
       Ok [correct]).
Proof.
  intros [HW Hr Haf HXt Hyt HXv Hyv Hm Hval] Hr01 Hidx Hloop.
  assert (Hcfg : has_shape m n (weights self') /\ aF self' = aF self).
  { destruct (Z.eq_dec idxDec 0) as [H0 | H0].
    - destruct (fst (epoch_order Xt permute g)) as [|idx rest] eqn:Hp.
      + simpl in Hloop. inversion Hloop; subst. auto.
      + exfalso. pose proof (epoch_order_bound Xt permute g idx) as Hb.
        rewrite Hp in Hb. specialize (Hb (or_introl eq_refl)).
        destruct (has_shape_nth _ _ _ idx HXt Hb) as (x & Hx & Hxn).
        destruct (has_shape_nth _ _ _ idx Hyt Hb) as (y & Hy & Hym).
        destruct (learn_keeps_shape m n self x y eta HW Hr Hxn Hym) as (s1 & Hl & _).
        cbn [sample_loop] in Hloop. rewrite Hx, Hy, Hl, H0 in Hloop. discriminate.
    - destruct (sample_loop_returns m n Xt yt idxDec decay HXt Hyt
                  (fst (epoch_order Xt permute g)) 0 self eta HW Hr
                  (epoch_order_bound Xt permute g) (or_introl H0))
        as (s & Hs & HWs & _ & _ & Has).
      rewrite Hloop in Hs. inversion Hs; subst. auto. }
  destruct Hcfg as [HW' Ha'].
  destruct (validation_returns m n X_val y_val HXv Hyv Hm Hval self' HW')
    as (correct & iw & Hval').
  { rewrite Ha'. exact Haf. }
  exists correct.
  rewrite train_enter; [| destruct Hyt; congruence | destruct Hyv; congruence | exact Hr01].
  rewrite Hidx. cbn [epoch_loop].
  fold (epoch_order Xt permute (t_rng (mkT self g eta [] []))).
  cbn [t_rng t_self t_eta t_hist t_orders].
  destruct (epoch_order Xt permute g) as [perm g']. simpl fst in *. simpl snd.
  rewrite Hloop, Hval'. reflexivity.
Qed.

(** C3, as the code has it.  For a plain Hebbian layer (rule [r_hebb],
    no normalisation) trained for one epoch in which the rate is not
    decayed before the last sample, so that every sample is learned at
    the same rate: that is the case with [decay = 1], and for every
    [decay] when [int( N * decayAfter )] is the number [N] of samples,
    as with the default [decayAfter = 1].  Two sample loops over
    visiting orders of the dataset end with the same layer and the same
    rate, and two [train] calls started from any two generator states
    both return and leave identical weights.  The initial weights may be
    zero or anything else of the layer's shape. *)
Theorem hebb_order_invariance (m n : nat) (self : Layer) (Xt yt X_val y_val : matrix)
    (eta decay : num) (r : R) :
  trainable m n self Xt yt X_val y_val ->
  learning self = r_hebb -> normalize self = false ->
  0 < r <= 1 ->
  Rtrunc (INR (length Xt) * r) <> 0%Z ->
  decay = Fin 1 \/ Rtrunc (INR (length Xt) * r) = Z.of_nat (length Xt) ->
  (forall A B : list nat,
      Permutation A (seq 0 (length Xt)) ->
      Permutation A B ->
      exists self' eta',
        sample_loop Xt yt (Rtrunc (INR (length Xt) * r)) decay A 0 self eta
        = (self', eta', Ok tt)
        /\ sample_loop Xt yt (Rtrunc (INR (length Xt) * r)) decay B 0 self eta
           = (self', eta', Ok tt))
  /\ (forall gA gB : rng,
        exists stA stB,
          train self Xt yt X_val y_val 1 eta true decay (Fin r) gA
          = (stA, Ok (t_hist stA))
          /\ train self Xt yt X_val y_val 1 eta true decay (Fin r) gB
             = (stB, Ok (t_hist stB))
          /\ weights (t_self stA) = weights (t_self stB)).
Proof.
  intros Htr Hr Hn Hr01 Hdec Hrate.
  pose proof Htr as [HW _ _ HXt Hyt _ _ _ _].
  assert (Hloop : forall A, Permutation A (seq 0 (length Xt)) ->
            exists eta',
              sample_loop Xt yt (Rtrunc (INR (length Xt) * r)) decay A 0 self eta
              = (set_weights self (hebb_fold Xt yt eta A (weights self)), eta', Ok tt)
              /\ forall B, Permutation A B ->
                   sample_loop Xt yt (Rtrunc (INR (length Xt) * r)) decay B 0 self eta
                   = (set_weights self (hebb_fold Xt yt eta B (weights self)), eta',
                      Ok tt)).
  { intros A HA.
    assert (Hin : forall B, Permutation A B ->
              forall idx, In idx B -> (idx < length Xt)%nat).
    { intros B HAB idx Hidx. apply (Permutation_in _ (Permutation_sym HAB)) in Hidx.
      apply (Permutation_in _ HA) in Hidx. apply in_seq in Hidx. lia. }
    assert (Hlen : forall B, Permutation A B -> length B = length Xt).
    { intros B HAB. rewrite <- (Permutation_length HAB), (Permutation_length HA).
      apply length_seq. }
    destruct Hrate as [-> | HidxN].
    - exists eta. split; [|intros B HAB];
        apply (sample_loop_hebb m n); auto; eapply Hin;
        first [apply Permutation_refl | exact HAB].
    - assert (Hno : forall B, Permutation A B ->
                forall j, (0 < j < 0 + length B)%nat ->
                  (Z.of_nat j mod Rtrunc (INR (length Xt) * r) =? 0)%Z = false).
      { intros B HAB j Hj. rewrite (Hlen B HAB) in Hj. rewrite HidxN.
        apply Z.eqb_neq. rewrite Z.mod_small by lia. lia. }
      exists (match A with
              | [] => eta
              | _ :: _ =>
                  if (Z.of_nat (0 + length Xt) mod Rtrunc (INR (length Xt) * r) =? 0)%Z
                  then nmul eta decay else eta
              end).
      assert (Hgen : forall B, Permutation A B ->
                sample_loop Xt yt (Rtrunc (INR (length Xt) * r)) decay B 0 self eta
                = (set_weights self (hebb_fold Xt yt eta B (weights self)),
                   match A with
                   | [] => eta
                   | _ :: _ =>
                       if (Z.of_nat (0 + length Xt)
                           mod Rtrunc (INR (length Xt) * r) =? 0)%Z
                       then nmul eta decay else eta
                   end, Ok tt)).
      { intros B HAB.
        rewrite (sample_loop_hebb_rate m n Xt yt (Rtrunc (INR (length Xt) * r)) HXt Hyt
                   decay B 0 self eta Hr Hn HW (Hin B HAB) Hdec (Hno B HAB)).
        rewrite (Hlen B HAB).
        destruct A as [|a A']; destruct B as [|b B']; try reflexivity.
        - apply Permutation_nil in HAB. discriminate.
        - apply Permutation_sym, Permutation_nil in HAB. discriminate. }
      split; [apply Hgen, Permutation_refl | exact Hgen]. }
  split.
  - intros A B HA HAB.
    destruct (Hloop A HA) as (eta' & HlA & HlB).
    exists (set_weights self (hebb_fold Xt yt eta A (weights self))), eta'.
    split; [exact HlA|].
    rewrite (hebb_fold_permutation Xt yt eta A B HAB). apply HlB, HAB.
  - intros gA gB.
    destruct (Hloop _ (epoch_order_perm Xt true gA)) as (etaA & HlA & _).
    destruct (Hloop _ (epoch_order_perm Xt true gB)) as (etaB & HlB & _).
    destruct (train_one_epoch m n self Xt yt X_val y_val eta true decay r gA _ _ _
                Htr Hr01 eq_refl HlA) as (cA & HtA).
    destruct (train_one_epoch m n self Xt yt X_val y_val eta true decay r gB _ _ _
                Htr Hr01 eq_refl HlB) as (cB & HtB).
    eexists. eexists. split; [exact HtA|]. split; [exact HtB|].
    cbn [t_self weights set_weights]. apply hebb_fold_permutation.
    eapply Permutation_trans; [apply (epoch_order_perm Xt true gA)|].
    apply Permutation_sym, (epoch_order_perm Xt true gB).
Qed.

End OneEpoch.

Lemma trainable_two_samples :
  trainable 1 1 unit_hebb two_samples (ones 2) (ones 1) (ones 1).
Proof.
  constructor; try (split; [reflexivity | repeat constructor]).
  - simpl. auto.
  - apply linear_returns.
  - lia.
  - discriminate.
Qed.

Lemma Rtrunc_two_halves : Rtrunc (INR (length two_samples) * (1 / 2)) = 1%Z.
Proof.
  replace (INR (length two_samples) * (1 / 2)) with (IZR 1) by (simpl; lra).
  apply Rtrunc_IZR.
Qed.

(** C3 as stated fails: with [decay = 0.5] and [decayAfter = 0.5] the
    second sample of the epoch is learned at half the rate of the first,
    and the two visiting orders of two samples leave the weights [[2.0]]
    and [[2.5]]. *)
Lemma hebb_order_matters_under_decay :
  exists stA stB,
    train unit_hebb two_samples (ones 2) (ones 1) (ones 1) 1 (Fin 1) true
      (Fin (1 / 2)) (Fin (1 / 2)) (seed 0) = (stA, Ok (t_hist stA))
    /\ train unit_hebb two_samples (ones 2) (ones 1) (ones 1) 1 (Fin 1) true
         (Fin (1 / 2)) (Fin (1 / 2)) (seed 1) = (stB, Ok (t_hist stB))
    /\ t_orders stA = [[0; 1]]%nat
    /\ t_orders stB = [[1; 0]]%nat
    /\ weights (t_self stA) = [[Fin (0 + 1 * (1 * 1) + 1 * (1 / 2) * (1 * 2))]]
    /\ weights (t_self stB) = [[Fin (0 + 1 * (1 * 2) + 1 * (1 / 2) * (1 * 1))]]
    /\ weights (t_self stA) <> weights (t_self stB).
Proof.
  destruct (train_one_epoch 1 1 unit_hebb two_samples (ones 2) (ones 1) (ones 1)
              (Fin 1) true (Fin (1 / 2)) (1 / 2) (seed 0) 1%Z
              (set_weights unit_hebb [[Fin (0 + 1 * (1 * 1) + 1 * (1 / 2) * (1 * 2))]])
              (Fin (1 * (1 / 2) * (1 / 2)))
              trainable_two_samples) as (cA & HA);
    [lra | apply Rtrunc_two_halves | reflexivity |].
  destruct (train_one_epoch 1 1 unit_hebb two_samples (ones 2) (ones 1) (ones 1)
              (Fin 1) true (Fin (1 / 2)) (1 / 2) (seed 1) 1%Z
              (set_weights unit_hebb [[Fin (0 + 1 * (1 * 2) + 1 * (1 / 2) * (1 * 1))]])
              (Fin (1 * (1 / 2) * (1 / 2)))
              trainable_two_samples) as (cB & HB);
    [lra | apply Rtrunc_two_halves | reflexivity |].
  eexists. eexists. split; [exact HA|]. split; [exact HB|].
  repeat (split; [reflexivity|]).
  simpl. intros H. inversion H. lra.
Qed.

(* ----------------------------------------------------------------- *)
(** ** Normalisation after learning *)

Lemma nan_to_zero_normalized (W : matrix) :
  nan_to_zero (map normalized_row W) = map renormalized W.
Proof. unfold nan_to_zero, renormalized. rewrite map_map. reflexivity. Qed.

Lemma sum_squares_nonneg (rs : list R) : 0 <= sum_squares rs.
Proof. induction rs as [|r rs IH]; simpl; [lra | nra]. Qed.

Lemma sum_squares_zero (rs : list R) : sum_squares rs = 0 -> Forall (fun r => r = 0) rs.
Proof.
  induction rs as [|r rs IH]; simpl; intros H; constructor.
  - pose proof (sum_squares_nonneg rs). nra.
  - apply IH. pose proof (sum_squares_nonneg rs). nra.
Qed.

Lemma sum_squares_scaled (c : R) (rs : list R) :
  c <> 0 -> sum_squares (map (fun r => r / c) rs) = sum_squares rs / (c * c).
Proof.
  intros Hc. induction rs as [|r rs IH]; simpl.
  - unfold Rdiv. now rewrite Rmult_0_l.
  - rewrite IH. field. exact Hc.
Qed.

Lemma overflowed_absorbs (a x : num) : overflowed a -> overflowed (nadd a x).
Proof. intros [-> | ->]; destruct x; simpl; unfold overflowed; auto. Qed.

Lemma fold_nadd_overflowed (l : vector) :
  forall a, overflowed a -> overflowed (fold_left nadd l a).
Proof.
  induction l as [|x l IH]; intros a Ha; simpl; [exact Ha|].
  apply IH, overflowed_absorbs, Ha.
Qed.

Lemma square_overflowed (a : num) : ~ finite a -> overflowed (nmul a a).
Proof. destruct a; simpl; unfold overflowed; auto. intros H. exfalso. apply H. exact I. Qed.

(** The sum of the squares of a row is the real sum when every entry is
    finite, and it overflowed otherwise. *)
Lemma sum_of_squares_cases (row : vector) :
  forall s,
    (exists rs, row = map Fin rs
                /\ fold_left nadd (map (fun a => nmul a a) row) (Fin s)
                   = Fin (s + sum_squares rs))
    \/ overflowed (fold_left nadd (map (fun a => nmul a a) row) (Fin s)).
Proof.
  induction row as [|a row IH]; intros s.
  - left. exists []. simpl. split; [reflexivity | f_equal; lra].
  - destruct a as [r | | |].
    + destruct (IH (s + r * r)) as [(rs & -> & Hsum) | Hov].
      * left. exists (r :: rs). simpl. split; [reflexivity|].
        simpl in Hsum. rewrite Hsum. f_equal. lra.
      * right. exact Hov.
    + right. cbn [map fold_left]. apply fold_nadd_overflowed. simpl.
      unfold overflowed. auto.
    + right. cbn [map fold_left]. apply fold_nadd_overflowed. simpl.
      unfold overflowed. auto.
    + right. cbn [map fold_left]. apply fold_nadd_overflowed. simpl.
      unfold overflowed. auto.
Qed.

Lemma fix_nan_div_overflowed (a N : num) :
  overflowed N -> fix_nan (ndiv a N) = Fin 0.
Proof. intros [-> | ->]; destruct a; reflexivity. Qed.

Lemma row_norm_finite (rs : list R) :
  row_norm (map Fin rs) = Fin (sqrt (sum_squares rs)).
Proof.
  unfold row_norm, np_sum.
  destruct (sum_of_squares_cases (map Fin rs) 0) as [(rs' & Heq & Hsum) | Hov].
  - assert (rs' = rs).
    { clear Hsum. revert rs' Heq. induction rs as [|r rs IH]; intros [|r' rs'] H;
        simpl in H; try discriminate; [reflexivity|].
      inversion H. f_equal. apply IH. assumption. }
    subst rs'. rewrite Hsum. simpl.
    pose proof (sum_squares_nonneg rs).
    destruct (Rlt_dec (0 + sum_squares rs) 0); [lra|].
    do 2 f_equal. lra.
  - exfalso. revert Hov. generalize 0 at 1.
    induction rs as [|r rs IH]; intros s [H | H]; simpl in H; try discriminate.
    + apply (IH (s + r * r)). left. exact H.
    + apply (IH (s + r * r)). right. exact H.
Qed.

(** After normalising and repairing, a row has norm exactly 1 or is the
    zero row. *)
Lemma renormalized_unit_or_zero (row : vector) :
  row_norm (renormalized row) = Fin 1
  \/ Forall (fun a => a = Fin 0) (renormalized row).
Proof.
  unfold renormalized, normalized_row.
  destruct (sum_of_squares_cases row 0) as [(rs & -> & _) | Hov].
  - rewrite row_norm_finite. rewrite !map_map.
    pose proof (sum_squares_nonneg rs) as Hpos.
    destruct (Req_dec_T (sqrt (sum_squares rs)) 0) as [H0 | Hc].
    + right. pose proof H0 as Hnorm.
      apply sqrt_eq_0 in H0; [|exact Hpos].
      apply sum_squares_zero in H0.
      apply Forall_forall. intros a Ha. apply in_map_iff in Ha.
      destruct Ha as (r & <- & Hr). rewrite Forall_forall in H0.
      rewrite (H0 r Hr). simpl.
      destruct (Req_dec_T (sqrt (sum_squares rs)) 0) as [_ | Hne]; [|contradiction].
      unfold Rsign. destruct (Req_dec_T 0 0) as [_ | Hne]; [reflexivity|].
      exfalso. apply Hne. reflexivity.
    + left.
      assert (Hmap : map (fun r => fix_nan (ndiv (Fin r) (Fin (sqrt (sum_squares rs))))) rs
                     = map Fin (map (fun r => r / sqrt (sum_squares rs)) rs)).
      { rewrite map_map. apply map_ext. intros r. simpl.
        destruct (Req_dec_T (sqrt (sum_squares rs)) 0); [contradiction | reflexivity]. }
      rewrite Hmap, row_norm_finite, sum_squares_scaled by exact Hc.
      rewrite sqrt_sqrt by exact Hpos.
      f_equal. rewrite <- sqrt_1. f_equal. field.
      intros Hz. apply Hc. rewrite Hz. apply sqrt_0.
  - right. apply Forall_forall. intros a Ha.
    apply in_map_iff in Ha. destruct Ha as (b & <- & Hb).
    apply in_map_iff in Hb. destruct Hb as (c & <- & _).
    apply fix_nan_div_overflowed.
    unfold row_norm, np_sum. destruct Hov as [-> | ->]; unfold overflowed; simpl; auto.
Qed.

(** What normalising and repairing makes of a row [u], by the norm of
    [u]: a finite non-zero norm [r] gives [u / r], of norm 1; a zero or
    non-finite norm gives the zero row. *)
Lemma renormalized_cases (u : vector) :
  (forall r, row_norm u = Fin r -> r <> 0 ->
     row_norm (renormalized u) = Fin 1
     /\ renormalized u = map (fun a => ndiv a (Fin r)) u)
  /\ (row_norm u = Fin 0 \/ ~ finite (row_norm u) ->
      renormalized u = map (fun _ => Fin 0) u).
Proof.
  destruct (sum_of_squares_cases u 0) as [(rs & -> & _) | Hov].
  - pose proof (sum_squares_nonneg rs) as Hpos.
    unfold renormalized, normalized_row. rewrite row_norm_finite. split.
    + intros r Hr Hne. inversion Hr as [Hr']. rewrite Hr'.
      assert (Hmap : map fix_nan (map (fun a => ndiv a (Fin r)) (map Fin rs))
                     = map Fin (map (fun a => a / r) rs)).
      { rewrite !map_map. apply map_ext. intros a. simpl.
        destruct (Req_dec_T r 0); [contradiction | reflexivity]. }
      split.
      * rewrite Hmap, row_norm_finite, sum_squares_scaled by exact Hne.
        rewrite <- Hr', sqrt_sqrt by exact Hpos.
        f_equal. rewrite <- sqrt_1. f_equal. field.
        intros Hz. apply Hne. rewrite <- Hr', Hz. apply sqrt_0.
      * rewrite Hmap, !map_map. apply map_ext. intros a. simpl.
        destruct (Req_dec_T r 0); [contradiction | reflexivity].
    + intros [H0 | Hnf]; [|exfalso; apply Hnf; exact I].
      inversion H0 as [H0']. rewrite H0'.
      apply sqrt_eq_0 in H0'; [|exact Hpos].
      apply sum_squares_zero in H0'. rewrite Forall_forall in H0'.
      rewrite !map_map. apply map_ext_in. intros a Ha.
      rewrite (H0' a Ha). simpl.
      destruct (Req_dec_T 0 0) as [_ | Hne]; [|exfalso; apply Hne; reflexivity].
      unfold Rsign. destruct (Req_dec_T 0 0) as [_ | Hne]; [reflexivity|].
      exfalso. apply Hne. reflexivity.
  - assert (Hnorm : overflowed (row_norm u)).
    { unfold row_norm, np_sum. destruct Hov as [-> | ->]; unfold overflowed; simpl; auto. }
    split.
    + intros r Hr _. destruct Hnorm as [H | H]; rewrite H in Hr; discriminate.
    + intros _. unfold renormalized, normalized_row. rewrite map_map.
      apply map_ext. intros a. apply fix_nan_div_overflowed. exact Hnorm.
Qed.

(** C4, as the code has it.  On a layer with [normalize] set (the Oja
    configuration; any of the three rules), a [learn] call with inputs
    of the layer's lengths returns, and afterwards every row of the
    weight matrix has L2 norm exactly 1 or is exactly the zero row.
    Which of the two is decided by the row [u] the rule's update left,
    whatever the row held before: when the norm of [u] is a finite
    non-zero number [r], the row becomes [u / r] and has norm 1; when
    the norm of [u] is zero or not finite, the row becomes the zero row
    (the division gives not-a-number or zero, and the repair stores
    zero). *)
Theorem learn_normalized_rows_unit_or_zero (m n : nat) (self : Layer)
    (x y : vector) (eta : num) :
  has_shape m n (weights self) ->
  In (learning self) [r_hebb; r_decay; r_ojas] ->
  normalize self = true ->
  length x = n -> length y = m ->
  exists self' W',
    learning self (weights self) x y eta = Ok W'
    /\ learn self x y eta = (self', Ok tt)
    /\ has_shape m n (weights self')
    /\ Forall (fun row => row_norm row = Fin 1 \/ Forall (fun a => a = Fin 0) row)
              (weights self')
    /\ forall i u,
         nth_error W' i = Some u ->
         exists row,
           nth_error (weights self') i = Some row
           /\ (forall r, row_norm u = Fin r -> r <> 0 ->
                 row_norm row = Fin 1 /\ row = map (fun a => ndiv a (Fin r)) u)
           /\ (row_norm u = Fin 0 \/ ~ finite (row_norm u) ->
               row = map (fun _ => Fin 0) u).
Proof.
  intros HW Hr Hn Hx Hy.
  destruct (rule_keeps_shape m n (weights self) x y eta HW Hx Hy _ Hr)
    as (W' & HW' & Hshape).
  exists (after_rule self W'), W'. split; [exact HW'|].
  split; [apply learn_eq, HW'|].
  unfold after_rule. rewrite Hn. cbn [weights set_weights].
  split; [apply has_shape_nan_to_zero, has_shape_normalized, Hshape|].
  rewrite nan_to_zero_normalized. split.
  - apply Forall_forall.
    intros row Hrow. apply in_map_iff in Hrow. destruct Hrow as (r0 & <- & _).
    apply renormalized_unit_or_zero.
  - intros i u Hu. exists (renormalized u). split.
    + exact (map_nth_error renormalized i W' Hu).
    + apply renormalized_cases.
Qed.

Lemma learn_oja_unit (w x y eta : R) :
  learn (oja_unit w) [Fin x] [Fin y] (Fin eta)
  = (mkLayer (1%Z, 1%Z) linear r_ojas true
       [renormalized [Fin (w + eta * ((x + - (w * y)) * y))]], Ok tt).
Proof.
  rewrite (learn_eq _ _ _ _ [[Fin (w + eta * ((x + - (w * y)) * y))]]).
  - unfold after_rule. simpl normalize. cbv iota.
    rewrite set_weights_twice, nan_to_zero_normalized. reflexivity.
  - reflexivity.
Qed.

Lemma renormalized_one : renormalized [Fin 1] = [Fin 1].
Proof.
  unfold renormalized, normalized_row.
  change [Fin 1] with (map Fin [1]) at 1. rewrite row_norm_finite. simpl sum_squares.
  replace (1 * 1 + 0) with 1 by lra. rewrite sqrt_1. simpl.
  destruct (Req_dec_T 1 0) as [H | _]; [exfalso; lra|].
  unfold fix_nan. simpl. do 2 f_equal. lra.
Qed.

Lemma row_norm_zero : row_norm [Fin 0] = Fin 0.
Proof.
  change [Fin 0] with (map Fin [0]). rewrite row_norm_finite. simpl sum_squares.
  replace (0 * 0 + 0) with 0 by lra. now rewrite sqrt_0.
Qed.

Lemma renormalized_zero : renormalized [Fin 0] = [Fin 0].
Proof.
  unfold renormalized, normalized_row. rewrite row_norm_zero. simpl.
  destruct (Req_dec_T 0 0) as [_ | H]; [|exfalso; apply H; reflexivity].
  unfold Rsign. destruct (Req_dec_T 0 0) as [_ | H]; [reflexivity|].
  exfalso. apply H. reflexivity.
Qed.

(** C4 as stated fails: the single row first receives a non-zero update
    (it goes from 0 to 1) and is then driven back to the zero row by a
    second update; its norm is then 0, not 1. *)
Lemma oja_updated_row_becomes_zero :
  learn (oja_unit 0) [Fin 1] [Fin 1] (Fin 1) = (oja_unit 1, Ok tt)
  /\ weights (oja_unit 1) <> weights (oja_unit 0)
  /\ learn (oja_unit 1) [Fin 0] [Fin 1] (Fin 1) = (oja_unit 0, Ok tt)
  /\ row_norm [Fin 0] <> Fin 1.
Proof.
  split; [|split; [|split]].
  - rewrite learn_oja_unit.
    replace (0 + 1 * ((1 + - (0 * 1)) * 1)) with 1 by lra.
    rewrite renormalized_one. reflexivity.
  - simpl. intros H. inversion H. lra.
  - rewrite learn_oja_unit.
    replace (1 + 1 * ((0 + - (1 * 1)) * 1)) with 0 by lra.
    rewrite renormalized_zero. reflexivity.
  - rewrite row_norm_zero. intros H. inversion H. lra.
Qed.

Lemma learn_normalized_rows_witness :
  exists self' W',
    learning (oja_unit 0) (weights (oja_unit 0)) [Fin 1] [Fin 1] (Fin 1) = Ok W'
    /\ learn (oja_unit 0) [Fin 1] [Fin 1] (Fin 1) = (self', Ok tt)
    /\ has_shape 1 1 (weights self')
    /\ Forall (fun row => row_norm row = Fin 1 \/ Forall (fun a => a = Fin 0) row)
              (weights self')
    /\ forall i u,
         nth_error W' i = Some u ->
         exists row,
           nth_error (weights self') i = Some row
           /\ (forall r, row_norm u = Fin r -> r <> 0 ->
                 row_norm row = Fin 1 /\ row = map (fun a => ndiv a (Fin r)) u)
           /\ (row_norm u = Fin 0 \/ ~ finite (row_norm u) ->
               row = map (fun _ => Fin 0) u).
Proof.
  apply (learn_normalized_rows_unit_or_zero 1 1 (oja_unit 0) [Fin 1] [Fin 1] (Fin 1)).
  - apply has_shape_unit.
  - simpl. auto.
  - reflexivity.
  - reflexivity.
  - reflexivity.
Defined.

Lemma hebb_order_invariance_witness :
  (forall A B : list nat,
      Permutation A (seq 0 (length two_samples)) ->
      Permutation A B ->
      exists self' eta',
        sample_loop two_samples (ones 2) (Rtrunc (INR (length two_samples) * 1))
          (Fin (2 / 5)) A 0 unit_hebb (Fin 1) = (self', eta', Ok tt)
        /\ sample_loop two_samples (ones 2) (Rtrunc (INR (length two_samples) * 1))
             (Fin (2 / 5)) B 0 unit_hebb (Fin 1) = (self', eta', Ok tt))
  /\ (forall gA gB : rng,
        exists stA stB,
          train unit_hebb two_samples (ones 2) (ones 1) (ones 1) 1 (Fin 1) true
            (Fin (2 / 5)) (Fin 1) gA = (stA, Ok (t_hist stA))
          /\ train unit_hebb two_samples (ones 2) (ones 1) (ones 1) 1 (Fin 1) true
               (Fin (2 / 5)) (Fin 1) gB = (stB, Ok (t_hist stB))
          /\ weights (t_self stA) = weights (t_self stB)).
Proof.
  apply (hebb_order_invariance 1 1 unit_hebb two_samples (ones 2) (ones 1) (ones 1)
           (Fin 1) (Fin (2 / 5)) 1).
  - apply trainable_two_samples.
  - reflexivity.
  - reflexivity.
  - lra.
  - replace (INR (length two_samples) * 1) with (IZR 2) by (simpl; lra).
    rewrite Rtrunc_IZR. discriminate.
  - right. replace (INR (length two_samples) * 1) with (IZR 2) by (simpl; lra).
    rewrite Rtrunc_IZR. reflexivity.
Defined.

(* ----------------------------------------------------------------- *)
(** ** Reseeding and the orders of a run *)

Section Reseeding.

Context `{RG : RandomGen}.

(** An epoch loop that ran to its end visited the orders the generator
    hands out from its starting state, whatever the layer learned. *)
Lemma epoch_loop_orders (Xt yt X_val y_val : matrix) (permute : bool) (idxDec : Z)
    (decay : num) (epochs : nat) :
  forall st st',
    epoch_loop Xt yt X_val y_val permute idxDec decay epochs st = (st', Ok tt) ->
    t_orders st' = t_orders st ++ fst (draw_orders permute (length Xt) epochs (t_rng st))
    /\ t_rng st' = snd (draw_orders permute (length Xt) epochs (t_rng st)).
Proof.
  induction epochs as [|epochs IH]; intros st st' H.
  - simpl in H. inversion H; subst. simpl. rewrite app_nil_r. auto.
  - cbn [epoch_loop draw_orders] in *.
    destruct (if permute then permutation (t_rng st) (length Xt)
              else (seq 0 (length Xt), t_rng st)) as [perm g'].
    destruct (sample_loop Xt yt idxDec decay perm 0 (t_self st) (t_eta st))
      as [[self' eta'] [[]|e]]; [|discriminate].
    destruct (runTest X_val y_val (compute self')) as [[correct iw]|e]; [|discriminate].
    apply IH in H. cbn [t_orders t_rng] in H. destruct H as [Ho Hg].
    destruct (draw_orders permute (length Xt) epochs g') as [rest g''].
    simpl in *. rewrite Ho, <- app_assoc. auto.
Qed.

Lemma train_orders (self : Layer) (Xt yt X_val y_val : matrix) (epochs : nat)
    (eta : num) (permute : bool) (decay decayAfter : num) (g : rng)
    (st : tstate) (hist : list num) :
  train self Xt yt X_val y_val epochs eta permute decay decayAfter g = (st, Ok hist) ->
  t_orders st = fst (draw_orders permute (length Xt) epochs g)
  /\ t_rng st = snd (draw_orders permute (length Xt) epochs g).
Proof.
  unfold train. intros H.
  destruct (negb (length Xt =? length yt)%nat); [discriminate|].
  destruct (negb (length X_val =? length y_val)%nat); [discriminate|].
  destruct (negb (nleb decayAfter (Fin 1) && nltb (Fin 0) decayAfter)); [discriminate|].
  destruct (int_of_num (nmul (of_nat (length Xt)) decayAfter)) as [idxDec|e];
    [|discriminate].
  destruct (epoch_loop Xt yt X_val y_val permute idxDec decay epochs (mkT self g eta [] []))
    as [st1 [[]|e]] eqn:Hloop; [|discriminate].
  inversion H; subst. apply epoch_loop_orders in Hloop. exact Hloop.
Qed.

Lemma trainG_orders (self : Layer) (Xt yt X_val y_val : matrix) (epochs : nat)
    (eta : num) (permute : bool) (decay decayAfter : num) (g g' : rng) (st : tstate) :
  trainG self Xt yt X_val y_val epochs eta permute decay decayAfter g = (Ok st, g') ->
  t_orders st = fst (draw_orders permute (length Xt) epochs g).
Proof.
  unfold trainG. intros H.
  destruct (train self Xt yt X_val y_val epochs eta permute decay decayAfter g)
    as [st1 [hist|e]] eqn:Ht; [|discriminate].
  inversion H; subst. apply (train_orders _ _ _ _ _ _ _ _ _ _ _ _ _ Ht).
Qed.

Lemma seedG_inv (s : Z) (g g' : rng) (u : unit) :
  seedG s g = (Ok u, g') -> g' = seed s.
Proof.
  unfold seedG, np_random_seed. intros H.
  destruct ((0 <=? s) && (s <? 2 ^ 32))%Z; inversion H. reflexivity.
Qed.

Section DriverOrders.

Variables (X_train y_train X_val y_val X_test y_test : matrix).
Variables (epochs : nat) (learningRules : rule * rule * rule).
Variables (decayAfter decay : num) (permute : bool).
Variables (N_INPUT N_OUTPUT : Z) (eta : num).

Lemma one_run_orders (run : nat) (acc acc' : experiment) (g g' : rng) :
  one_run X_train y_train X_val y_val X_test y_test epochs learningRules
    decayAfter decay permute N_INPUT N_OUTPUT eta run acc g = (Ok acc', g') ->
  visited acc'
  = append3 (visited acc) (run_orders permute (length X_train) epochs run) (run_orders permute (length X_train) epochs run) (run_orders permute (length X_train) epochs run).
Proof.
  unfold one_run. destruct learningRules as [[rH rD] rO].
  unfold bindG, retG, liftG. intros H.
  destruct (Layer_init N_INPUT N_OUTPUT linear rH false false g) as [[hebb0|e] g1];
    [|discriminate].
  destruct (Layer_init N_INPUT N_OUTPUT linear rD false false g1) as [[deca0|e] g2];
    [|discriminate].
  destruct (Layer_init N_INPUT N_OUTPUT linear rO false true g2) as [[ojas0|e] g3];
    [|discriminate].
  destruct (seedG (Z.of_nat run) g3) as [[u1|e] g4] eqn:S1; [|discriminate].
  apply seedG_inv in S1. subst g4.
  destruct (trainG hebb0 X_train y_train X_val y_val epochs eta permute decay decayAfter
              (seed (Z.of_nat run))) as [[sH|e] g5] eqn:TH; [|discriminate].
  destruct (seedG (Z.of_nat run) g5) as [[u2|e] g6] eqn:S2; [|discriminate].
  apply seedG_inv in S2. subst g6.
  destruct (trainG deca0 X_train y_train X_val y_val epochs eta permute decay decayAfter
              (seed (Z.of_nat run))) as [[sD|e] g7] eqn:TD; [|discriminate].
  destruct (seedG (Z.of_nat run) g7) as [[u3|e] g8] eqn:S3; [|discriminate].
  apply seedG_inv in S3. subst g8.
  destruct (trainG ojas0 X_train y_train X_val y_val epochs eta permute decay decayAfter
              (seed (Z.of_nat run))) as [[sO|e] g9] eqn:TO; [|discriminate].
  destruct (runTest X_test y_test (compute (t_self sH))) as [tH|e]; [|discriminate].
  destruct (runTest X_test y_test (compute (t_self sD))) as [tD|e]; [|discriminate].
  destruct (runTest X_test y_test (compute (t_self sO))) as [tO|e]; [|discriminate].
  inversion H; subst. cbn [visited].
  rewrite (trainG_orders _ _ _ _ _ _ _ _ _ _ _ _ _ TH),
          (trainG_orders _ _ _ _ _ _ _ _ _ _ _ _ _ TD),
          (trainG_orders _ _ _ _ _ _ _ _ _ _ _ _ _ TO).
  reflexivity.
Qed.

Lemma run_loop_orders (runs : list nat) :
  forall (acc e : experiment) (g g' : rng),
    run_loop X_train y_train X_val y_val X_test y_test epochs learningRules
      decayAfter decay permute N_INPUT N_OUTPUT eta runs acc g = (Ok e, g') ->
    hebb (visited e) = hebb (visited acc) ++ map (run_orders permute (length X_train) epochs) runs
    /\ deca (visited e) = deca (visited acc) ++ map (run_orders permute (length X_train) epochs) runs
    /\ ojas (visited e) = ojas (visited acc) ++ map (run_orders permute (length X_train) epochs) runs.
Proof.
  induction runs as [|run runs IH]; intros acc e g g' H.
  - simpl in H. unfold retG in H. inversion H; subst.
    simpl. rewrite !app_nil_r. auto.
  - cbn [run_loop] in H. unfold bindG in H.
    destruct (one_run X_train y_train X_val y_val X_test y_test epochs learningRules
                decayAfter decay permute N_INPUT N_OUTPUT eta run acc g)
      as [[acc1|err] g1] eqn:H1; [|discriminate].
    apply one_run_orders in H1. apply IH in H.
    rewrite H1 in H. cbn [append3 hebb deca ojas map] in *.
    rewrite <- !app_assoc in H. exact H.
Qed.

(** C8.  When [trainNewNetworksAndTest] returns, the orders visited by
    the three rules' [train] calls are the same in every run, and in run
    [run] they are the orders the generator hands out after
    [np.random.seed( run )]: each [train] call was entered right after
    the generator had been reset to that state, and what it draws
    depends on that state alone. *)
Theorem three_rules_visit_identical_orders (runs : nat) (retNetworks : bool)
    (g g' : rng) (e : experiment) :
  trainNewNetworksAndTest X_train y_train X_val y_val X_test y_test epochs learningRules
    decayAfter decay permute N_INPUT N_OUTPUT eta runs retNetworks g = (Ok e, g') ->
  hebb (visited e) = map (run_orders permute (length X_train) epochs) (seq 0 runs)
  /\ deca (visited e) = hebb (visited e)
  /\ ojas (visited e) = hebb (visited e)
  /\ forall (self1 self2 : Layer) (g0 : rng) (st1 st2 : tstate) (h1 h2 : list num),
       train self1 X_train y_train X_val y_val epochs eta permute decay decayAfter g0
       = (st1, Ok h1) ->
       train self2 X_train y_train X_val y_val epochs eta permute decay decayAfter g0
       = (st2, Ok h2) ->
       t_orders st1 = t_orders st2 /\ t_rng st1 = t_rng st2.
Proof.
  unfold trainNewNetworksAndTest. intros H.
  apply run_loop_orders in H. cbn [visited empty3 hebb deca ojas app] in H.
  destruct H as (HH & HD & HO). rewrite HH, HD, HO.
  split; [reflexivity|]. split; [reflexivity|]. split; [reflexivity|].
  intros self1 self2 g0 st1 st2 h1 h2 H1 H2.
  apply train_orders in H1. apply train_orders in H2.
  destruct H1 as [Ho1 Hg1], H2 as [Ho2 Hg2]. split; congruence.
Qed.

End DriverOrders.

End Reseeding.

(* ----------------------------------------------------------------- *)
(** ** When the experiment driver returns *)

Section DriverReturns.

Context `{RG : RandomGen}.

Variables (m n : nat).
Variables (X_train y_train X_val y_val X_test y_test : matrix).
Variables (epochs : nat) (r : R) (decay : num) (permute : bool) (eta : num).

Hypothesis HXt : has_shape (length X_train) n X_train.
Hypothesis Hyt : has_shape (length X_train) m y_train.
Hypothesis HXv : has_shape (length X_val) n X_val.
Hypothesis Hyv : has_shape (length X_val) m y_val.
Hypothesis HXe : has_shape (length X_test) n X_test.
Hypothesis Hye : has_shape (length X_test) m y_test.
Hypothesis Hm : (0 < m)%nat.
Hypothesis Hval : X_val <> [].
Hypothesis Htest : X_test <> [].
Hypothesis Hr : 0 < r <= 1.
Hypothesis HidxDec : Rtrunc (INR (length X_train) * r) <> 0%Z \/ X_train = [].

Lemma Layer_init_zeros (lr : rule) (nrm : bool) (g : rng) :
  Layer_init (Z.of_nat n) (Z.of_nat m) linear lr false nrm g
  = (Ok (mkLayer (Z.of_nat m, Z.of_nat n) linear lr nrm (repeat (repeat (Fin 0) n) m)), g).
Proof.
  unfold Layer_init, np_zeros.
  replace ((Z.of_nat m <? 0) || (Z.of_nat n <? 0))%Z with false.
  - simpl. rewrite !Nat2Z.id. reflexivity.
  - symmetry. apply orb_false_iff. split; apply Z.ltb_ge; lia.
Qed.

Lemma trainG_returns (lr : rule) (nrm : bool) (g : rng) :
  In lr [r_hebb; r_decay; r_ojas] ->
  exists st,
    trainG (mkLayer (Z.of_nat m, Z.of_nat n) linear lr nrm (repeat (repeat (Fin 0) n) m))
      X_train y_train X_val y_val epochs eta permute decay (Fin r) g
    = (Ok st, t_rng st)
    /\ has_shape m n (weights (t_self st))
    /\ aF (t_self st) = linear.
Proof.
  intros Hlr. unfold trainG.
  destruct (train_returns m n
              (mkLayer (Z.of_nat m, Z.of_nat n) linear lr nrm (repeat (repeat (Fin 0) n) m))
              X_train y_train X_val y_val epochs eta permute decay r g)
    as (st & -> & (HW & _ & _ & Haf) & _); auto.
  - constructor; auto.
    + apply has_shape_zeros.
    + apply linear_returns.
  - exists st. auto.
Qed.

Lemma test_returns (self : Layer) :
  has_shape m n (weights self) -> aF self = linear ->
  exists t, runTest X_test y_test (compute self) = Ok t.
Proof.
  intros HW Haf.
  destruct (validation_returns m n X_test y_test HXe Hye Hm Htest self HW)
    as (c & iw & H).
  - rewrite Haf. apply linear_returns.
  - exists (c, iw). exact H.
Qed.

Lemma seedG_returns (run : nat) (g : rng) :
  (Z.of_nat run < 2 ^ 32)%Z -> seedG (Z.of_nat run) g = (Ok tt, seed (Z.of_nat run)).
Proof.
  intros Hrun. unfold seedG, np_random_seed.
  replace ((0 <=? Z.of_nat run) && (Z.of_nat run <? 2 ^ 32))%Z with true; [reflexivity|].
  symmetry. apply andb_true_iff. split; [apply Z.leb_le; lia | apply Z.ltb_lt; exact Hrun].
Qed.

Lemma one_run_returns (run : nat) (acc : experiment) (g : rng) :
  (Z.of_nat run < 2 ^ 32)%Z ->
  exists acc' g',
    one_run X_train y_train X_val y_val X_test y_test epochs (r_hebb, r_decay, r_ojas)
      (Fin r) decay permute (Z.of_nat n) (Z.of_nat m) eta run acc g = (Ok acc', g').
Proof.
  intros Hrun. unfold one_run, bindG, retG, liftG.
  rewrite !Layer_init_zeros, seedG_returns by exact Hrun.
  destruct (trainG_returns r_hebb false (seed (Z.of_nat run))) as (sH & -> & HWH & HaH);
    [simpl; auto|].
  rewrite seedG_returns by exact Hrun.
  destruct (trainG_returns r_decay false (seed (Z.of_nat run))) as (sD & -> & HWD & HaD);
    [simpl; auto|].
  rewrite seedG_returns by exact Hrun.
  destruct (trainG_returns r_ojas true (seed (Z.of_nat run))) as (sO & -> & HWO & HaO);
    [simpl; auto|].
  destruct (test_returns (t_self sH) HWH HaH) as (tH & ->).
  destruct (test_returns (t_self sD) HWD HaD) as (tD & ->).
  destruct (test_returns (t_self sO) HWO HaO) as (tO & ->).
  eexists. eexists. reflexivity.
Qed.

Lemma run_loop_returns (runs : list nat) :
  Forall (fun run => (Z.of_nat run < 2 ^ 32)%Z) runs ->
  forall (acc : experiment) (g : rng),
  exists e g',
    run_loop X_train y_train X_val y_val X_test y_test epochs (r_hebb, r_decay, r_ojas)
      (Fin r) decay permute (Z.of_nat n) (Z.of_nat m) eta runs acc g = (Ok e, g').
Proof.
  induction 1 as [|run runs Hrun _ IH]; intros acc g.
  - exists acc, g. reflexivity.
  - cbn [run_loop]. unfold bindG.
    destruct (one_run_returns run acc g Hrun) as (acc1 & g1 & ->).
    apply IH.
Qed.

End DriverReturns.

Lemma has_shape_two_samples : has_shape 2 1 two_samples.
Proof. split; [reflexivity | repeat constructor]. Qed.

Lemma Rtrunc_two_samples_whole : Rtrunc (INR (length two_samples) * 1) <> 0%Z.
Proof.
  replace (INR (length two_samples) * 1) with (IZR 2) by (simpl; lra).
  rewrite Rtrunc_IZR. discriminate.
Qed.

Lemma two_runs_return :
  exists e g',
    trainNewNetworksAndTest two_samples (ones 2) (ones 1) (ones 1) (ones 1) (ones 1)
      1 (r_hebb, r_decay, r_ojas) (Fin 1) (Fin 1) true 1 1 (Fin 1) 2 false (seed 0)
    = (Ok e, g').
Proof.
  apply (run_loop_returns 1 1 two_samples (ones 2) (ones 1) (ones 1) (ones 1) (ones 1)
           1 1 (Fin 1) true (Fin 1)).
  - apply has_shape_two_samples.
  - apply (has_shape_ones 2).
  - apply (has_shape_ones 1).
  - apply (has_shape_ones 1).
  - apply (has_shape_ones 1).
  - apply (has_shape_ones 1).
  - lia.
  - discriminate.
  - discriminate.
  - lra.
  - left. apply Rtrunc_two_samples_whole.
  - repeat constructor; simpl; lia.
Qed.

Lemma three_rules_visit_identical_orders_witness :
  exists e g',
    trainNewNetworksAndTest two_samples (ones 2) (ones 1) (ones 1) (ones 1) (ones 1)
      1 (r_hebb, r_decay, r_ojas) (Fin 1) (Fin 1) true 1 1 (Fin 1) 2 false (seed 0)
    = (Ok e, g')
    /\ hebb (visited e) = [[[0; 1]]; [[1; 0]]]%nat
    /\ deca (visited e) = hebb (visited e)
    /\ ojas (visited e) = hebb (visited e).
Proof.
  destruct two_runs_return as (e & g' & He).
  exists e, g'. split; [exact He|].
  destruct (three_rules_visit_identical_orders two_samples (ones 2) (ones 1) (ones 1)
              (ones 1) (ones 1) 1 (r_hebb, r_decay, r_ojas) (Fin 1) (Fin 1) true 1 1
              (Fin 1) 2 false (seed 0) g' e He) as (HH & HD & HO & _).
  split; [rewrite HH; reflexivity|]. split; assumption.
Defined.

(* ================================================================= *)
(** * Further properties of the code *)

(* ----------------------------------------------------------------- *)
(** ** What [runTest] returns *)

Lemma where_false_nth (comp : list bool) :
  forall k i, In i (where_false k comp) ->
  exists j, i = (k + j)%nat /\ nth_error comp j = Some false.
Proof.
  induction comp as [|c comp IH]; intros k i Hin; simpl in Hin; [contradiction|].
  destruct c.
  - destruct (IH (S k) i Hin) as (j & -> & Hj). exists (S j). split; [lia | exact Hj].
  - destruct Hin as [<- | Hin].
    + exists 0%nat. split; [lia | reflexivity].
    + destruct (IH (S k) i Hin) as (j & -> & Hj). exists (S j). split; [lia | exact Hj].
Qed.

Lemma where_false_lower (comp : list bool) :
  forall k i, In i (where_false k comp) -> (k <= i)%nat.
Proof. intros k i Hin. destruct (where_false_nth comp k i Hin) as (j & -> & _). lia. Qed.

Lemma where_false_sorted (comp : list bool) :
  forall k, StronglySorted lt (where_false k comp).
Proof.
  induction comp as [|c comp IH]; intros k; simpl; [constructor|].
  destruct c; [apply IH|].
  constructor; [apply IH|].
  apply Forall_forall. intros i Hi. apply where_false_lower in Hi. lia.
Qed.

Lemma map2_nth_inv {A B C : Type} (f : A -> B -> C) (u : list A) (v : list B) :
  forall i c, nth_error (map2 f u v) i = Some c ->
  exists a b, nth_error u i = Some a /\ nth_error v i = Some b /\ c = f a b.
Proof.
  revert v. induction u as [|a0 u IH]; intros [|b0 v] [|i] c H; simpl in *;
    try discriminate.
  - inversion H. exists a0, b0. auto.
  - apply IH. exact H.
Qed.

Lemma mapM_nth_inv {A B : Type} (f : A -> result B) (l : list A) (l' : list B) :
  mapM f l = Ok l' ->
  forall i b, nth_error l' i = Some b ->
  exists a, nth_error l i = Some a /\ f a = Ok b.
Proof.
  intros H i b Hb.
  assert (Hi : (i < length l)%nat).
  { rewrite <- (mapM_length _ _ _ H). apply nth_error_Some. congruence. }
  destruct (nth_error l i) as [a|] eqn:Ha; [|apply nth_error_None in Ha; lia].
  destruct (mapM_nth _ _ _ H i a Ha) as (b' & Hf & Hb').
  exists a. split; [reflexivity|]. congruence.
Qed.

Lemma runTest_accuracy_bounds (X y : matrix)
    (cmp : vector -> result vector) (correct : num) (indexWrong : list nat) :
  runTest X y cmp = Ok (correct, indexWrong) ->
  X <> []
  /\ (length indexWrong <= length X)%nat
  /\ exists c, correct = Fin c
               /\ c = INR (length X - length indexWrong) / INR (length X)
               /\ 0 <= c <= 1.
Proof.
  intros Hrun.
  pose proof (runTest_accuracy X y cmp correct indexWrong Hrun) as Hacc.
  destruct (runTest_inv X y cmp correct indexWrong Hrun)
    as (yd & preds & Hlen & Hyd & Hpreds & Hne & _ & Hw).
  pose proof (mapM_length _ _ _ Hyd) as Lyd.
  pose proof (mapM_length _ _ _ Hpreds) as Lp.
  assert (HN : length X <> 0%nat).
  { rewrite Hlen, <- Lyd. destruct yd; [congruence | discriminate]. }
  assert (Hwle : (length indexWrong <= length X)%nat).
  { pose proof (count_true_where_false (compare_preds preds yd) 0 0) as Hc.
    rewrite <- Hw in Hc.
    assert (Lc : length (compare_preds preds yd) = length X).
    { unfold compare_preds. rewrite map2_length; congruence. }
    lia. }
  split; [destruct X; [contradiction | discriminate]|].
  split; [exact Hwle|].
  exists (INR (length X - length indexWrong) / INR (length X)).
  assert (HposN : 0 < INR (length X)) by (apply lt_0_INR; lia).
  split; [|split; [reflexivity|]].
  - rewrite Hacc. unfold of_nat, ndiv.
    destruct (Req_dec_T (INR (length X)) 0) as [H0 | _]; [lra | reflexivity].
  - assert (Hle : INR (length X - length indexWrong) <= INR (length X))
      by (apply le_INR; lia).
    pose proof (pos_INR (length X - length indexWrong)) as Hge.
    split.
    + apply Rmult_le_pos; [exact Hge | left; apply Rinv_0_lt_compat; exact HposN].
    + apply (Rmult_le_reg_r (INR (length X))); [exact HposN|].
      unfold Rdiv. rewrite Rmult_assoc, Rinv_l by lra. lra.
Qed.

(** X1.  When [runTest] returns, the dataset is not empty and the
    accuracy is the finite number [(N - w) / N], where [N] is the number
    of samples and [w <= N] the number of indices reported wrong; so it
    lies between 0 and 1. *)
Theorem runTest_accuracy_is_share_of_unreported (X y : matrix)
    (cmp : vector -> result vector) (correct : num) (indexWrong : list nat) :
  runTest X y cmp = Ok (correct, indexWrong) ->
  X <> []
  /\ (length indexWrong <= length X)%nat
  /\ exists c, correct = Fin c
               /\ c = INR (length X - length indexWrong) / INR (length X)
               /\ 0 <= c <= 1.
Proof. apply runTest_accuracy_bounds. Qed.

(** X2.  When [runTest] returns, [indexWrong] is strictly ascending, and
    an index is in it exactly when it is the position of a sample whose
    prediction compares unequal to the digit of its label row. *)
Theorem runTest_indexWrong_are_the_mismatches (X y : matrix)
    (cmp : vector -> result vector) (correct : num) (indexWrong : list nat) :
  runTest X y cmp = Ok (correct, indexWrong) ->
  StronglySorted lt indexWrong
  /\ forall i,
       In i indexWrong <->
       exists x p row d,
         nth_error X i = Some x /\ predict cmp x = Ok p
         /\ nth_error y i = Some row /\ np_argmax row = Ok d
         /\ neqb p (of_nat d) = false.
Proof.
  intros Hrun.
  destruct (runTest_inv X y cmp correct indexWrong Hrun)
    as (yd & preds & Hlen & Hyd & Hpreds & _ & _ & ->).
  split; [apply where_false_sorted|].
  intros i. split.
  - intros Hin. destruct (where_false_nth _ 0 i Hin) as (j & -> & Hj). simpl.
    unfold compare_preds in Hj.
    destruct (map2_nth_inv _ _ _ j false Hj) as (p & d & Hp & Hd & Hcmp).
    destruct (mapM_nth_inv _ _ _ Hpreds j p Hp) as (x & Hx & Hpx).
    destruct (mapM_nth_inv _ _ _ Hyd j d Hd) as (row & Hrow & Hdr).
    exists x, p, row, d. auto.
  - intros (x & p & row & d & Hx & Hp & Hrow & Hd & Hcmp).
    destruct (mapM_nth _ _ _ Hpreds i x Hx) as (p' & Hp' & Hpi).
    destruct (mapM_nth _ _ _ Hyd i row Hrow) as (d' & Hd' & Hdi).
    assert (p' = p) by congruence. assert (d' = d) by congruence. subst.
    apply (where_false_In _ 0 i).
    unfold compare_preds. rewrite (map2_nth _ _ _ i p d Hpi Hdi). now rewrite Hcmp.
Qed.

Lemma signed_layer_test_returns :
  exists correct indexWrong,
    runTest [[Fin 1]; [Fin 1]] [[Fin 1; Fin 0; Fin 0]; [Fin 0; Fin 1; Fin 0]]
      (compute signed_layer) = Ok (correct, indexWrong).
Proof.
  apply runTest_returns.
  - reflexivity.
  - discriminate.
  - repeat constructor; discriminate.
  - intros x [<- | [<- | []]]; eexists; reflexivity.
Qed.

Lemma runTest_accuracy_witness :
  exists correct indexWrong,
    runTest [[Fin 1]; [Fin 1]] [[Fin 1; Fin 0; Fin 0]; [Fin 0; Fin 1; Fin 0]]
      (compute signed_layer) = Ok (correct, indexWrong)
    /\ (length indexWrong <= 2)%nat
    /\ exists c, correct = Fin c
                 /\ c = INR (2 - length indexWrong) / INR 2
                 /\ 0 <= c <= 1.
Proof.
  destruct signed_layer_test_returns as (correct & indexWrong & Hrun).
  exists correct, indexWrong. split; [exact Hrun|].
  apply (runTest_accuracy_is_share_of_unreported _ _ _ _ _ Hrun).
Defined.

Lemma runTest_indexWrong_witness :
  exists correct indexWrong,
    runTest [[Fin 1]; [Fin 1]] [[Fin 1; Fin 0; Fin 0]; [Fin 0; Fin 1; Fin 0]]
      (compute signed_layer) = Ok (correct, indexWrong)
    /\ StronglySorted lt indexWrong.
Proof.
  destruct signed_layer_test_returns as (correct & indexWrong & Hrun).
  exists correct, indexWrong. split; [exact Hrun|].
  apply (runTest_indexWrong_are_the_mismatches _ _ _ _ _ Hrun).
Defined.

(* ----------------------------------------------------------------- *)
(** ** Predictions: the softmax step and ties *)

Lemma nleb_fin (a b : R) : nleb (Fin a) (Fin b) = true <-> a <= b.
Proof.
  unfold nleb. simpl.
  destruct (Rlt_dec a b), (Req_dec_T a b); simpl; split; intros H;
    try reflexivity; try discriminate; lra.
Qed.

Lemma nleb_fin_mono (g : R -> R) (a b : R) :
  (forall u v, u < v -> g u < g v) ->
  nleb (Fin (g a)) (Fin (g b)) = nleb (Fin a) (Fin b).
Proof.
  intros Hg.
  destruct (nleb (Fin a) (Fin b)) eqn:Hab.
  - apply nleb_fin. apply nleb_fin in Hab.
    destruct Hab as [Hlt | ->]; [left; apply Hg; exact Hlt | right; reflexivity].
  - destruct (nleb (Fin (g a)) (Fin (g b))) eqn:Hgab; [|reflexivity].
    apply nleb_fin in Hgab.
    assert (Hba : b < a).
    { destruct (Rlt_dec b a) as [H | H]; [exact H|].
      assert (Hle : a <= b) by lra. apply nleb_fin in Hle. congruence. }
    apply Hg in Hba. lra.
Qed.

(** The scan of [np.argmax] sees the same order before and after a
    strictly increasing map. *)
Lemma argmax_loop_mono (g : R -> R) (l : list R) :
  (forall u v, u < v -> g u < g v) ->
  forall m best i,
    argmax_loop (Fin (g m)) best i (map Fin (map g l))
    = argmax_loop (Fin m) best i (map Fin l).
Proof.
  intros Hg. induction l as [|a l IH]; intros m best i; cbn [map argmax_loop].
  - reflexivity.
  - rewrite (nleb_fin_mono g a m Hg).
    destruct (nleb (Fin a) (Fin m)); cbn [isnan]; apply IH.
Qed.

Lemma fold_nmax_finite (rs : list R) :
  forall r, exists M, fold_left nmax (map Fin rs) (Fin r) = Fin M.
Proof.
  induction rs as [|a rs IH]; intros r; cbn [map fold_left].
  - exists r. reflexivity.
  - unfold nmax. cbn [isnan nltb]. destruct (Rlt_dec r a); apply IH.
Qed.

Lemma np_sum_finite (ps : list R) :
  forall s, fold_left nadd (map Fin ps) (Fin s) = Fin (fold_left Rplus ps s).
Proof. induction ps as [|p ps IH]; intros s; simpl; [reflexivity | apply IH]. Qed.

Lemma fold_Rplus_pos (ps : list R) :
  Forall (fun p => 0 < p) ps -> forall s, 0 <= s -> s <= fold_left Rplus ps s.
Proof.
  induction 1 as [|p ps Hp _ IH]; intros s Hs; simpl; [lra|].
  specialize (IH (s + p)). lra.
Qed.

(** On a non-empty vector of finite numbers [softmax] is the entry-wise
    image under a strictly increasing function. *)
Lemma softmax_finite (r : R) (rs : list R) :
  exists g : R -> R,
    (forall u v, u < v -> g u < g v)
    /\ softmax (map Fin (r :: rs)) = Ok (map Fin (map g (r :: rs))).
Proof.
  destruct (fold_nmax_finite rs r) as [M HM].
  set (ps := map (fun a => exp (a + - M)) (r :: rs)).
  set (S := fold_left Rplus ps 0).
  assert (HS : 0 < S).
  { unfold S, ps. cbn [map fold_left].
    pose proof (exp_pos (r + - M)) as Hp.
    pose proof (fold_Rplus_pos (map (fun a => exp (a + - M)) rs)) as Hf.
    specialize (Hf ltac:(apply Forall_forall; intros p Hin; apply in_map_iff in Hin;
                         destruct Hin as (a & <- & _); apply exp_pos)
                   (0 + exp (r + - M)) ltac:(lra)).
    lra. }
  exists (fun a => exp (a + - M) / S). split.
  - intros u v Huv. unfold Rdiv. apply Rmult_lt_compat_r.
    + apply Rinv_0_lt_compat. exact HS.
    + apply exp_increasing. lra.
  - unfold softmax. cbn [map np_max]. rewrite HM. cbn [bind].
    assert (He : map nexp (map (fun a => nsub a (Fin M)) (Fin r :: map Fin rs))
                 = map Fin ps).
    { unfold ps. cbn [map]. f_equal. rewrite !map_map. reflexivity. }
    change (Fin r :: map Fin rs) with (map Fin (r :: rs)) in He |- *.
    cbn [map] in He |- *. rewrite He.
    unfold np_sum. rewrite np_sum_finite. fold S.
    f_equal. unfold ps. rewrite !map_map. cbn [map]. 
    assert (Hd : forall a, ndiv (nexp (nsub (Fin a) (Fin M))) (Fin S)
                           = Fin (exp (a + - M) / S)).
    { intros a. simpl. destruct (Req_dec_T S 0); [lra | reflexivity]. }
    rewrite Hd. f_equal. apply map_ext. intros a. apply Hd.
Qed.

Lemma predict_finite (cmp : vector -> result vector) (x : vector) (rs : list R) :
  cmp x = Ok (map Fin rs) ->
  neqb (np_sum (map Fin rs)) (Fin 0) = false ->
  exists k, np_argmax (map Fin rs) = Ok k /\ predict cmp x = Ok (of_nat k).
Proof.
  intros Hc Hsum. unfold predict. rewrite Hc. cbn [bind]. rewrite Hsum.
  destruct rs as [|r rs].
  - change (np_sum (map Fin [])) with (Fin 0) in Hsum.
    rewrite neqb_refl_fin in Hsum. discriminate.
  - destruct (softmax_finite r rs) as (g & Hg & ->). cbn [bind].
    cbn [map np_argmax isnan bind].
    rewrite (argmax_loop_mono g rs Hg).
    eexists. split; reflexivity.
Qed.

(** X3.  For an output vector of finite numbers whose sum is not zero,
    the prediction [np.argmax( softmax( predvec ) )] is
    [np.argmax( predvec )]: over exact arithmetic the softmax step
    changes no prediction. *)
Theorem predict_is_argmax_of_raw_output (cmp : vector -> result vector)
    (x : vector) (rs : list R) :
  cmp x = Ok (map Fin rs) ->
  neqb (np_sum (map Fin rs)) (Fin 0) = false ->
  exists k, np_argmax (map Fin rs) = Ok k /\ predict cmp x = Ok (of_nat k).
Proof. apply predict_finite. Qed.

(** The layer with weights [[2.0], [1.0], [2.0]]: on [[1.0]] it outputs
    [[2, 1, 2]], a tie between classes 0 and 2. *)
Lemma tie_layer_output :
  compute (mkLayer (3%Z, 1%Z) linear r_hebb false [[Fin 2]; [Fin 1]; [Fin 2]]) [Fin 1]
  = Ok (map Fin [0 + 2 * 1; 0 + 1 * 1; 0 + 2 * 1]).
Proof. reflexivity. Qed.

Lemma tie_layer_sum :
  neqb (np_sum (map Fin [0 + 2 * 1; 0 + 1 * 1; 0 + 2 * 1])) (Fin 0) = false.
Proof.
  change (np_sum (map Fin [0 + 2 * 1; 0 + 1 * 1; 0 + 2 * 1]))
    with (Fin (0 + (0 + 2 * 1) + (0 + 1 * 1) + (0 + 2 * 1))).
  apply neqb_fin_false. lra.
Qed.

Lemma predict_is_argmax_witness :
  exists k,
    np_argmax (map Fin [0 + 2 * 1; 0 + 1 * 1; 0 + 2 * 1]) = Ok k
    /\ predict (compute (mkLayer (3%Z, 1%Z) linear r_hebb false
                           [[Fin 2]; [Fin 1]; [Fin 2]])) [Fin 1] = Ok (of_nat k).
Proof.
  apply (predict_is_argmax_of_raw_output _ [Fin 1] [0 + 2 * 1; 0 + 1 * 1; 0 + 2 * 1]).
  - apply tie_layer_output.
  - apply tie_layer_sum.
Defined.

Lemma argmax_loop_spec (l : list R) :
  forall m best i,
    (argmax_loop (Fin m) best i (map Fin l) = best /\ forall b, In b l -> b <= m)
    \/ exists j a,
         argmax_loop (Fin m) best i (map Fin l) = (i + j)%nat
         /\ nth_error l j = Some a /\ m < a
         /\ (forall b, In b l -> b <= a)
         /\ (forall j' b, (j' < j)%nat -> nth_error l j' = Some b -> b < a).
Proof.
  induction l as [|a l IH]; intros m best i; cbn [map argmax_loop].
  - left. split; [reflexivity | intros b []].
  - destruct (nleb (Fin a) (Fin m)) eqn:Hle.
    + apply nleb_fin in Hle.
      destruct (IH m best (S i)) as [[Hk Hall] | (j & a' & Hk & Hj & Hlt & Hall & Hfirst)].
      * left. split; [exact Hk|]. intros b [<- | Hb]; auto.
      * right. exists (S j), a'. rewrite Hk.
        split; [lia|]. split; [exact Hj|]. split; [exact Hlt|]. split.
        -- intros b [<- | Hb]; [lra | auto].
        -- intros [|j'] b Hlt' Hb; simpl in Hb.
           ++ inversion Hb; subst. lra.
           ++ apply (Hfirst j' b); [lia | exact Hb].
    + assert (Hma : m < a).
      { destruct (Rlt_dec m a) as [H | H]; [exact H|].
        assert (H' : a <= m) by lra. apply nleb_fin in H'. congruence. }
      cbn [isnan].
      destruct (IH a i (S i)) as [[Hk Hall] | (j & a' & Hk & Hj & Hlt & Hall & Hfirst)].
      * right. exists 0%nat, a. rewrite Hk.
        split; [lia|]. split; [reflexivity|]. split; [exact Hma|]. split.
        -- intros b [<- | Hb]; [lra | auto].
        -- intros j' b Hlt'. lia.
      * right. exists (S j), a'. rewrite Hk.
        split; [lia|]. split; [exact Hj|]. split; [lra|]. split.
        -- intros b [<- | Hb]; [lra | auto].
        -- intros [|j'] b Hlt' Hb; simpl in Hb.
           ++ inversion Hb; subst. lra.
           ++ apply (Hfirst j' b); [lia | exact Hb].
Qed.

Lemma np_argmax_first_maximum (rs : list R) (k : nat) :
  np_argmax (map Fin rs) = Ok k ->
  exists a,
    nth_error rs k = Some a
    /\ (forall b, In b rs -> b <= a)
    /\ (forall j b, (j < k)%nat -> nth_error rs j = Some b -> b < a).
Proof.
  destruct rs as [|r rs]; cbn [map np_argmax isnan]; [discriminate|].
  intros H. inversion H as [Hk]. clear H.
  destruct (argmax_loop_spec rs r 0 1) as [[-> Hall] | (j & a & -> & Hj & Hlt & Hall & Hfirst)].
  - exists r. split; [reflexivity|]. split.
    + intros b [<- | Hb]; [lra | auto].
    + intros j b Hj. lia.
  - exists a. split; [exact Hj|]. split.
    + intros b [<- | Hb]; [lra | auto].
    + intros [|j'] b Hlt' Hb; simpl in Hb.
      * inversion Hb; subst. exact Hlt.
      * apply (Hfirst j' b); [lia | exact Hb].
Qed.

(** X4.  Over exact arithmetic: for an output vector of finite numbers
    whose sum is not zero, the predicted class is the position of the
    largest entry, and among equal largest entries the lowest position:
    every entry is at most the predicted one and every earlier entry is
    strictly smaller.  (In float64 the rounding of [np.exp] can make
    outputs that differ by very little tie after the softmax.) *)
Theorem predict_takes_lowest_index_of_maximum (cmp : vector -> result vector)
    (x : vector) (rs : list R) :
  cmp x = Ok (map Fin rs) ->
  neqb (np_sum (map Fin rs)) (Fin 0) = false ->
  exists k a,
    predict cmp x = Ok (of_nat k)
    /\ nth_error rs k = Some a
    /\ (forall b, In b rs -> b <= a)
    /\ (forall j b, (j < k)%nat -> nth_error rs j = Some b -> b < a).
Proof.
  intros Hc Hsum.
  destruct (predict_finite cmp x rs Hc Hsum) as (k & Hk & Hp).
  destruct (np_argmax_first_maximum rs k Hk) as (a & Ha & Hall & Hfirst).
  exists k, a. auto.
Qed.

Lemma predict_lowest_index_witness :
  exists k a,
    predict (compute (mkLayer (3%Z, 1%Z) linear r_hebb false
                        [[Fin 2]; [Fin 1]; [Fin 2]])) [Fin 1] = Ok (of_nat k)
    /\ nth_error [0 + 2 * 1; 0 + 1 * 1; 0 + 2 * 1] k = Some a
    /\ (forall b, In b [0 + 2 * 1; 0 + 1 * 1; 0 + 2 * 1] -> b <= a)
    /\ (forall j b, (j < k)%nat ->
          nth_error [0 + 2 * 1; 0 + 1 * 1; 0 + 2 * 1] j = Some b -> b < a).
Proof.
  apply (predict_takes_lowest_index_of_maximum _ [Fin 1]
           [0 + 2 * 1; 0 + 1 * 1; 0 + 2 * 1]).
  - apply tie_layer_output.
  - apply tie_layer_sum.
Defined.

(* ----------------------------------------------------------------- *)
(** ** What [train] returns and leaves behind *)

Section TrainResults.

Context `{RG : RandomGen}.

Lemma epoch_loop_history (Xt yt X_val y_val : matrix) (permute : bool) (idxDec : Z)
    (decay : num) (epochs : nat) :
  forall st st',
    epoch_loop Xt yt X_val y_val permute idxDec decay epochs st = (st', Ok tt) ->
    length (t_hist st') = (length (t_hist st) + epochs)%nat
    /\ (Forall is_accuracy (t_hist st) -> Forall is_accuracy (t_hist st')).
Proof.
  induction epochs as [|epochs IH]; intros st st' H.
  - simpl in H. inversion H; subst. split; [lia | auto].
  - cbn [epoch_loop] in H.
    destruct (if permute then permutation (t_rng st) (length Xt)
              else (seq 0 (length Xt), t_rng st)) as [perm g'].
    destruct (sample_loop Xt yt idxDec decay perm 0 (t_self st) (t_eta st))
      as [[self' eta'] [[]|e]]; [|discriminate].
    destruct (runTest X_val y_val (compute self')) as [[correct iw]|e] eqn:Hrun;
      [|discriminate].
    apply IH in H. cbn [t_hist] in H. destruct H as [Hlen Hacc].
    rewrite length_app in Hlen. simpl in Hlen. split; [lia|].
    intros Hst. apply Hacc. apply Forall_app. split; [exact Hst|].
    constructor; [|constructor].
    destruct (runTest_accuracy_bounds _ _ _ _ _ Hrun) as (_ & _ & c & -> & _ & Hc).
    exists c. auto.
Qed.

Lemma train_inv (self : Layer) (Xt yt X_val y_val : matrix) (epochs : nat)
    (eta : num) (permute : bool) (decay decayAfter : num) (g : rng)
    (st : tstate) (hist : list num) :
  train self Xt yt X_val y_val epochs eta permute decay decayAfter g = (st, Ok hist) ->
  exists r,
    decayAfter = Fin r /\ 0 < r <= 1
    /\ length Xt = length yt /\ length X_val = length y_val
    /\ hist = t_hist st
    /\ epoch_loop Xt yt X_val y_val permute (Rtrunc (INR (length Xt) * r)) decay epochs
         (mkT self g eta [] []) = (st, Ok tt).
Proof.
  unfold train. intros H.
  destruct (length Xt =? length yt)%nat eqn:Ht; cbn [negb] in H; [|discriminate].
  destruct (length X_val =? length y_val)%nat eqn:Hv; cbn [negb] in H; [|discriminate].
  destruct (nleb decayAfter (Fin 1) && nltb (Fin 0) decayAfter) eqn:Hchk;
    cbn [negb] in H; [|discriminate].
  apply decayAfter_check in Hchk. destruct Hchk as (r & -> & Hr).
  exists r. cbn [nmul of_nat int_of_num] in H.
  destruct (epoch_loop Xt yt X_val y_val permute (Rtrunc (INR (length Xt) * r)) decay
              epochs (mkT self g eta [] [])) as [st1 [[]|e]] eqn:Hloop;
    [|inversion H].
  inversion H; subst.
  apply Nat.eqb_eq in Ht. apply Nat.eqb_eq in Hv. auto 10.
Qed.

(** X5.  A [train] call that returns hands back one validation accuracy
    per epoch, each a finite number between 0 and 1. *)
Theorem train_history_one_accuracy_per_epoch (self : Layer)
    (Xt yt X_val y_val : matrix) (epochs : nat) (eta : num) (permute : bool)
    (decay decayAfter : num) (g : rng) (st : tstate) (hist : list num) :
  train self Xt yt X_val y_val epochs eta permute decay decayAfter g = (st, Ok hist) ->
  length hist = epochs /\ Forall is_accuracy hist.
Proof.
  intros H. destruct (train_inv _ _ _ _ _ _ _ _ _ _ _ _ _ H)
    as (r & _ & _ & _ & _ & -> & Hloop).
  apply epoch_loop_history in Hloop. cbn [t_hist length] in Hloop.
  destruct Hloop as [Hlen Hacc]. split; [exact Hlen | apply Hacc; constructor].
Qed.

(** X6.  With an empty validation set, a [train] call on training data
    that fits the layer runs the whole sample loop of the first epoch
    and only then raises [ZeroDivisionError], from the accuracy
    computation: the layer is left as that loop trained it and no
    history is returned. *)
Theorem train_empty_validation_fails_after_first_epoch (m n : nat) (self : Layer)
    (Xt yt : matrix) (epochs : nat) (eta : num) (permute : bool) (decay : num)
    (r : R) (g : rng) :
  has_shape m n (weights self) ->
  In (learning self) [r_hebb; r_decay; r_ojas] ->
  has_shape (length Xt) n Xt -> has_shape (length Xt) m yt ->
  0 < r <= 1 ->
  Rtrunc (INR (length Xt) * r) <> 0%Z ->
  (0 < epochs)%nat ->
  exists self',
    sample_loop Xt yt (Rtrunc (INR (length Xt) * r)) decay
      (fst (epoch_order Xt permute g)) 0 self eta
    = (self', eta_schedule (Rtrunc (INR (length Xt) * r)) decay (length Xt) 0 eta, Ok tt)
    /\ train self Xt yt [] [] epochs eta permute decay (Fin r) g
       = (mkT self' (snd (epoch_order Xt permute g))
              (eta_schedule (Rtrunc (INR (length Xt) * r)) decay (length Xt) 0 eta)
              [] [fst (epoch_order Xt permute g)],
          Raise ZeroDivisionError).
Proof.
  intros HW Hr HXt Hyt Hr01 Hdec Hep.
  destruct (sample_loop_returns m n Xt yt (Rtrunc (INR (length Xt) * r)) decay HXt Hyt
              (fst (epoch_order Xt permute g)) 0 self eta HW Hr
              (epoch_order_bound Xt permute g) (or_introl Hdec))
    as (self' & Hloop & _).
  rewrite epoch_order_length in Hloop.
  exists self'. split; [exact Hloop|].
  rewrite train_enter; [| destruct Hyt; congruence | reflexivity | exact Hr01].
  destruct epochs as [|epochs]; [lia|].
  cbn [epoch_loop]. fold (epoch_order Xt permute (t_rng (mkT self g eta [] []))).
  cbn [t_rng t_self t_eta t_hist t_orders].
  destruct (epoch_order Xt permute g) as [perm g']. simpl fst in *. simpl snd.
  rewrite Hloop. reflexivity.
Qed.

(** X7.  With [permute] off, [train] never touches the generator,
    whether it returns or raises, and every epoch it starts visits the
    samples in dataset order. *)
Theorem train_without_permute_leaves_generator (self : Layer)
    (Xt yt X_val y_val : matrix) (epochs : nat) (eta : num)
    (decay decayAfter : num) (g : rng) :
  t_rng (fst (train self Xt yt X_val y_val epochs eta false decay decayAfter g)) = g
  /\ Forall (fun order => order = seq 0 (length Xt))
       (t_orders (fst (train self Xt yt X_val y_val epochs eta false decay decayAfter g))).
Proof.
  assert (Hloop : forall idxDec epochs st,
             Forall (fun order => order = seq 0 (length Xt)) (t_orders st) ->
             t_rng (fst (epoch_loop Xt yt X_val y_val false idxDec decay epochs st))
             = t_rng st
             /\ Forall (fun order => order = seq 0 (length Xt))
                  (t_orders (fst (epoch_loop Xt yt X_val y_val false idxDec decay
                                    epochs st)))).
  { intros idxDec k. induction k as [|k IH]; intros st Hst.
    - simpl. auto.
    - cbn [epoch_loop].
      destruct (sample_loop Xt yt idxDec decay (seq 0 (length Xt)) 0 (t_self st) (t_eta st))
        as [[self' eta'] [[]|e]].
      + destruct (runTest X_val y_val (compute self')) as [[correct iw]|e].
        * destruct (IH (mkT self' (t_rng st) (nmul eta' decay) (t_hist st ++ [correct])
                          (t_orders st ++ [seq 0 (length Xt)]))) as [Hg Ho].
          { cbn [t_orders]. apply Forall_app. split; [exact Hst | repeat constructor]. }
          auto.
        * cbn [fst t_rng t_orders]. split; [reflexivity|].
          apply Forall_app. split; [exact Hst | repeat constructor].
      + cbn [fst t_rng t_orders]. split; [reflexivity|].
        apply Forall_app. split; [exact Hst | repeat constructor]. }
  unfold train.
  destruct (negb (length Xt =? length yt)%nat); [simpl; auto|].
  destruct (negb (length X_val =? length y_val)%nat); [simpl; auto|].
  destruct (negb (nleb decayAfter (Fin 1) && nltb (Fin 0) decayAfter)); [simpl; auto|].
  destruct (int_of_num (nmul (of_nat (length Xt)) decayAfter)) as [idxDec|e];
    [|simpl; auto].
  specialize (Hloop idxDec epochs (mkT self g eta [] []) ltac:(constructor)).
  destruct (epoch_loop Xt yt X_val y_val false idxDec decay epochs (mkT self g eta [] []))
    as [st res]. exact Hloop.
Qed.

End TrainResults.

(* ----------------------------------------------------------------- *)
(** ** The decay schedule in general *)

Lemma Rtrunc_nonneg (x : R) : 0 <= x -> (0 <= Rtrunc x)%Z.
Proof.
  intros Hx. unfold Rtrunc. destruct (Rle_dec 0 x); [|lra].
  destruct (base_Int_part x) as [_ Hlow].
  assert (H : IZR (-1) < IZR (Int_part x)) by (simpl; lra).
  apply lt_IZR in H. lia.
Qed.

Lemma div_succ_multiple (D : Z) (i : nat) :
  (0 < D)%Z ->
  (Z.of_nat (S i) / D
   = Z.of_nat i / D + (if Z.of_nat (S i) mod D =? 0 then 1 else 0))%Z.
Proof.
  intros HD.
  pose proof (Z.div_mod (Z.of_nat (S i)) D ltac:(lia)) as E1.
  pose proof (Z.div_mod (Z.of_nat i) D ltac:(lia)) as E2.
  pose proof (Z.mod_pos_bound (Z.of_nat (S i)) D HD) as B1.
  pose proof (Z.mod_pos_bound (Z.of_nat i) D HD) as B2.
  rewrite Nat2Z.inj_succ in *.
  destruct (Z.succ (Z.of_nat i) mod D =? 0)%Z eqn:Hm.
  - apply Z.eqb_eq in Hm. nia.
  - apply Z.eqb_neq in Hm. nia.
Qed.

(** The sample loop multiplies [eta] by [decay] once for every multiple
    of [idxDec] among the sample counts it passes. *)
Lemma eta_schedule_closed (D : Z) (d : R) :
  (0 < D)%Z ->
  forall k i e,
    eta_schedule D (Fin d) k i (Fin e)
    = Fin (e * d ^ Z.to_nat (Z.of_nat (i + k) / D - Z.of_nat i / D)).
Proof.
  intros HD. induction k as [|k IH]; intros i e; cbn [eta_schedule].
  - rewrite Nat.add_0_r, Z.sub_diag. simpl. f_equal. lra.
  - pose proof (div_succ_multiple D i HD) as Hstep.
    assert (Hmono : (Z.of_nat (S i) / D <= Z.of_nat (S i + k) / D)%Z)
      by (apply Z.div_le_mono; lia).
    replace (i + S k)%nat with (S i + k)%nat by lia.
    destruct (Z.of_nat (S i) mod D =? 0)%Z.
    + cbn [nmul]. rewrite IH. f_equal.
      replace (Z.to_nat (Z.of_nat (S i + k) / D - Z.of_nat i / D))
        with (S (Z.to_nat (Z.of_nat (S i + k) / D - Z.of_nat (S i) / D))) by lia.
      simpl. lra.
    + rewrite IH. do 3 f_equal. lia.
Qed.

Lemma epoch_eta_closed (D : Z) (d e : R) (n : nat) :
  (0 < D)%Z \/ n = 0%nat ->
  epoch_eta D (Fin d) n (Fin e) = Fin (e * d ^ (Z.to_nat (Z.of_nat n / D) + 1)).
Proof.
  intros [HD | ->]; unfold epoch_eta.
  - rewrite (eta_schedule_closed D d HD). cbn [nmul]. f_equal.
    simpl (Z.of_nat 0). rewrite Z.div_0_l by lia. rewrite Z.sub_0_r.
    rewrite Nat.add_0_l, pow_add. simpl.
    generalize (d ^ Z.to_nat (Z.of_nat n / D)). intros u. ring.
  - cbn [eta_schedule nmul]. simpl (Z.of_nat 0). rewrite Zdiv_0_l. simpl. f_equal. lra.
Qed.

Lemma iter_epoch_eta_closed (D : Z) (d : R) (n : nat) :
  (0 < D)%Z \/ n = 0%nat ->
  forall k e,
    Nat.iter k (epoch_eta D (Fin d) n) (Fin e)
    = Fin (e * d ^ (k * (Z.to_nat (Z.of_nat n / D) + 1))).
Proof.
  intros HD. induction k as [|k IH]; intros e.
  - simpl. f_equal. lra.
  - rewrite Nat.iter_succ, IH, (epoch_eta_closed D d _ n HD). f_equal.
    set (c1 := (Z.to_nat (Z.of_nat n / D) + 1)%nat).
    replace (S k * c1)%nat with (k * c1 + c1)%nat by lia.
    rewrite (pow_add d (k * c1) c1).
    generalize (d ^ (k * c1)) (d ^ c1). intros u v. ring.
Qed.

Section DecayInGeneral.

Context `{RG : RandomGen}.

(** With [idxDec = 0] the sample loop cannot get past its first sample. *)
Lemma sample_loop_zero_idxDec (Xt yt : matrix) (decay : num) (idx : nat)
    (rest : list nat) (i : nat) (self self' : Layer) (eta eta' : num) :
  sample_loop Xt yt 0 decay (idx :: rest) i self eta <> (self', eta', Ok tt).
Proof.
  cbn [sample_loop].
  destruct (nth_error Xt idx) as [x|]; [|discriminate].
  destruct (nth_error yt idx) as [y|]; [|discriminate].
  destruct (learn self x y eta) as [s1 [[]|e]]; discriminate.
Qed.

Lemma epoch_loop_eta (Xt yt X_val y_val : matrix) (permute : bool) (idxDec : Z)
    (decay : num) (epochs : nat) :
  forall st st',
    epoch_loop Xt yt X_val y_val permute idxDec decay epochs st = (st', Ok tt) ->
    t_eta st' = Nat.iter epochs (epoch_eta idxDec decay (length Xt)) (t_eta st)
    /\ (epochs = 0%nat \/ Xt = [] \/ idxDec <> 0%Z).
Proof.
  induction epochs as [|epochs IH]; intros st st' H.
  - simpl in H. inversion H; subst. simpl. auto.
  - cbn [epoch_loop] in H.
    fold (epoch_order Xt permute (t_rng st)) in H.
    pose proof (epoch_order_length Xt permute (t_rng st)) as Hl.
    destruct (epoch_order Xt permute (t_rng st)) as [perm g']. simpl in Hl.
    destruct (sample_loop Xt yt idxDec decay perm 0 (t_self st) (t_eta st))
      as [[self' eta'] [[]|e]] eqn:Hloop; [|discriminate].
    destruct (runTest X_val y_val (compute self')) as [[correct iw]|e]; [|discriminate].
    apply IH in H. cbn [t_eta] in H. destruct H as [Heta _].
    split.
    + rewrite Heta. apply sample_loop_eta in Hloop. rewrite Hloop, Hl.
      symmetry. exact (Nat.iter_succ_r epochs _ (epoch_eta idxDec decay (length Xt))
                         (t_eta st)).
    + right. destruct (Z.eq_dec idxDec 0) as [-> | Hne]; [|right; exact Hne].
      left. destruct perm as [|idx rest].
      * destruct Xt; [reflexivity | discriminate].
      * exfalso. exact (sample_loop_zero_idxDec _ _ _ _ _ _ _ _ _ _ Hloop).
Qed.

(** X8.  A [train] call that returns has multiplied a finite [eta] by
    [decay] exactly [N div idxDec + 1] times per epoch, where [N] is the
    number of training samples and [idxDec = int( N * decayAfter )]:
    once for every multiple of [idxDec] up to [N] and once at the end of
    the epoch.  With the default [decayAfter = 1] that is twice per
    epoch. *)
Theorem train_decays_eta_per_epoch (self : Layer) (Xt yt X_val y_val : matrix)
    (epochs : nat) (e : R) (permute : bool) (d r : R) (g : rng)
    (st : tstate) (hist : list num) :
  train self Xt yt X_val y_val epochs (Fin e) permute (Fin d) (Fin r) g = (st, Ok hist) ->
  t_eta st
  = Fin (e * d ^ (epochs
                  * (Z.to_nat (Z.of_nat (length Xt) / Rtrunc (INR (length Xt) * r)) + 1))).
Proof.
  intros H. destruct (train_inv _ _ _ _ _ _ _ _ _ _ _ _ _ H)
    as (r' & Hr' & Hr01 & _ & _ & _ & Hloop).
  inversion Hr'; subst r'.
  apply epoch_loop_eta in Hloop. cbn [t_eta] in Hloop. destruct Hloop as [Heta Hcase].
  rewrite Heta.
  destruct Hcase as [-> | Hcase].
  - simpl. f_equal. lra.
  - apply iter_epoch_eta_closed.
    destruct Hcase as [-> | Hne]; [right; reflexivity|].
    left. assert (0 <= Rtrunc (INR (length Xt) * r))%Z; [|lia].
    apply Rtrunc_nonneg. apply Rmult_le_pos; [apply pos_INR | lra].
Qed.

End DecayInGeneral.

Lemma three_epochs_return :
  exists st,
    train unit_hebb two_samples (ones 2) (ones 1) (ones 1) 3 (Fin 1) true
      (Fin (1 / 2)) (Fin 1) (seed 0) = (st, Ok (t_hist st)).
Proof.
  destruct (train_returns 1 1 unit_hebb two_samples (ones 2) (ones 1) (ones 1) 3 (Fin 1)
              true (Fin (1 / 2)) 1 (seed 0) trainable_two_samples)
    as (st & Hst & _).
  - lra.
  - left. apply Rtrunc_two_samples_whole.
  - exists st. exact Hst.
Qed.

Lemma train_history_witness :
  exists st,
    train unit_hebb two_samples (ones 2) (ones 1) (ones 1) 3 (Fin 1) true
      (Fin (1 / 2)) (Fin 1) (seed 0) = (st, Ok (t_hist st))
    /\ length (t_hist st) = 3%nat /\ Forall is_accuracy (t_hist st).
Proof.
  destruct three_epochs_return as (st & Hst).
  exists st. split; [exact Hst|].
  apply (train_history_one_accuracy_per_epoch _ _ _ _ _ _ _ _ _ _ _ _ _ Hst).
Defined.

Lemma train_decays_eta_witness :
  exists st,
    train unit_hebb two_samples (ones 2) (ones 1) (ones 1) 3 (Fin 1) true
      (Fin (1 / 2)) (Fin 1) (seed 0) = (st, Ok (t_hist st))
    /\ t_eta st
       = Fin (1 * (1 / 2) ^ (3 * (Z.to_nat (Z.of_nat (length two_samples)
                                            / Rtrunc (INR (length two_samples) * 1)) + 1))).
Proof.
  destruct three_epochs_return as (st & Hst).
  exists st. split; [exact Hst|].
  apply (train_decays_eta_per_epoch _ _ _ _ _ _ _ _ _ _ _ _ _ Hst).
Defined.

Lemma train_empty_validation_witness :
  exists self',
    sample_loop two_samples (ones 2) (Rtrunc (INR (length two_samples) * 1)) (Fin 1)
      (fst (epoch_order two_samples true (seed 0))) 0 unit_hebb (Fin 1)
    = (self', eta_schedule (Rtrunc (INR (length two_samples) * 1)) (Fin 1)
                (length two_samples) 0 (Fin 1), Ok tt)
    /\ train unit_hebb two_samples (ones 2) [] [] 1 (Fin 1) true (Fin 1) (Fin 1) (seed 0)
       = (mkT self' (snd (epoch_order two_samples true (seed 0)))
              (eta_schedule (Rtrunc (INR (length two_samples) * 1)) (Fin 1)
                 (length two_samples) 0 (Fin 1))
              [] [fst (epoch_order two_samples true (seed 0))],
          Raise ZeroDivisionError).
Proof.
  apply (train_empty_validation_fails_after_first_epoch 1 1 unit_hebb two_samples (ones 2)
           1 (Fin 1) true (Fin 1) 1 (seed 0)).
  - apply has_shape_unit.
  - simpl. auto.
  - apply has_shape_two_samples.
  - apply (has_shape_ones 2).
  - lra.
  - apply Rtrunc_two_samples_whole.
  - lia.
Defined.

(* ----------------------------------------------------------------- *)
(** ** The rules, row by row *)

Lemma nth_error_map2 {A B C : Type} (f : A -> B -> C) (u : list A) (v : list B) (i : nat) :
  nth_error (map2 f u v) i
  = match nth_error u i, nth_error v i with
    | Some a, Some b => Some (f a b)
    | _, _ => None
    end.
Proof.
  revert v i. induction u as [|a u IH]; intros [|b v] [|i]; simpl; try reflexivity.
  - destruct (nth_error u i); reflexivity.
  - apply IH.
Qed.

Section Rows.

Variables (W : matrix) (x y : vector) (eta : num) (i : nat) (w : vector) (yi : num).
Hypothesis Hw : nth_error W i = Some w.
Hypothesis Hyi : nth_error y i = Some yi.

Lemma hebb_update_row :
  nth_error (hebb_update W x y eta) i = Some (hebb_row w x yi eta).
Proof.
  unfold hebb_update, scale, np_outer, hebb_row.
  apply map2_nth; [exact Hw|].
  rewrite !nth_error_map, Hyi. reflexivity.
Qed.

Lemma times_column_row (M : matrix) (r : vector) :
  nth_error M i = Some r ->
  nth_error (times_column M y) i = Some (map (fun a => nmul a yi) r).
Proof.
  intros Hr. unfold times_column.
  apply (map2_nth (fun row ci => map (fun a => nmul a ci) row) M y i r yi Hr Hyi).
Qed.

Lemma decay_update_row :
  nth_error (decay_update W x y eta) i = Some (decay_row w x yi eta).
Proof.
  unfold decay_update, scale, decay_row.
  apply map2_nth; [exact Hw|].
  rewrite nth_error_map.
  rewrite (times_column_row _ (map2 nsub x w)); [reflexivity|].
  apply map_nth_error. exact Hw.
Qed.

Lemma ojas_update_row :
  nth_error (ojas_update W x y eta) i = Some (ojas_row w x yi eta).
Proof.
  unfold ojas_update, scale, ojas_row.
  apply map2_nth; [exact Hw|].
  rewrite nth_error_map.
  rewrite (times_column_row _ (map2 nsub x (map (fun a => nmul a yi) w))); [reflexivity|].
  apply (map_nth_error (map2 nsub x)). apply (times_column_row W w Hw).
Qed.

End Rows.

(** A row whose target entry is 0 is returned as it was, by each rule. *)
Lemma inactive_row_unchanged (ws xs : list R) (e : R) :
  length ws = length xs ->
  hebb_row (map Fin ws) (map Fin xs) (Fin 0) (Fin e) = map Fin ws
  /\ decay_row (map Fin ws) (map Fin xs) (Fin 0) (Fin e) = map Fin ws
  /\ ojas_row (map Fin ws) (map Fin xs) (Fin 0) (Fin e) = map Fin ws.
Proof.
  unfold hebb_row, decay_row, ojas_row.
  revert xs. induction ws as [|a ws IH]; intros [|b xs] Hlen; simpl in Hlen;
    try discriminate; [simpl; auto|].
  destruct (IH xs ltac:(lia)) as (H1 & H2 & H3).
  cbn [map map2]. rewrite H1, H2, H3.
  repeat split; f_equal; simpl; f_equal; lra.
Qed.

(** X9.  Over exact arithmetic, a [learn] call without normalisation
    changes only the rows of active neurons: when the target entry
    [y[i]] is 0 and the row, the sample and [eta] are finite, row [i] of
    the weights is the same before and after, for each of the three
    rules.  (In float64 the Hebb-decay rule needs in addition that
    [x - W] does not overflow: it forms that difference before it
    multiplies by the target.) *)
Theorem learn_leaves_inactive_rows (m n : nat) (self : Layer) (xs : list R)
    (y : vector) (e : R) (i : nat) (ws : list R) :
  has_shape m n (weights self) ->
  In (learning self) [r_hebb; r_decay; r_ojas] ->
  normalize self = false ->
  length xs = n -> length y = m ->
  nth_error y i = Some (Fin 0) ->
  nth_error (weights self) i = Some (map Fin ws) ->
  exists self',
    learn self (map Fin xs) y (Fin e) = (self', Ok tt)
    /\ nth_error (weights self') i = Some (map Fin ws).
Proof.
  intros HW Hr Hn Hx Hy Hyi Hw.
  assert (Hx' : length (map Fin xs) = n) by (rewrite length_map; exact Hx).
  assert (Hlen : length ws = length xs).
  { apply nth_error_In in Hw. rewrite <- (has_shape_row m n HW Hw), length_map in Hx.
    symmetry. rewrite Hx. reflexivity. }
  destruct (inactive_row_unchanged ws xs e Hlen) as (H1 & H2 & H3).
  destruct Hr as [Hr | [Hr | [Hr | []]]].
  - exists (after_rule self (hebb_update (weights self) (map Fin xs) y (Fin e))).
    split.
    + apply learn_eq. rewrite <- Hr. apply (r_hebb_eq m n); assumption.
    + unfold after_rule. rewrite Hn. cbn [weights set_weights].
      rewrite (hebb_update_row _ _ _ _ _ _ _ Hw Hyi). now rewrite H1.
  - exists (after_rule self (decay_update (weights self) (map Fin xs) y (Fin e))).
    split.
    + apply learn_eq. rewrite <- Hr. apply (r_decay_eq m n); assumption.
    + unfold after_rule. rewrite Hn. cbn [weights set_weights].
      rewrite (decay_update_row _ _ _ _ _ _ _ Hw Hyi). now rewrite H2.
  - exists (after_rule self (ojas_update (weights self) (map Fin xs) y (Fin e))).
    split.
    + apply learn_eq. rewrite <- Hr. apply (r_ojas_eq m n); assumption.
    + unfold after_rule. rewrite Hn. cbn [weights set_weights].
      rewrite (ojas_update_row _ _ _ _ _ _ _ Hw Hyi). now rewrite H3.
Qed.

Lemma learn_leaves_inactive_rows_witness :
  exists self',
    learn (mkLayer (2%Z, 2%Z) linear r_decay false [[Fin 1; Fin 2]; [Fin 3; Fin 4]])
      (map Fin [1 / 2; 1]) [Fin 1; Fin 0] (Fin (1 / 10)) = (self', Ok tt)
    /\ nth_error (weights self') 1 = Some (map Fin [3; 4]).
Proof.
  apply (learn_leaves_inactive_rows 2 2
           (mkLayer (2%Z, 2%Z) linear r_decay false [[Fin 1; Fin 2]; [Fin 3; Fin 4]])
           [1 / 2; 1] [Fin 1; Fin 0] (1 / 10) 1 [3; 4]).
  - split; [reflexivity | repeat constructor].
  - simpl. auto.
  - reflexivity.
  - reflexivity.
  - reflexivity.
  - reflexivity.
  - reflexivity.
Defined.

(* ----------------------------------------------------------------- *)
(** ** Samples of the wrong length *)

Lemma bvec_mismatch (f : num -> num -> num) (u v : vector) :
  length u <> length v -> length u <> 1%nat -> length v <> 1%nat ->
  bvec f u v = Raise ValueError.
Proof.
  intros Huv Hu Hv. unfold bvec, bcast.
  rewrite (proj2 (Nat.eqb_neq _ _) Huv).
  destruct u as [|a [|a' u]]; destruct v as [|b [|b' v]]; simpl in *;
    try reflexivity; congruence.
Qed.

Lemma mapM_first_raises {A B : Type} (f : A -> result B) (a : A) (l : list A) (e : exn) :
  f a = Raise e -> mapM f (a :: l) = Raise e.
Proof. intros H. simpl. rewrite H. reflexivity. Qed.

Section Mismatch.

Variables (m n k : nat).
Hypothesis Hm : (0 < m)%nat.
Hypothesis Hnk : n <> k.
Hypothesis Hn1 : n <> 1%nat.
Hypothesis Hk1 : k <> 1%nat.

(** Two matrices with the same number of rows but different row
    lengths, neither of them 1, do not broadcast. *)
Lemma bmat_mismatch (f : num -> num -> num) (A B : matrix) :
  has_shape m n A -> has_shape m k B -> bmat f A B = Raise ValueError.
Proof.
  intros HA HB. unfold bmat, bcast.
  destruct HA as [LA RA], HB as [LB RB].
  rewrite (proj2 (Nat.eqb_eq _ _)) by congruence.
  destruct A as [|a A]; [simpl in LA; lia|].
  destruct B as [|b B]; [simpl in LB; lia|].
  cbn [combine]. apply mapM_first_raises. cbn [fst snd].
  inversion RA; inversion RB; subst.
  apply bvec_mismatch; congruence.
Qed.

Lemma bmat_row_mismatch (f : num -> num -> num) (x : vector) (W : matrix) :
  has_shape m n W -> length x = k -> bmat f [x] W = Raise ValueError.
Proof.
  intros [LW RW] Hx. unfold bmat, bcast.
  destruct W as [|w [|w' W]]; [simpl in LW; lia | |].
  - simpl. inversion RW; subst. rewrite bvec_mismatch; [reflexivity | congruence ..].
  - cbn [length Nat.eqb]. apply mapM_first_raises.
    inversion RW; subst. apply bvec_mismatch; congruence.
Qed.

Lemma rule_rejects_wrong_length (W : matrix) (x y : vector) (eta : num) (r : rule) :
  has_shape m n W -> length x = k -> length y = m ->
  In r [r_hebb; r_decay; r_ojas] ->
  r W x y eta = Raise ValueError.
Proof.
  intros HW Hx Hy [<- | [<- | [<- | []]]].
  - unfold r_hebb. apply bmat_mismatch; [exact HW|].
    apply has_shape_scale, has_shape_outer; assumption.
  - unfold r_decay. rewrite (bmat_row_mismatch nsub x W HW Hx). reflexivity.
  - unfold r_ojas. rewrite (bmat_column m n nmul W y HW Hy). cbn [bind].
    fold (times_column W y).
    rewrite (bmat_row_mismatch nsub x _ (has_shape_times_column m n y Hy W HW) Hx).
    reflexivity.
Qed.

End Mismatch.

(** X10.  A [learn] call whose sample has the wrong length [k] (other
    than 1, on a layer with more than one input) raises [ValueError]
    from numpy's broadcasting, for each of the three rules, and leaves
    the layer exactly as it was. *)
Theorem learn_rejects_wrong_length (m n : nat) (self : Layer) (x y : vector) (eta : num) :
  has_shape m n (weights self) ->
  In (learning self) [r_hebb; r_decay; r_ojas] ->
  (0 < m)%nat -> length y = m ->
  length x <> n -> n <> 1%nat -> length x <> 1%nat ->
  learn self x y eta = (self, Raise ValueError).
Proof.
  intros HW Hr Hm Hy Hxn Hn1 Hx1. unfold learn.
  rewrite (rule_rejects_wrong_length m n (length x) Hm (not_eq_sym Hxn) Hn1 Hx1
             (weights self) x y eta (learning self) HW eq_refl Hy Hr).
  reflexivity.
Qed.

Lemma learn_rejects_wrong_length_witness :
  learn (mkLayer (1%Z, 2%Z) linear r_ojas true [[Fin 0; Fin 0]])
    [Fin 1; Fin 1; Fin 1] [Fin 1] (Fin 1)
  = (mkLayer (1%Z, 2%Z) linear r_ojas true [[Fin 0; Fin 0]], Raise ValueError).
Proof.
  apply (learn_rejects_wrong_length 1 2); simpl; auto; try lia.
  split; [reflexivity | repeat constructor].
Defined.

(** X11.  [compute] rejects every sample whose length is not the
    layer's input length: [np.dot] raises [ValueError] and the
    activation is never called. *)
Theorem compute_rejects_wrong_length (m n : nat) (self : Layer) (x : vector) :
  has_shape m n (weights self) -> (0 < m)%nat -> length x <> n ->
  compute self x = Raise ValueError.
Proof.
  intros [LW RW] Hm Hx. unfold compute, np_dot.
  destruct (weights self) as [|w W]; [simpl in LW; lia|].
  inversion RW; subst.
  rewrite (mapM_first_raises _ w W ValueError); [reflexivity|].
  rewrite (proj2 (Nat.eqb_neq _ _)) by congruence. reflexivity.
Qed.

Lemma compute_rejects_wrong_length_witness :
  compute unit_hebb [Fin 1; Fin 2] = Raise ValueError.
Proof.
  apply (compute_rejects_wrong_length 1 1); [apply has_shape_unit | lia | discriminate].
Defined.

Lemma bmat_scalar_row_l (f : num -> num -> num) (a : num) (W : matrix) :
  bmat f [[a]] W = Ok (map (map (f a)) W).
Proof.
  unfold bmat.
  assert (Hrow : forall w, bvec f [a] w = Ok (map (f a) w)).
  { intros w. apply (bcast_one_l (fun u v => Ok (f u v)) f). auto. }
  destruct W as [|w [|w' W]].
  - reflexivity.
  - unfold bcast. simpl. rewrite Hrow. reflexivity.
  - apply (bcast_one_l (bvec f) (fun _ w0 => map (f a) w0)). auto.
Qed.

Lemma has_shape_map2_col_gen {B : Type} (m n : nat) (f : vector -> B -> vector)
    (A : matrix) (c : list B) :
  has_shape m n A -> length c = m ->
  (forall a ci, length a = n -> length (f a ci) = n) ->
  has_shape m n (map2 f A c).
Proof.
  intros HA Hc Hf. split.
  - rewrite map2_length; destruct HA; congruence.
  - apply Forall_forall. intros r Hr.
    apply map2_In in Hr. destruct Hr as (a & ci & Ha & _ & ->).
    apply Hf. exact (has_shape_row m n HA Ha).
Qed.

(** A matrix against one with a single column. *)
Lemma bmat_single_column (m n : nat) (f : num -> num -> num) (A B : matrix) :
  has_shape m n A -> has_shape m 1 B ->
  bmat f A B = Ok (map2 (fun w u => map (fun wj => f wj (hd NaN u)) w) A B).
Proof.
  intros HA HB. unfold bmat. apply bcast_same.
  - destruct HA, HB. congruence.
  - intros w u _ Hu. pose proof (has_shape_row m 1 HB Hu) as Lu.
    destruct u as [|b [|b' u]]; simpl in Lu; try discriminate.
    apply bvec_one_r.
Qed.

(** X12.  A sample of length 1 is never rejected by [learn]: numpy
    broadcasts it against every column, the call returns and the
    weights keep their shape, whatever the layer's input length and for
    each of the three rules. *)
Theorem learn_accepts_length_one_sample (m n : nat) (self : Layer)
    (a : num) (y : vector) (eta : num) :
  has_shape m n (weights self) ->
  In (learning self) [r_hebb; r_decay; r_ojas] ->
  length y = m ->
  exists self',
    learn self [a] y eta = (self', Ok tt) /\ has_shape m n (weights self').
Proof.
  intros HW Hr Hy.
  assert (Hcol : forall M, has_shape m n M ->
            bmat nmul M (column y) = Ok (times_column M y)
            /\ has_shape m n (times_column M y)).
  { intros M HM. split; [apply (bmat_column m n); assumption|].
    apply (has_shape_times_column m n y Hy M HM). }
  assert (Hsub : forall M, has_shape m n M -> has_shape m n (map (map (nsub a)) M)).
  { intros M HM. apply has_shape_map; [exact HM|]. intros r0 Hr0. now rewrite length_map. }
  assert (Hadd : forall U, has_shape m n U ->
            exists W', bmat nadd (weights self) (scale eta U) = Ok W' /\ has_shape m n W').
  { intros U HU. eexists. split.
    - apply (bmat_same m n); [exact HW | apply has_shape_scale; exact HU].
    - apply (has_shape_add m n); [exact HW | apply has_shape_scale; exact HU]. }
  assert (Hrule : exists W', learning self (weights self) [a] y eta = Ok W'
                             /\ has_shape m n W').
  { destruct Hr as [<- | [<- | [<- | []]]].
    - unfold r_hebb.
      assert (HU : has_shape m 1 (scale eta (np_outer y [a])))
        by (apply has_shape_scale, has_shape_outer; auto).
      rewrite (bmat_single_column m n nadd _ _ HW HU).
      eexists. split; [reflexivity|].
      destruct HU as [LU _].
      apply has_shape_map2_col_gen; [exact HW | exact LU|].
      intros w u Lw. now rewrite length_map.
    - unfold r_decay. rewrite bmat_scalar_row_l. cbn [bind].
      destruct (Hcol _ (Hsub _ HW)) as [-> Hs]. cbn [bind].
      apply Hadd, Hs.
    - unfold r_ojas.
      destruct (Hcol _ HW) as [-> Hs1]. cbn [bind].
      rewrite bmat_scalar_row_l. cbn [bind].
      destruct (Hcol _ (Hsub _ Hs1)) as [-> Hs2]. cbn [bind].
      apply Hadd, Hs2. }
  destruct Hrule as (W' & HW' & Hshape).
  exists (after_rule self W'). split; [apply learn_eq, HW'|].
  unfold after_rule. destruct (normalize self); cbn [weights set_weights].
  - apply has_shape_nan_to_zero, has_shape_normalized, Hshape.
  - exact Hshape.
Qed.

Lemma learn_accepts_length_one_witness :
  exists self',
    learn (mkLayer (2%Z, 3%Z) linear r_decay false
             [[Fin 0; Fin 0; Fin 0]; [Fin 0; Fin 0; Fin 0]])
      [Fin 1] [Fin 1; Fin 0] (Fin 1) = (self', Ok tt)
    /\ has_shape 2 3 (weights self').
Proof.
  apply (learn_accepts_length_one_sample 2 3).
  - split; [reflexivity | repeat constructor].
  - simpl. auto.
  - reflexivity.
Defined.

(* ----------------------------------------------------------------- *)
(** ** The Hebb-decay rule on data between 0 and 1 *)

Lemma convex_step (a b e yv : R) :
  0 <= a <= 1 -> 0 <= b <= 1 -> 0 <= e <= 1 -> 0 <= yv <= 1 ->
  0 <= a + e * ((b - a) * yv) <= 1.
Proof.
  intros Ha Hb He Hy.
  assert (Ht : 0 <= e * yv <= 1) by nra.
  replace (a + e * ((b - a) * yv)) with ((1 - e * yv) * a + (e * yv) * b) by ring.
  split.
  - apply Rplus_le_le_0_compat; apply Rmult_le_pos; lra.
  - assert (H1 : 0 <= (1 - e * yv) * (1 - a)) by (apply Rmult_le_pos; lra).
    assert (H2 : 0 <= (e * yv) * (1 - b)) by (apply Rmult_le_pos; lra).
    lra.
Qed.

Lemma decay_row_in_01 (w x : vector) (yi eta : num) :
  Forall in_01 w -> Forall in_01 x -> in_01 yi -> in_01 eta ->
  Forall in_01 (decay_row w x yi eta).
Proof.
  intros Hw Hx (yv & -> & Hy) (e & -> & He). unfold decay_row.
  revert x Hx. induction Hw as [|a w (av & -> & Ha) _ IH]; intros x Hx.
  - constructor.
  - destruct Hx as [|b x (bv & -> & Hb) Hx]; [destruct w; constructor|].
    cbn [map2 map]. constructor.
    + exists (av + e * ((bv - av) * yv)). split; [reflexivity|].
      apply convex_step; assumption.
    + apply IH, Hx.
Qed.

Lemma decay_update_in_01 (m n : nat) (W : matrix) (x y : vector) (eta : num) :
  has_shape m n W -> length x = n -> length y = m ->
  Forall (Forall in_01) W -> Forall in_01 x -> Forall in_01 y -> in_01 eta ->
  Forall (Forall in_01) (decay_update W x y eta).
Proof.
  intros HW Hlx Hy HWin Hx Hyin He.
  apply Forall_forall. intros r' Hr'.
  apply In_nth_error in Hr'. destruct Hr' as (i & Hi).
  assert (Hlt : (i < m)%nat).
  { destruct (has_shape_decay_update m n W x y eta HW Hlx Hy) as [Hlen _].
    rewrite <- Hlen. apply nth_error_Some. intros Hc.
    pose proof (eq_trans (eq_sym Hi) Hc) as Habs. discriminate Habs. }
  destruct (nth_error W i) as [w|] eqn:Hw;
    [|apply nth_error_None in Hw; destruct HW; lia].
  destruct (nth_error y i) as [yi|] eqn:Hyi; [|apply nth_error_None in Hyi; lia].
  pose proof (eq_trans (eq_sym Hi) (decay_update_row W x y eta i w yi Hw Hyi)) as Hrow.
  inversion Hrow; subst r'.
  apply decay_row_in_01; auto.
  - exact (proj1 (Forall_forall _ _) HWin w (nth_error_In _ _ Hw)).
  - exact (proj1 (Forall_forall _ _) Hyin yi (nth_error_In _ _ Hyi)).
Qed.

(** X13.  The Hebb-decay rule keeps the weights between 0 and 1: when
    every weight, every entry of the sample and of the target, and
    [eta] are finite numbers in [[0, 1]], a [learn] call without
    normalisation returns and every weight is again a finite number in
    [[0, 1]]. *)
Theorem learn_decay_keeps_weights_in_unit_interval (m n : nat) (self : Layer)
    (x y : vector) (eta : num) :
  has_shape m n (weights self) ->
  learning self = r_decay -> normalize self = false ->
  length x = n -> length y = m ->
  Forall (Forall in_01) (weights self) ->
  Forall in_01 x -> Forall in_01 y -> in_01 eta ->
  exists self',
    learn self x y eta = (self', Ok tt)
    /\ Forall (Forall in_01) (weights self').
Proof.
  intros HW Hr Hn Hx Hy HWin Hxin Hyin He.
  exists (after_rule self (decay_update (weights self) x y eta)). split.
  - apply learn_eq. rewrite Hr. apply (r_decay_eq m n); assumption.
  - unfold after_rule. rewrite Hn. cbn [weights set_weights].
    apply (decay_update_in_01 m n); assumption.
Qed.

Lemma in_01_half : in_01 (Fin (1 / 2)).
Proof. exists (1 / 2). split; [reflexivity | lra]. Qed.

Lemma in_01_zero : in_01 (Fin 0).
Proof. exists 0. split; [reflexivity | lra]. Qed.

Lemma in_01_one : in_01 (Fin 1).
Proof. exists 1. split; [reflexivity | lra]. Qed.

Lemma learn_decay_in_unit_interval_witness :
  exists self',
    learn (mkLayer (2%Z, 2%Z) linear r_decay false [[Fin 0; Fin 1]; [Fin (1 / 2); Fin 0]])
      [Fin 1; Fin (1 / 2)] [Fin 0; Fin 1] (Fin (1 / 2)) = (self', Ok tt)
    /\ Forall (Forall in_01) (weights self').
Proof.
  apply (learn_decay_keeps_weights_in_unit_interval 2 2).
  - split; [reflexivity | repeat constructor].
  - reflexivity.
  - reflexivity.
  - reflexivity.
  - reflexivity.
  - repeat constructor; auto using in_01_half, in_01_zero, in_01_one.
  - repeat constructor; auto using in_01_half, in_01_zero, in_01_one.
  - repeat constructor; auto using in_01_half, in_01_zero, in_01_one.
  - apply in_01_half.
Defined.

(* ----------------------------------------------------------------- *)
(** ** [compulearn] without a target *)

(** A target of zeros teaches nothing: each rule returns finite weights
    as they were. *)
Lemma zero_target_update (m n : nat) (Wr : list (list R)) (xs : list R) (e : R) :
  has_shape m n (map (map Fin) Wr) -> length xs = n ->
  hebb_update (map (map Fin) Wr) (map Fin xs) (repeat (Fin 0) m) (Fin e) = map (map Fin) Wr
  /\ decay_update (map (map Fin) Wr) (map Fin xs) (repeat (Fin 0) m) (Fin e)
     = map (map Fin) Wr
  /\ ojas_update (map (map Fin) Wr) (map Fin xs) (repeat (Fin 0) m) (Fin e)
     = map (map Fin) Wr.
Proof.
  intros HW Hx.
  assert (Hx' : length (map Fin xs) = n) by (rewrite length_map; exact Hx).
  assert (Hy : length (repeat (Fin 0) m) = m) by apply repeat_length.
  assert (Hrow : forall i w, nth_error (map (map Fin) Wr) i = Some w ->
            nth_error (repeat (Fin 0) m) i = Some (Fin 0)
            /\ hebb_row w (map Fin xs) (Fin 0) (Fin e) = w
            /\ decay_row w (map Fin xs) (Fin 0) (Fin e) = w
            /\ ojas_row w (map Fin xs) (Fin 0) (Fin e) = w).
  { intros i w Hw. split.
    - assert (Hi : (i < m)%nat).
      { destruct HW as [LW _]. rewrite <- LW. apply nth_error_Some.
        intros Hc. pose proof (eq_trans (eq_sym Hw) Hc) as Habs. discriminate Habs. }
      rewrite nth_error_repeat by exact Hi. reflexivity.
    - pose proof (has_shape_row m n HW (nth_error_In _ _ Hw)) as Lw.
      rewrite nth_error_map in Hw. destruct (nth_error Wr i) as [ws|]; [|discriminate].
      inversion Hw; subst w. rewrite length_map in Lw.
      apply inactive_row_unchanged. congruence. }
  assert (Hext : forall U : matrix,
            length U = m ->
            (forall i w yi, nth_error (map (map Fin) Wr) i = Some w ->
                            nth_error (repeat (Fin 0) m) i = Some yi ->
                            nth_error U i = Some w) ->
            U = map (map Fin) Wr).
  { intros U LU HU. apply nth_error_ext. intros i.
    destruct (nth_error (map (map Fin) Wr) i) as [w|] eqn:Hw.
    - destruct (Hrow i w Hw) as (Hyi & _).
      exact (eq_trans (HU i w (Fin 0) Hw Hyi) (eq_sym Hw)).
    - assert (HN : nth_error U i = None).
      { apply nth_error_None. apply nth_error_None in Hw. destruct HW as [LW _].
        rewrite LU, <- LW. exact Hw. }
      exact (eq_trans HN (eq_sym Hw)). }
  split; [|split]; apply Hext.
  - apply (has_shape_hebb_update m n); assumption.
  - intros i w yi Hw Hyi. destruct (Hrow i w Hw) as (Hy0 & H1 & _ & _).
    assert (yi = Fin 0) by congruence. subst yi.
    pose proof (hebb_update_row _ (map Fin xs) _ (Fin e) i w (Fin 0) Hw Hyi) as Hu.
    rewrite H1 in Hu. exact Hu.
  - apply (has_shape_decay_update m n); assumption.
  - intros i w yi Hw Hyi. destruct (Hrow i w Hw) as (Hy0 & _ & H2 & _).
    assert (yi = Fin 0) by congruence. subst yi.
    pose proof (decay_update_row _ (map Fin xs) _ (Fin e) i w (Fin 0) Hw Hyi) as Hu.
    rewrite H2 in Hu. exact Hu.
  - apply (has_shape_ojas_update m n); assumption.
  - intros i w yi Hw Hyi. destruct (Hrow i w Hw) as (Hy0 & _ & _ & H3).
    assert (yi = Fin 0) by congruence. subst yi.
    pose proof (ojas_update_row _ (map Fin xs) _ (Fin e) i w (Fin 0) Hw Hyi) as Hu.
    rewrite H3 in Hu. exact Hu.
Qed.

Lemma zeros_as_reals (m n : nat) :
  repeat (repeat (Fin 0) n) m = map (map Fin) (repeat (repeat 0 n) m).
Proof. now rewrite !map_repeat. Qed.

(** Normalising a row of zeros gives [0/0] everywhere, which the repair
    turns back into zeros. *)
Lemma renormalized_zeros (n : nat) :
  map (fun a => if isnan a then Fin 0 else a) (normalized_row (repeat (Fin 0) n))
  = repeat (Fin 0) n.
Proof.
  unfold normalized_row.
  assert (Hnorm : row_norm (repeat (Fin 0) n) = Fin 0).
  { replace (repeat (Fin 0) n) with (map Fin (repeat 0 n)) by apply map_repeat.
    rewrite row_norm_finite. f_equal.
    replace (sum_squares (repeat 0 n)) with 0; [apply sqrt_0|].
    induction n as [|n IH]; simpl; [reflexivity | rewrite <- IH; lra]. }
  rewrite Hnorm, !map_repeat. f_equal.
  unfold ndiv. destruct (Req_dec_T 0 0) as [_ | H]; [|exfalso; apply H; reflexivity].
  unfold Rsign. destruct (Req_dec_T 0 0) as [_ | H]; [reflexivity|].
  exfalso; apply H; reflexivity.
Qed.

(** X14.  [compulearn] without a target, on a layer with all-zero
    weights and the identity activation, learns nothing: for a finite
    sample of the layer's input length and a finite [eta] it returns
    the all-zero output and leaves the layer exactly as it was, for each
    of the three rules, with or without normalisation. *)
Theorem compulearn_zero_layer_learns_nothing (m n : nat) (self : Layer)
    (xs : list R) (e : R) :
  weights self = repeat (repeat (Fin 0) n) m ->
  aF self = linear ->
  In (learning self) [r_hebb; r_decay; r_ojas] ->
  length xs = n ->
  compulearn self (map Fin xs) None (Fin e) = (self, Ok (repeat (Fin 0) m)).
Proof.
  intros HW Haf Hr Hx.
  assert (Hx' : length (map Fin xs) = n) by (rewrite length_map; exact Hx).
  assert (Hshape : has_shape m n (weights self)) by (rewrite HW; apply has_shape_zeros).
  assert (Hy : length (repeat (Fin 0) m) = m) by apply repeat_length.
  unfold compulearn.
  rewrite (compute_zero_weights m self (map Fin xs)).
  2:{ rewrite Hx'. exact HW. }
  2:{ exact Haf. }
  2:{ apply Forall_forall. intros a Ha. apply in_map_iff in Ha.
      destruct Ha as (r & <- & _). exact I. }
  assert (Hrule : learning self (weights self) (map Fin xs) (repeat (Fin 0) m) (Fin e)
                  = Ok (weights self)).
  { assert (Hz : has_shape m n (map (map Fin) (repeat (repeat 0 n) m)))
      by (rewrite <- zeros_as_reals; apply has_shape_zeros).
    destruct (zero_target_update m n (repeat (repeat 0 n) m) xs e Hz Hx)
      as (H1 & H2 & H3).
    rewrite <- zeros_as_reals in H1, H2, H3. rewrite <- HW in H1, H2, H3.
    destruct Hr as [Hr | [Hr | [Hr | []]]]; rewrite <- Hr.
    - rewrite (r_hebb_eq m n _ _ _ _ Hshape Hx' Hy). now rewrite H1.
    - rewrite (r_decay_eq m n _ _ _ _ Hshape Hx' Hy). now rewrite H2.
    - rewrite (r_ojas_eq m n _ _ _ _ Hshape Hx' Hy). now rewrite H3. }
  rewrite (learn_eq self _ _ _ _ Hrule).
  f_equal. unfold after_rule.
  destruct self as [shape af lr nrm W]. cbn [weights normalize set_weights] in *.
  destruct nrm; [|reflexivity].
  subst W. unfold nan_to_zero, set_weights. cbn [layerShape aF learning normalize].
  rewrite !map_repeat, renormalized_zeros. reflexivity.
Qed.

Lemma compulearn_zero_layer_witness :
  compulearn (mkLayer (2%Z, 3%Z) linear r_ojas true (repeat (repeat (Fin 0) 3) 2))
    (map Fin [1; 2; 3]) None (Fin (1 / 4))
  = (mkLayer (2%Z, 3%Z) linear r_ojas true (repeat (repeat (Fin 0) 3) 2),
     Ok (repeat (Fin 0) 2)).
Proof.
  apply (compulearn_zero_layer_learns_nothing 2 3); simpl; auto.
Defined.

(* ----------------------------------------------------------------- *)
(** ** What the experiment driver returns *)

Section DriverResults.

Context `{RG : RandomGen}.

Variables (X_train y_train X_val y_val X_test y_test : matrix).
Variables (epochs : nat) (learningRules : rule * rule * rule).
Variables (decayAfter decay : num) (permute : bool).
Variables (N_INPUT N_OUTPUT : Z) (eta : num).

(** A run reseeds the generator before it draws from it: what the run
    returns or raises does not depend on the state it starts from, and
    neither does the state it leaves when it returns. *)
Lemma one_run_any_state (run : nat) (acc : experiment) (g1 g2 : rng) :
  fst (one_run X_train y_train X_val y_val X_test y_test epochs learningRules
         decayAfter decay permute N_INPUT N_OUTPUT eta run acc g1)
  = fst (one_run X_train y_train X_val y_val X_test y_test epochs learningRules
           decayAfter decay permute N_INPUT N_OUTPUT eta run acc g2)
  /\ (forall acc',
        fst (one_run X_train y_train X_val y_val X_test y_test epochs learningRules
               decayAfter decay permute N_INPUT N_OUTPUT eta run acc g1) = Ok acc' ->
        snd (one_run X_train y_train X_val y_val X_test y_test epochs learningRules
               decayAfter decay permute N_INPUT N_OUTPUT eta run acc g1)
        = snd (one_run X_train y_train X_val y_val X_test y_test epochs learningRules
                 decayAfter decay permute N_INPUT N_OUTPUT eta run acc g2)).
Proof.
  unfold one_run. destruct learningRules as [[rH rD] rO].
  unfold bindG, Layer_init. cbv zeta. cbv iota.
  destruct (np_zeros (N_OUTPUT, N_INPUT)) as [W|e]; cbn [bind];
    [|split; [reflexivity | intros acc' Hc; discriminate Hc]].
  unfold seedG.
  destruct (np_random_seed (Z.of_nat run)) as [g|e];
    [|split; [reflexivity | intros acc' Hc; discriminate Hc]].
  split; [reflexivity | intros acc' _; reflexivity].
Qed.

Lemma run_loop_any_state (runs : list nat) (acc : experiment) (g1 g2 : rng) :
  fst (run_loop X_train y_train X_val y_val X_test y_test epochs learningRules
         decayAfter decay permute N_INPUT N_OUTPUT eta runs acc g1)
  = fst (run_loop X_train y_train X_val y_val X_test y_test epochs learningRules
           decayAfter decay permute N_INPUT N_OUTPUT eta runs acc g2).
Proof.
  destruct runs as [|run rest]; [reflexivity|].
  cbn [run_loop]. unfold bindG.
  destruct (one_run_any_state run acc g1 g2) as [Hfst Hsnd].
  destruct (one_run X_train y_train X_val y_val X_test y_test epochs learningRules
              decayAfter decay permute N_INPUT N_OUTPUT eta run acc g1)
    as [[a1|e1] g1'];
  destruct (one_run X_train y_train X_val y_val X_test y_test epochs learningRules
              decayAfter decay permute N_INPUT N_OUTPUT eta run acc g2)
    as [[a2|e2] g2']; cbn [fst snd] in *; try discriminate.
  - inversion Hfst; subst a2. rewrite (Hsnd a1 eq_refl). reflexivity.
  - exact Hfst.
Qed.

(** X15.  What [trainNewNetworksAndTest] returns (or raises) does not
    depend on the state of the global generator at the time of the
    call: every [train] call is preceded by [np.random.seed( run )] and
    the layers are built without random initialisation, so two calls
    with the same arguments give the same accuracies, wrong indices,
    histories and networks, whatever was drawn before. *)
Theorem experiment_independent_of_generator_state (runs : nat) (retNetworks : bool)
    (g1 g2 : rng) :
  fst (trainNewNetworksAndTest X_train y_train X_val y_val X_test y_test epochs
         learningRules decayAfter decay permute N_INPUT N_OUTPUT eta runs retNetworks g1)
  = fst (trainNewNetworksAndTest X_train y_train X_val y_val X_test y_test epochs
           learningRules decayAfter decay permute N_INPUT N_OUTPUT eta runs retNetworks g2).
Proof. unfold trainNewNetworksAndTest. apply run_loop_any_state. Qed.

Lemma trainG_history (self : Layer) (g g' : rng) (st : tstate) :
  trainG self X_train y_train X_val y_val epochs eta permute decay decayAfter g
  = (Ok st, g') ->
  length (t_hist st) = epochs /\ Forall is_accuracy (t_hist st).
Proof.
  unfold trainG. intros H.
  destruct (train self X_train y_train X_val y_val epochs eta permute decay decayAfter g)
    as [st1 [hist|e]] eqn:Ht; [|discriminate].
  inversion H; subst st1.
  destruct (train_inv _ _ _ _ _ _ _ _ _ _ _ _ _ Ht) as (r & _ & _ & _ & _ & _ & Hloop).
  apply epoch_loop_history in Hloop. cbn [t_hist length] in Hloop.
  destruct Hloop as [Hlen Hacc]. split; [exact Hlen | apply Hacc; constructor].
Qed.

Lemma runTest_is_accuracy (X y : matrix) (cmp : vector -> result vector)
    (t : num * list nat) :
  runTest X y cmp = Ok t -> is_accuracy (fst t).
Proof.
  destruct t as [c iw]. intros H.
  destruct (runTest_accuracy_bounds X y cmp c iw H) as (_ & _ & r & -> & _ & Hr).
  exists r. auto.
Qed.

Lemma each_length_append3 {A : Type} (k : nat) (d : per_rule (list A)) (a b c : A) :
  each_length k d -> each_length (S k) (append3 d a b c).
Proof.
  intros (H1 & H2 & H3). unfold each_length, append3. cbn [hebb deca ojas].
  rewrite !length_app, H1, H2, H3. simpl. repeat split; lia.
Qed.

Lemma each_of_append3 {A : Type} (P : A -> Prop) (d : per_rule (list A)) (a b c : A) :
  each_of P d -> P a -> P b -> P c -> each_of P (append3 d a b c).
Proof.
  intros (H1 & H2 & H3) Ha Hb Hc. unfold each_of, append3. cbn [hebb deca ojas].
  repeat split; apply Forall_app; split; auto.
Qed.

Lemma one_run_collected (k run : nat) (ret : bool) (acc acc' : experiment) (g g' : rng) :
  one_run X_train y_train X_val y_val X_test y_test epochs learningRules
    decayAfter decay permute N_INPUT N_OUTPUT eta run acc g = (Ok acc', g') ->
  collected k epochs ret acc -> collected (S k) epochs ret acc'.
Proof.
  unfold one_run. destruct learningRules as [[rH rD] rO].
  unfold bindG, retG, liftG. intros H (HA & HI & HV & HAa & HVa & HN).
  destruct (Layer_init N_INPUT N_OUTPUT linear rH false false g) as [[hebb0|e] g1];
    [|discriminate].
  destruct (Layer_init N_INPUT N_OUTPUT linear rD false false g1) as [[deca0|e] g2];
    [|discriminate].
  destruct (Layer_init N_INPUT N_OUTPUT linear rO false true g2) as [[ojas0|e] g3];
    [|discriminate].
  destruct (seedG (Z.of_nat run) g3) as [[u1|e] g4]; [|discriminate].
  destruct (trainG hebb0 X_train y_train X_val y_val epochs eta permute decay decayAfter
              g4) as [[sH|e] g5] eqn:TH; [|discriminate].
  destruct (seedG (Z.of_nat run) g5) as [[u2|e] g6]; [|discriminate].
  destruct (trainG deca0 X_train y_train X_val y_val epochs eta permute decay decayAfter
              g6) as [[sD|e] g7] eqn:TD; [|discriminate].
  destruct (seedG (Z.of_nat run) g7) as [[u3|e] g8]; [|discriminate].
  destruct (trainG ojas0 X_train y_train X_val y_val epochs eta permute decay decayAfter
              g8) as [[sO|e] g9] eqn:TO; [|discriminate].
  destruct (runTest X_test y_test (compute (t_self sH))) as [tH|e] eqn:RH; [|discriminate].
  destruct (runTest X_test y_test (compute (t_self sD))) as [tD|e] eqn:RD; [|discriminate].
  destruct (runTest X_test y_test (compute (t_self sO))) as [tO|e] eqn:RO; [|discriminate].
  inversion H; subst acc' g'. clear H.
  unfold collected. cbn [accuracies wrongIndices valHistory networks].
  split; [apply each_length_append3, HA|].
  split; [apply each_length_append3, HI|].
  split; [apply each_length_append3, HV|].
  split.
  { apply each_of_append3; [exact HAa | ..];
      eapply runTest_is_accuracy; eassumption. }
  split.
  { apply each_of_append3; [exact HVa | ..];
      eapply trainG_history; eassumption. }
  destruct (networks acc) as [nets|]; cbn [option_map].
  - destruct HN as [Hret Hlen]. split; [exact Hret | apply each_length_append3, Hlen].
  - exact HN.
Qed.

Lemma run_loop_collected (ret : bool) (runs : list nat) :
  forall (k : nat) (acc e : experiment) (g g' : rng),
    run_loop X_train y_train X_val y_val X_test y_test epochs learningRules
      decayAfter decay permute N_INPUT N_OUTPUT eta runs acc g = (Ok e, g') ->
    collected k epochs ret acc -> collected (k + length runs) epochs ret e.
Proof.
  induction runs as [|run runs IH]; intros k acc e g g' H Hacc.
  - simpl in H. unfold retG in H. inversion H; subst.
    rewrite Nat.add_0_r. exact Hacc.
  - cbn [run_loop] in H. unfold bindG in H.
    destruct (one_run X_train y_train X_val y_val X_test y_test epochs learningRules
                decayAfter decay permute N_INPUT N_OUTPUT eta run acc g)
      as [[acc1|err] g1] eqn:H1; [|discriminate].
    cbn [length]. rewrite Nat.add_succ_r, <- Nat.add_succ_l.
    apply (IH (S k) acc1 e g1 g' H).
    apply (one_run_collected k run ret acc acc1 g g1 H1 Hacc).
Qed.

(** X16.  When [trainNewNetworksAndTest] returns, every list of
    [accuracies], [wrongIndices] and [valHistory] has one entry per run;
    every test accuracy is a finite number between 0 and 1; every
    validation history has one such accuracy per epoch; and [networks]
    is [None] exactly when [retNetworks] is off, and otherwise holds one
    layer per run and rule. *)
Theorem experiment_collects_one_entry_per_run (runs : nat) (retNetworks : bool)
    (g g' : rng) (e : experiment) :
  trainNewNetworksAndTest X_train y_train X_val y_val X_test y_test epochs learningRules
    decayAfter decay permute N_INPUT N_OUTPUT eta runs retNetworks g = (Ok e, g') ->
  each_length runs (accuracies e)
  /\ each_length runs (wrongIndices e)
  /\ each_length runs (valHistory e)
  /\ each_of is_accuracy (accuracies e)
  /\ each_of (fun h => length h = epochs /\ Forall is_accuracy h) (valHistory e)
  /\ match networks e with
     | None => retNetworks = false
     | Some nets => retNetworks = true /\ each_length runs nets
     end.
Proof.
  unfold trainNewNetworksAndTest. intros H.
  apply (run_loop_collected retNetworks (seq 0 runs) 0) in H.
  - rewrite length_seq in H. exact H.
  - unfold collected, each_length, each_of.
    cbn [accuracies wrongIndices valHistory networks empty3 hebb deca ojas length].
    destruct retNetworks; cbn [hebb deca ojas length]; auto 20.
Qed.

End DriverResults.

Lemma experiment_collects_witness :
  exists e g',
    trainNewNetworksAndTest two_samples (ones 2) (ones 1) (ones 1) (ones 1) (ones 1)
      1 (r_hebb, r_decay, r_ojas) (Fin 1) (Fin 1) true 1 1 (Fin 1) 2 false (seed 0)
    = (Ok e, g')
    /\ each_length 2 (accuracies e)
    /\ each_of (fun h => length h = 1%nat /\ Forall is_accuracy h) (valHistory e)
    /\ networks e = None.
Proof.
  destruct two_runs_return as (e & g' & He).
  exists e, g'. split; [exact He|].
  destruct (experiment_collects_one_entry_per_run two_samples (ones 2) (ones 1) (ones 1)
              (ones 1) (ones 1) 1 (r_hebb, r_decay, r_ojas) (Fin 1) (Fin 1) true 1 1
              (Fin 1) 2 false (seed 0) g' e He) as (HA & _ & _ & _ & HV & HN).
  split; [exact HA|]. split; [exact HV|].
  destruct (networks e); [destruct HN; discriminate | reflexivity].
Defined.

(* ----------------------------------------------------------------- *)
(** ** Reading the image and label files *)

Lemma read_app (k : Z) (a b : list Byte.byte) :
  Z.of_nat (length a) = k -> read k (a ++ b) = (a, b).
Proof.
  intros <-. unfold read. rewrite Nat2Z.id.
  rewrite firstn_app, Nat.sub_diag, firstn_all, firstn_O, app_nil_r.
  rewrite skipn_app, Nat.sub_diag, skipn_all. reflexivity.
Qed.

Lemma from_bytes_big_nonneg (b : list Byte.byte) : (0 <= from_bytes_big b)%Z.
Proof.
  unfold from_bytes_big.
  assert (H : forall acc, (0 <= acc)%Z ->
            (0 <= fold_left (fun acc c => 256 * acc + Z.of_N (Byte.to_N c)) b acc)%Z).
  { induction b as [|c b IH]; intros acc Hacc; cbn [fold_left]; [exact Hacc|].
    apply IH. pose proof (N2Z.is_nonneg (Byte.to_N c)). lia. }
  apply H. lia.
Qed.

Lemma frombuffer_uint8_range (buf : list Byte.byte) :
  Forall (fun v => (0 <= v <= 255)%Z) (frombuffer_uint8 buf).
Proof.
  unfold frombuffer_uint8. apply Forall_forall. intros v Hv.
  apply in_map_iff in Hv. destruct Hv as (c & <- & _).
  pose proof (Byte.to_N_bounded c). lia.
Qed.

Lemma rows_of_spec (cols : nat) (rows : nat) :
  forall data : list Z,
    length data = (rows * cols)%nat ->
    length (rows_of rows cols data) = rows
    /\ Forall (fun row => length row = cols) (rows_of rows cols data)
    /\ concat (rows_of rows cols data) = data.
Proof.
  induction rows as [|rows IH]; intros data Hlen; cbn [rows_of].
  - simpl in Hlen. apply length_zero_iff_nil in Hlen. subst data. simpl. auto.
  - destruct (IH (skipn cols data)) as (H1 & H2 & H3).
    { rewrite length_skipn, Hlen. simpl. lia. }
    cbn [length concat]. split; [now rewrite H1|]. split.
    + constructor; [|exact H2]. rewrite length_firstn, Hlen. simpl. lia.
    + rewrite H3. apply firstn_skipn.
Qed.

Lemma Forall_concat_rows {A : Type} (P : A -> Prop) (M : list (list A)) :
  Forall P (concat M) -> Forall (Forall P) M.
Proof.
  induction M as [|row M IH]; simpl; intros H; [constructor|].
  apply Forall_app in H. destruct H as [Hrow HM]. constructor; auto.
Qed.

Lemma div_255_in_01 (M : list (list Z)) :
  Forall (Forall (fun v => (0 <= v <= 255)%Z)) M -> Forall (Forall in_01) (div_255 M).
Proof.
  intros HM. unfold div_255. apply Forall_map.
  apply (Forall_impl _ (P := Forall (fun v => (0 <= v <= 255)%Z))); [|exact HM].
  intros row Hrow. apply Forall_map.
  apply (Forall_impl _ (P := fun v => (0 <= v <= 255)%Z)); [|exact Hrow].
  intros v [Hlo Hhi]. unfold ndiv.
  destruct (Req_dec_T 255 0) as [H | _]; [lra|].
  exists (IZR v / 255). split; [reflexivity|].
  apply IZR_le in Hlo. apply IZR_le in Hhi. split.
  - apply Rmult_le_pos; lra.
  - apply (Rmult_le_reg_r 255); [lra|]. unfold Rdiv.
    rewrite Rmult_assoc, Rinv_l by lra. lra.
Qed.

Section IdxFile.

Variables (magic hn hx hy payload : list Byte.byte).
Hypothesis Hmagic : length magic = 4%nat.
Hypothesis Hhn : length hn = 4%nat.
Hypothesis Hhx : length hx = 4%nat.
Hypothesis Hhy : length hy = 4%nat.

Lemma readImages_header :
  readImages (magic ++ hn ++ hx ++ hy ++ payload)
  = reshape (from_bytes_big hn) (from_bytes_big hx * from_bytes_big hy)
      (frombuffer_uint8
         (firstn (Z.to_nat (from_bytes_big hx * from_bytes_big hy * from_bytes_big hn))
            payload)).
Proof.
  unfold readImages.
  rewrite (read_app 4 magic) by (rewrite Hmagic; reflexivity).
  rewrite (read_app 4 hn) by (rewrite Hhn; reflexivity).
  rewrite (read_app 4 hx) by (rewrite Hhx; reflexivity).
  rewrite (read_app 4 hy) by (rewrite Hhy; reflexivity).
  reflexivity.
Qed.

Lemma readImages_complete :
  (from_bytes_big hn * (from_bytes_big hx * from_bytes_big hy)
   <= Z.of_nat (length payload))%Z ->
  exists M,
    readImages (magic ++ hn ++ hx ++ hy ++ payload) = Ok M
    /\ length M = Z.to_nat (from_bytes_big hn)
    /\ Forall (fun row => length row = Z.to_nat (from_bytes_big hx * from_bytes_big hy)) M
    /\ concat M
       = frombuffer_uint8
           (firstn (Z.to_nat (from_bytes_big hn * (from_bytes_big hx * from_bytes_big hy)))
              payload)
    /\ Forall (Forall in_01) (div_255 M).
Proof.
  intros Hsize. rewrite readImages_header.
  pose proof (from_bytes_big_nonneg hn) as Hn.
  pose proof (from_bytes_big_nonneg hx) as Hx.
  pose proof (from_bytes_big_nonneg hy) as Hy.
  set (n := from_bytes_big hn) in *.
  set (px := (from_bytes_big hx * from_bytes_big hy)%Z) in *.
  assert (Hpx : (0 <= px)%Z) by (unfold px; lia).
  replace (px * n)%Z with (n * px)%Z by lia.
  set (data := frombuffer_uint8 (firstn (Z.to_nat (n * px)) payload)).
  assert (Hlen : length data = (Z.to_nat n * Z.to_nat px)%nat).
  { unfold data, frombuffer_uint8. rewrite length_map, length_firstn.
    rewrite <- Z2Nat.inj_mul by assumption. lia. }
  unfold reshape.
  replace (Z.of_nat (length data) =? n * px)%Z with true
    by (symmetry; apply Z.eqb_eq; rewrite Hlen; lia).
  destruct (rows_of_spec (Z.to_nat px) (Z.to_nat n) data Hlen) as (H1 & H2 & H3).
  eexists. split; [reflexivity|]. split; [exact H1|]. split; [exact H2|].
  split; [exact H3|].
  apply div_255_in_01, Forall_concat_rows. rewrite H3. apply frombuffer_uint8_range.
Qed.

Lemma readImages_truncated :
  (Z.of_nat (length payload)
   < from_bytes_big hn * (from_bytes_big hx * from_bytes_big hy))%Z ->
  readImages (magic ++ hn ++ hx ++ hy ++ payload) = Raise ValueError.
Proof.
  intros Hsize. rewrite readImages_header. unfold reshape, frombuffer_uint8.
  rewrite length_map, length_firstn.
  replace (_ =? _)%Z with false; [reflexivity|].
  symmetry. apply Z.eqb_neq. lia.
Qed.

Lemma readLabels_header :
  readLabels (magic ++ hn ++ payload)
  = frombuffer_uint8 (firstn (Z.to_nat (from_bytes_big hn)) payload).
Proof.
  unfold readLabels.
  rewrite (read_app 4 magic) by (rewrite Hmagic; reflexivity).
  rewrite (read_app 4 hn) by (rewrite Hhn; reflexivity).
  reflexivity.
Qed.

End IdxFile.

(** X17.  On a file that holds a 4-byte magic number, the big-endian
    counts [nImages], [x] and [y], and at least [nImages * x * y] bytes
    of pixels, [readImages] returns [nImages] rows of [x * y] entries:
    the first [nImages * x * y] payload bytes in file order, further
    bytes being ignored; and after the division by 255 every entry is a
    finite number between 0 and 1. *)
Theorem readImages_returns_the_pixels (magic hn hx hy payload : list Byte.byte) :
  length magic = 4%nat -> length hn = 4%nat -> length hx = 4%nat -> length hy = 4%nat ->
  (from_bytes_big hn * (from_bytes_big hx * from_bytes_big hy)
   <= Z.of_nat (length payload))%Z ->
  exists M,
    readImages (magic ++ hn ++ hx ++ hy ++ payload) = Ok M
    /\ length M = Z.to_nat (from_bytes_big hn)
    /\ Forall (fun row => length row = Z.to_nat (from_bytes_big hx * from_bytes_big hy)) M
    /\ concat M
       = frombuffer_uint8
           (firstn (Z.to_nat (from_bytes_big hn * (from_bytes_big hx * from_bytes_big hy)))
              payload)
    /\ Forall (Forall in_01) (div_255 M).
Proof. apply readImages_complete. Qed.

(** X18.  On a file whose header announces more pixels than the file
    holds, [readImages] returns no image array: the call ends in an
    exception, so a partial array is never handed out. *)
Theorem readImages_rejects_truncated_file (magic hn hx hy payload : list Byte.byte) :
  length magic = 4%nat -> length hn = 4%nat -> length hx = 4%nat -> length hy = 4%nat ->
  (Z.of_nat (length payload)
   < from_bytes_big hn * (from_bytes_big hx * from_bytes_big hy))%Z ->
  exists e, readImages (magic ++ hn ++ hx ++ hy ++ payload) = Raise e.
Proof.
  intros Hmagic Hhn Hhx Hhy Hsize. exists ValueError.
  exact (readImages_truncated magic hn hx hy payload Hmagic Hhn Hhx Hhy Hsize).
Qed.

(** X19.  [readLabels] returns the labels that are in the file: the
    first [nLabels] payload bytes, each between 0 and 255, or all of the
    payload when the file holds fewer than the [nLabels] its header
    announces.  A truncated label file is not reported. *)
Theorem readLabels_returns_available_labels (magic hn payload : list Byte.byte) :
  length magic = 4%nat -> length hn = 4%nat ->
  readLabels (magic ++ hn ++ payload)
  = frombuffer_uint8 (firstn (Z.to_nat (from_bytes_big hn)) payload)
  /\ length (readLabels (magic ++ hn ++ payload))
     = Nat.min (Z.to_nat (from_bytes_big hn)) (length payload)
  /\ Forall (fun v => (0 <= v <= 255)%Z) (readLabels (magic ++ hn ++ payload)).
Proof.
  intros Hmagic Hhn.
  rewrite (readLabels_header magic hn payload Hmagic Hhn).
  split; [reflexivity|]. split.
  - unfold frombuffer_uint8. rewrite length_map. apply length_firstn.
  - apply frombuffer_uint8_range.
Qed.

Lemma readImages_returns_the_pixels_witness :
  exists M,
    readImages ([Byte.x00; Byte.x00; Byte.x08; Byte.x03]
                ++ [Byte.x00; Byte.x00; Byte.x00; Byte.x02]
                ++ [Byte.x00; Byte.x00; Byte.x00; Byte.x01]
                ++ [Byte.x00; Byte.x00; Byte.x00; Byte.x02]
                ++ [Byte.x00; Byte.xff; Byte.x80; Byte.x01; Byte.x07]) = Ok M
    /\ length M = 2%nat
    /\ concat M = [0; 255; 128; 1]%Z
    /\ Forall (Forall in_01) (div_255 M).
Proof.
  destruct (readImages_returns_the_pixels
              [Byte.x00; Byte.x00; Byte.x08; Byte.x03]
              [Byte.x00; Byte.x00; Byte.x00; Byte.x02]
              [Byte.x00; Byte.x00; Byte.x00; Byte.x01]
              [Byte.x00; Byte.x00; Byte.x00; Byte.x02]
              [Byte.x00; Byte.xff; Byte.x80; Byte.x01; Byte.x07]
              eq_refl eq_refl eq_refl eq_refl)
    as (M & HM & Hlen & _ & Hcat & H01).
  - vm_compute. discriminate.
  - exists M. split; [exact HM|]. split; [exact Hlen|]. split; [exact Hcat | exact H01].
Defined.

Lemma readImages_rejects_truncated_witness :
  exists e,
    readImages ([Byte.x00; Byte.x00; Byte.x08; Byte.x03]
                ++ [Byte.x00; Byte.x00; Byte.x00; Byte.x02]
                ++ [Byte.x00; Byte.x00; Byte.x00; Byte.x01]
                ++ [Byte.x00; Byte.x00; Byte.x00; Byte.x02]
                ++ [Byte.x00; Byte.xff; Byte.x80]) = Raise e.
Proof.
  apply readImages_rejects_truncated_file; try reflexivity.
Defined.

Lemma readLabels_returns_available_witness :
  readLabels ([Byte.x00; Byte.x00; Byte.x08; Byte.x01]
              ++ [Byte.x00; Byte.x00; Byte.x00; Byte.x05]
              ++ [Byte.x07; Byte.x02; Byte.x01])
  = frombuffer_uint8 (firstn (Z.to_nat (from_bytes_big
                                          [Byte.x00; Byte.x00; Byte.x00; Byte.x05]))
                        [Byte.x07; Byte.x02; Byte.x01])
  /\ length (readLabels ([Byte.x00; Byte.x00; Byte.x08; Byte.x01]
                         ++ [Byte.x00; Byte.x00; Byte.x00; Byte.x05]
                         ++ [Byte.x07; Byte.x02; Byte.x01]))
     = Nat.min (Z.to_nat (from_bytes_big [Byte.x00; Byte.x00; Byte.x00; Byte.x05]))
         (length [Byte.x07; Byte.x02; Byte.x01])
  /\ Forall (fun v => (0 <= v <= 255)%Z)
       (readLabels ([Byte.x00; Byte.x00; Byte.x08; Byte.x01]
                    ++ [Byte.x00; Byte.x00; Byte.x00; Byte.x05]
                    ++ [Byte.x07; Byte.x02; Byte.x01])).
Proof.
  apply readLabels_returns_available_labels; reflexivity.
Defined.

(* ----------------------------------------------------------------- *)
(** ** One-hot labels and [asDigits] *)

Lemma nleb_0_0 : nleb (Fin 0) (Fin 0) = true.
Proof. apply nleb_fin. lra. Qed.

Lemma nleb_0_1 : nleb (Fin 0) (Fin 1) = true.
Proof. apply nleb_fin. lra. Qed.

Lemma nleb_1_1 : nleb (Fin 1) (Fin 1) = true.
Proof. apply nleb_fin. lra. Qed.

Lemma nleb_1_0 : nleb (Fin 1) (Fin 0) = false.
Proof.
  destruct (nleb (Fin 1) (Fin 0)) eqn:H; [|reflexivity].
  apply nleb_fin in H. lra.
Qed.

Ltac argmax_steps :=
  cbn [np_argmax argmax_loop isnan];
  repeat (rewrite ?nleb_0_0, ?nleb_0_1, ?nleb_1_1, ?nleb_1_0;
          cbn [argmax_loop isnan]).

(** The digit [asDigits] reads back from the one-hot row of a label. *)
Lemma np_argmax_one_hot (label : Z) :
  np_argmax (one_hot label)
  = Ok (if ((0 <=? label) && (label <? 10))%Z then Z.to_nat label else 0%nat).
Proof.
  destruct ((0 <=? label) && (label <? 10))%Z eqn:Hrange.
  - apply andb_true_iff in Hrange. destruct Hrange as [Hlo Hhi].
    apply Z.leb_le in Hlo. apply Z.ltb_lt in Hhi.
    assert (Hcases : (label = 0 \/ label = 1 \/ label = 2 \/ label = 3 \/ label = 4
                      \/ label = 5 \/ label = 6 \/ label = 7 \/ label = 8
                      \/ label = 9)%Z) by lia.
    destruct Hcases as [-> | [-> | [-> | [-> | [-> | [-> | [-> | [-> | [-> | ->]]]]]]]]];
      unfold one_hot; cbn [seq map Z.of_nat Pos.of_succ_nat Pos.succ Z.eqb Pos.eqb];
      argmax_steps; reflexivity.
  - assert (Hout : (label < 0 \/ 10 <= label)%Z).
    { apply andb_false_iff in Hrange. destruct Hrange as [H | H].
      - apply Z.leb_gt in H. lia.
      - apply Z.ltb_ge in H. lia. }
    unfold one_hot. cbn [seq map].
    repeat match goal with
           | |- context [(Z.of_nat ?k =? label)%Z] =>
               destruct (Z.eqb_spec (Z.of_nat k) label) as [Heq | _];
               [exfalso; simpl in Heq; lia|]
           end.
    argmax_steps. reflexivity.
Qed.

(** X20.  Reading the one-hot rows back with [asDigits] gives the label
    for every label from 0 to 9; any other label value (a byte of the
    label file can be as large as 255) has an all-zero row and is read
    back as the digit 0. *)
Theorem asDigits_of_one_hot_labels (labels : list Z) :
  asDigits (map one_hot labels)
  = Ok (map (fun label =>
               if ((0 <=? label) && (label <? 10))%Z then Z.to_nat label else 0%nat)
          labels).
Proof.
  unfold asDigits. induction labels as [|label labels IH]; [reflexivity|].
  cbn [map mapM]. rewrite np_argmax_one_hot, IH. reflexivity.
Qed.

(* ----------------------------------------------------------------- *)
(** ** Accuracy per label *)

Lemma argmax_loop_bound (l : vector) :
  forall mp best i,
    argmax_loop mp best i l = best
    \/ (i <= argmax_loop mp best i l < i + length l)%nat.
Proof.
  induction l as [|a l IH]; intros mp best i; cbn [argmax_loop length]; [left; reflexivity|].
  destruct (nleb a mp).
  - destruct (IH mp best (S i)) as [H | H]; [left; exact H | right; lia].
  - destruct (isnan a); [right; lia|].
    destruct (IH a i (S i)) as [H | H]; [right; rewrite H; lia | right; lia].
Qed.

Lemma np_argmax_bound (v : vector) (k : nat) :
  np_argmax v = Ok k -> (k < length v)%nat.
Proof.
  destruct v as [|a v]; cbn [np_argmax length]; [discriminate|].
  destruct (isnan a); intros H; inversion H as [Hk]; [lia|].
  destruct (argmax_loop_bound v a 0 1) as [-> | Hb]; lia.
Qed.

Lemma asDigits_bound (m n : nat) (y : matrix) (yd : list nat) :
  has_shape m n y -> asDigits y = Ok yd -> Forall (fun d => (d < n)%nat) yd.
Proof.
  intros Hy Hyd. apply Forall_forall. intros d Hd.
  apply In_nth_error in Hd. destruct Hd as (i & Hi).
  destruct (mapM_nth_inv _ _ _ Hyd i d Hi) as (row & Hrow & Harg).
  apply np_argmax_bound in Harg.
  rewrite (has_shape_row m n Hy (nth_error_In _ _ Hrow)) in Harg. exact Harg.
Qed.

Lemma where_false_shift (comp : list bool) :
  forall i, where_false (S i) comp = map S (where_false i comp).
Proof.
  induction comp as [|c comp IH]; intros i; cbn [where_false map]; [reflexivity|].
  destruct c; cbn [map]; rewrite IH; reflexivity.
Qed.

Lemma take_shift {A : Type} (a : A) (l : list A) (idx : list nat) :
  take (a :: l) (map S idx) = take l idx.
Proof.
  unfold take. induction idx as [|i idx IH]; [reflexivity|].
  cbn [map mapM nth_error]. rewrite IH. reflexivity.
Qed.

Lemma take_where_false (yd : list nat) :
  forall comp, (length comp <= length yd)%nat ->
  take yd (where_false 0 comp) = Ok (pick yd comp).
Proof.
  induction yd as [|a yd IH]; intros [|c comp] Hlen; simpl in Hlen;
    try reflexivity; try lia.
  cbn [where_false pick]. rewrite where_false_shift.
  destruct c.
  - rewrite take_shift. apply IH. lia.
  - unfold take at 1. cbn [mapM nth_error bind].
    fold (take (a :: yd) (map S (where_false 0 comp))).
    rewrite take_shift, (IH comp) by lia. reflexivity.
Qed.

Lemma pick_count (P : nat -> bool) (yd : list nat) :
  forall comp, (length (filter P (pick yd comp)) <= length (filter P yd))%nat.
Proof.
  induction yd as [|a yd IH]; intros [|c comp]; cbn [pick filter length]; try lia.
  - destruct c; cbn [filter]; specialize (IH comp);
      destruct (P a); cbn [length]; lia.
Qed.

Lemma map2_length_min {A B C : Type} (f : A -> B -> C) (u : list A) (v : list B) :
  length (map2 f u v) = Nat.min (length u) (length v).
Proof.
  revert v. induction u as [|a u IH]; intros [|b v]; simpl; try reflexivity.
  now rewrite IH.
Qed.

Lemma np_histogram_bins (v : list nat) :
  np_histogram v (seq 0 11) = map (fun d => length (filter (in_bin d) v)) (seq 0 10).
Proof. reflexivity. Qed.

Lemma map2_map_same {A B C D : Type} (f : B -> C -> D) (g : A -> B) (h : A -> C)
    (l : list A) :
  map2 f (map g l) (map h l) = map (fun a => f (g a) (h a)) l.
Proof. induction l as [|a l IH]; simpl; [reflexivity | now rewrite IH]. Qed.

Lemma in_bin_below_ten (d a : nat) :
  (d < 10)%nat -> (a < 10)%nat -> in_bin d a = true <-> a = d.
Proof.
  intros Hd Ha. unfold in_bin. rewrite andb_true_iff, Nat.leb_le.
  destruct (d =? 9)%nat eqn:H9.
  - apply Nat.eqb_eq in H9. rewrite Nat.leb_le. lia.
  - rewrite Nat.ltb_lt. lia.
Qed.

(** One entry of [( distr - wrongs ) / distr]. *)
Lemma share_right (D W : nat) :
  (W <= D)%nat ->
  (D = 0%nat -> ndiv (Fin (IZR (Z.of_nat D - Z.of_nat W))) (of_nat D) = NaN)
  /\ (D <> 0%nat -> in_01 (ndiv (Fin (IZR (Z.of_nat D - Z.of_nat W))) (of_nat D))).
Proof.
  intros HWD. unfold of_nat, ndiv. split.
  - intros ->. assert (W = 0%nat) by lia. subst W. simpl.
    destruct (Req_dec_T 0 0) as [_ | H]; [|exfalso; apply H; reflexivity].
    unfold inf_signed, Rsign.
    destruct (Req_dec_T 0 0) as [_ | H]; [reflexivity|].
    exfalso; apply H; reflexivity.
  - intros HD.
    assert (HposD : 0 < INR D) by (apply lt_0_INR; lia).
    destruct (Req_dec_T (INR D) 0) as [H | _]; [lra|].
    exists (IZR (Z.of_nat D - Z.of_nat W) / INR D). split; [reflexivity|].
    rewrite <- Nat2Z.inj_sub by exact HWD. rewrite <- INR_IZR_INZ.
    assert (Hle : INR (D - W) <= INR D) by (apply le_INR; lia).
    pose proof (pos_INR (D - W)) as Hge.
    split.
    + apply Rmult_le_pos; [exact Hge | left; apply Rinv_0_lt_compat; exact HposD].
    + apply (Rmult_le_reg_r (INR D)); [exact HposD|]. unfold Rdiv.
      rewrite Rmult_assoc, Rinv_l by lra. lra.
Qed.

Lemma filter_none_iff (d : nat) (yd : list nat) :
  Forall (fun a => (a < 10)%nat) yd -> (d < 10)%nat ->
  length (filter (in_bin d) yd) = 0%nat <-> ~ In d yd.
Proof.
  intros Hyd Hd. split.
  - intros Hlen Hin. apply length_zero_iff_nil in Hlen.
    assert (Hf : In d (filter (in_bin d) yd)).
    { apply filter_In. split; [exact Hin|].
      apply in_bin_below_ten; [exact Hd | | reflexivity].
      exact (proj1 (Forall_forall _ _) Hyd d Hin). }
    rewrite Hlen in Hf. exact Hf.
  - intros Hnot. destruct (filter (in_bin d) yd) as [|a l] eqn:Hf; [reflexivity|].
    exfalso. assert (Ha : In a (filter (in_bin d) yd)) by (rewrite Hf; left; reflexivity).
    apply filter_In in Ha. destruct Ha as [Hin Hbin].
    apply in_bin_below_ten in Hbin;
      [subst a; exact (Hnot Hin) | exact Hd
       | exact (proj1 (Forall_forall _ _) Hyd a Hin)].
Qed.

Lemma computeAccPerLabel_spec (X y : matrix) (cmp : vector -> result vector)
    (correct : num) (indexWrong : list nat) :
  has_shape (length y) 10 y ->
  runTest X y cmp = Ok (correct, indexWrong) ->
  exists yd accs,
    asDigits y = Ok yd
    /\ computeAccPerLabel y indexWrong = Ok accs
    /\ length accs = 10%nat
    /\ forall d a, nth_error accs d = Some a ->
         (In d yd -> in_01 a) /\ (~ In d yd -> a = NaN).
Proof.
  intros Hy Hrun.
  destruct (runTest_inv X y cmp correct indexWrong Hrun)
    as (yd & preds & _ & Hyd & _ & _ & _ & ->).
  pose proof (asDigits_bound _ _ y yd Hy Hyd) as Hbound.
  exists yd. unfold computeAccPerLabel. rewrite Hyd. cbn [bind].
  rewrite take_where_false.
  2:{ unfold compare_preds. rewrite map2_length_min. lia. }
  cbn [bind]. rewrite !np_histogram_bins, map2_map_same.
  eexists. split; [reflexivity|]. split; [reflexivity|]. split; [reflexivity|].
  intros d a Ha.
  assert (Hd : (d < 10)%nat).
  { change 10%nat with (length (map (fun d0 : nat =>
        ndiv (Fin (IZR (Z.of_nat (length (filter (in_bin d0) yd))
                        - Z.of_nat (length (filter (in_bin d0)
                                              (pick yd (compare_preds preds yd)))))))
             (of_nat (length (filter (in_bin d0) yd)))) (seq 0 10))).
    apply nth_error_Some. rewrite Ha. discriminate. }
  rewrite nth_error_map, nth_error_seq in Ha.
  replace (d <? 10)%nat with true in Ha by (symmetry; apply Nat.ltb_lt; exact Hd).
  cbn [option_map Nat.add] in Ha. inversion Ha as [Ha']. clear Ha.
  destruct (share_right (length (filter (in_bin d) yd))
              (length (filter (in_bin d) (pick yd (compare_preds preds yd))))
              (pick_count (in_bin d) yd (compare_preds preds yd))) as [Hzero Hpos].
  split.
  - intros Hin. apply Hpos. intros H0.
    apply (filter_none_iff d yd Hbound Hd) in H0. exact (H0 Hin).
  - intros Hnot. apply Hzero. apply (filter_none_iff d yd Hbound Hd). exact Hnot.
Qed.

(** X21.  Applied to ten-column labels and the wrong indices [runTest]
    returned for them, [computeAccPerLabel] returns ten entries: the
    entry of a digit that occurs among the labels is a finite number
    between 0 and 1, the entry of a digit that does not occur is
    not-a-number (from [0 / 0]); no exception is raised. *)
Theorem computeAccPerLabel_of_runTest_result (X y : matrix)
    (cmp : vector -> result vector) (correct : num) (indexWrong : list nat) :
  has_shape (length y) 10 y ->
  runTest X y cmp = Ok (correct, indexWrong) ->
  exists yd accs,
    asDigits y = Ok yd
    /\ computeAccPerLabel y indexWrong = Ok accs
    /\ length accs = 10%nat
    /\ forall d a, nth_error accs d = Some a ->
         (In d yd -> in_01 a) /\ (~ In d yd -> a = NaN).
Proof. apply computeAccPerLabel_spec. Qed.

Lemma two_labels_test_returns :
  exists correct indexWrong,
    runTest (ones 2) [one_hot 0; one_hot 1] (compute unit_hebb)
    = Ok (correct, indexWrong).
Proof.
  apply runTest_returns.
  - reflexivity.
  - discriminate.
  - repeat constructor; discriminate.
  - intros x Hx. apply repeat_spec in Hx. subst x. eexists. reflexivity.
Qed.

Lemma computeAccPerLabel_of_runTest_witness :
  exists correct indexWrong,
    runTest (ones 2) [one_hot 0; one_hot 1] (compute unit_hebb)
    = Ok (correct, indexWrong)
    /\ exists yd accs,
         asDigits [one_hot 0; one_hot 1] = Ok yd
         /\ computeAccPerLabel [one_hot 0; one_hot 1] indexWrong = Ok accs
         /\ length accs = 10%nat.
Proof.
  destruct two_labels_test_returns as (correct & indexWrong & Hrun).
  exists correct, indexWrong. split; [exact Hrun|].
  destruct (computeAccPerLabel_of_runTest_result (ones 2) [one_hot 0; one_hot 1]
              (compute unit_hebb) correct indexWrong) as (yd & accs & H1 & H2 & H3 & _).
  - split; [reflexivity | repeat constructor].
  - exact Hrun.
  - exists yd, accs. auto.
Defined.

(* ----------------------------------------------------------------- *)
(** ** Random initial weights *)

Lemma normalized_row_finite (rs : list R) :
  (sum_squares rs <> 0 ->
   row_norm (normalized_row (map Fin rs)) = Fin 1)
  /\ (sum_squares rs = 0 ->
      normalized_row (map Fin rs) = map (fun _ => NaN) rs).
Proof.
  unfold normalized_row. rewrite row_norm_finite, map_map.
  pose proof (sum_squares_nonneg rs) as Hpos.
  split.
  - intros Hne.
    assert (Hc : sqrt (sum_squares rs) <> 0).
    { intros H0. apply sqrt_eq_0 in H0; [contradiction | exact Hpos]. }
    assert (Hmap : map (fun r => ndiv (Fin r) (Fin (sqrt (sum_squares rs)))) rs
                   = map Fin (map (fun r => r / sqrt (sum_squares rs)) rs)).
    { rewrite map_map. apply map_ext. intros r. simpl.
      destruct (Req_dec_T (sqrt (sum_squares rs)) 0); [contradiction | reflexivity]. }
    rewrite Hmap, row_norm_finite, sum_squares_scaled by exact Hc.
    rewrite sqrt_sqrt by exact Hpos.
    f_equal. rewrite <- sqrt_1. f_equal. field. exact Hne.
  - intros H0. pose proof (sum_squares_zero rs H0) as Hzero.
    rewrite H0, sqrt_0. apply map_ext_in. intros r Hr.
    rewrite Forall_forall in Hzero. rewrite (Hzero r Hr). simpl.
    destruct (Req_dec_T 0 0) as [_ | Hne]; [|exfalso; apply Hne; reflexivity].
    unfold Rsign. destruct (Req_dec_T 0 0) as [_ | Hne]; [reflexivity|].
    exfalso. apply Hne. reflexivity.
Qed.

Section RandomInit.

Context `{RG : RandomGen}.

(** X22.  [Layer( ..., random=True )] on a finite draw: the constructor
    returns, the generator has advanced past the draw, and every row of
    the draw with a non-zero entry has become a weight row of Euclidean
    norm 1 (over exact arithmetic).  A row drawn as all zeros becomes a
    row of not-a-number: unlike [learn], the constructor does not repair
    it. *)
Theorem Layer_init_random_rows_have_unit_norm (nInputs nNeurons : Z)
    (activationFunction : vector -> result vector) (lr : rule) (nrm : bool)
    (g g' : rng) (Ur : list (list R)) :
  (0 <= nInputs)%Z -> (0 <= nNeurons)%Z ->
  uniform g (Z.to_nat nNeurons) (Z.to_nat nInputs) = (map (map Fin) Ur, g') ->
  exists self,
    Layer_init nInputs nNeurons activationFunction lr true nrm g = (Ok self, g')
    /\ length (weights self) = length Ur
    /\ forall i rs,
         nth_error Ur i = Some rs ->
         exists row,
           nth_error (weights self) i = Some row
           /\ (sum_squares rs <> 0 -> row_norm row = Fin 1)
           /\ (sum_squares rs = 0 -> row = map (fun _ => NaN) rs).
Proof.
  intros Hn Hm Hdraw. unfold Layer_init, np_random_uniform.
  replace ((nNeurons <? 0) || (nInputs <? 0))%Z with false
    by (symmetry; apply orb_false_iff; split; apply Z.ltb_ge; assumption).
  rewrite Hdraw. cbn [bind]. rewrite normalizeRows_eq. cbn [bind].
  eexists. split; [reflexivity|]. cbn [weights].
  split; [now rewrite !length_map|].
  intros i rs Hrs. exists (normalized_row (map Fin rs)). split.
  - rewrite map_map.
    exact (map_nth_error (fun x => normalized_row (map Fin x)) i Ur Hrs).
  - apply normalized_row_finite.
Qed.

End RandomInit.

Lemma Layer_init_random_witness :
  exists self,
    Layer_init 2 1 linear r_ojas true true (seed 0) = (Ok self, 1%nat)
    /\ length (weights self) = 1%nat
    /\ exists row, nth_error (weights self) 0 = Some row /\ row_norm row = Fin 1.
Proof.
  destruct (Layer_init_random_rows_have_unit_norm (RG := CounterGen) 2 1 linear r_ojas true
              (seed 0) 1%nat [[1 / 2; 1 / 2]]) as (self & Hinit & Hlen & Hrows).
  - lia.
  - lia.
  - reflexivity.
  - exists self. split; [exact Hinit|]. split; [exact Hlen|].
    destruct (Hrows 0%nat [1 / 2; 1 / 2] eq_refl) as (row & Hrow & Hunit & _).
    exists row. split; [exact Hrow|]. apply Hunit. simpl. lra.
Defined.

(* ----------------------------------------------------------------- *)
(** ** A layer with a single input *)

Lemma bmat_single_column_l (m k : nat) (f : num -> num -> num) (A B : matrix) :
  has_shape m 1 A -> has_shape m k B ->
  bmat f A B = Ok (map2 (fun w u => map (f (hd NaN w)) u) A B)
  /\ has_shape m k (map2 (fun w u => map (f (hd NaN w)) u) A B).
Proof.
  intros HA HB. split.
  - unfold bmat. apply bcast_same.
    + destruct HA, HB. congruence.
    + intros w u Hw _. pose proof (has_shape_row m 1 HA Hw) as Lw.
      destruct w as [|a [|a' w]]; simpl in Lw; try discriminate.
      apply (bcast_one_l (fun c d => Ok (f c d)) f). auto.
  - split.
    + rewrite map2_length
        by (exact (eq_trans (proj1 HA) (eq_sym (proj1 HB)))).
      exact (proj1 HA).
    + apply Forall_forall. intros r Hr.
      apply map2_In in Hr. destruct Hr as (w & u & _ & Hu & ->).
      rewrite length_map. exact (has_shape_row m k HB Hu).
Qed.

(** X23.  On a layer with a single input, the plain Hebbian rule does
    not reject a sample of another length [k]: numpy broadcasts the one
    weight column against the [k] columns of the outer product, the
    [learn] call returns, and the weight matrix silently takes the shape
    [(nNeurons, k)]. *)
Theorem learn_hebb_widens_single_input_layer (m k : nat) (self : Layer)
    (x y : vector) (eta : num) :
  has_shape m 1 (weights self) ->
  learning self = r_hebb ->
  length y = m -> length x = k ->
  exists self',
    learn self x y eta = (self', Ok tt) /\ has_shape m k (weights self').
Proof.
  intros HW Hr Hy Hx.
  assert (HU : has_shape m k (scale eta (np_outer y x)))
    by (apply has_shape_scale, has_shape_outer; assumption).
  destruct (bmat_single_column_l m k nadd _ _ HW HU) as [Hrule Hshape].
  eexists. split.
  - apply learn_eq. rewrite Hr. unfold r_hebb. exact Hrule.
  - unfold after_rule. destruct (normalize self); cbn [weights set_weights].
    + apply has_shape_nan_to_zero, has_shape_normalized, Hshape.
    + exact Hshape.
Qed.

Lemma learn_hebb_widens_witness :
  exists self',
    learn unit_hebb [Fin 1; Fin 2; Fin 3] [Fin 1] (Fin 1) = (self', Ok tt)
    /\ has_shape 1 3 (weights self').
Proof.
  apply (learn_hebb_widens_single_input_layer 1 3).
  - apply has_shape_unit.
  - reflexivity.
  - reflexivity.
  - reflexivity.
Defined.
